(** * bwt-zip: BWT + run-length + Elias + Huffman compressor, and its decompressor

    Shallow embedding of [bwtzip.py] and [bwtunzip.py].

    Conventions of the embedding:
    - a Python [int] is a [Z];
    - a Python [str] over the two characters '0' and '1' (every bit string of
      the program is built from [bin], [zfill], [format(_, '08b')] and
      concatenations of those) is a [list bool], [true] standing for '1';
    - a Python [str] of text is a [list ascii], compared as Python compares
      strings: lexicographically on code points;
    - a computation that can raise is a [result]: [Ok v] when it returns [v],
      [Raise] when an exception escapes, [Timeout] when the fuel given to a
      [while] loop is used up; each loop gets as much fuel as it can have
      rounds, and every theorem that states a result states it as [Ok]. *)

From Stdlib Require Import Ascii String.
From Stdlib Require Import ZArith List Bool Lia Arith.
From Stdlib Require Import Permutation Sorted.
Import ListNotations.

Local Open Scope Z_scope.

(** ** Results of computations that may raise *)

Inductive result (A : Type) : Type :=
| Ok (a : A)
| Raise
| Timeout.

Arguments Ok {A} a.
Arguments Raise {A}.
Arguments Timeout {A}.

Definition bind {A B : Type} (m : result A) (k : A -> result B) : result B :=
  match m with
  | Ok a => k a
  | Raise => Raise
  | Timeout => Timeout
  end.

Notation "x <- m ;; k" := (bind m (fun x => k))
  (at level 61, m at next level, right associativity).
Notation "' pat <- m ;; k" := (bind m (fun x => match x with pat => k end))
  (at level 61, pat pattern, m at next level, right associativity).

(** ** Python built-ins used by the program *)

Module Py.

(** [s[a:b]] for [0 <= a]; the program never slices with a negative bound. *)
Definition slice {A : Type} (s : list A) (a b : Z) : list A :=
  firstn (Z.to_nat (b - a)) (skipn (Z.to_nat a) s).

(** [s[a:]] for [0 <= a]. *)
Definition slice_from {A : Type} (s : list A) (a : Z) : list A :=
  skipn (Z.to_nat a) s.

Definition len {A : Type} (s : list A) : Z := Z.of_nat (length s).

(** [l[i]]: a negative index counts from the end, an index out of range
    raises IndexError. *)
Definition get {A : Type} (l : list A) (i : Z) : result A :=
  let j := if i <? 0 then i + len l else i in
  if (j <? 0) || (len l <=? j) then Raise
  else match nth_error l (Z.to_nat j) with
       | Some x => Ok x
       | None => Raise
       end.

Fixpoint update {A : Type} (l : list A) (n : nat) (x : A) : list A :=
  match l, n with
  | [], _ => []
  | _ :: t, O => x :: t
  | h :: t, S m => h :: update t m x
  end.

(** [l[i] = x], same index rule as [get]. *)
Definition set {A : Type} (l : list A) (i : Z) (x : A) : result (list A) :=
  let j := if i <? 0 then i + len l else i in
  if (j <? 0) || (len l <=? j) then Raise
  else Ok (update l (Z.to_nat j) x).

(** [v.bit_length()]. *)
Definition bit_length (v : Z) : Z :=
  if v =? 0 then 0 else Z.log2 (Z.abs v) + 1.

Fixpoint bin_pos (p : positive) : list bool :=
  match p with
  | xH => [true]
  | xO q => bin_pos q ++ [false]
  | xI q => bin_pos q ++ [true]
  end.

(** [bin(v)[2:]] for [0 <= v]: the binary digits of [v], most significant
    first, "0" for zero. The program calls [bin] on non-negative values
    only. *)
Definition bin (v : Z) : list bool :=
  match v with
  | Zpos p => bin_pos p
  | _ => [false]
  end.

(** [s.zfill(w)] on a string of digits. *)
Definition zfill (s : list bool) (w : Z) : list bool :=
  repeat false (Z.to_nat (w - len s)) ++ s.

(** [int(s, 2)] on a non-empty string of binary digits; [int("", 2)]
    raises ValueError. *)
Definition int2_digits (s : list bool) : Z :=
  fold_left (fun acc (b : bool) => 2 * acc + (if b then 1 else 0)) s 0.

Definition int2 (s : list bool) : result Z :=
  match s with
  | [] => Raise
  | _ => Ok (int2_digits s)
  end.

(** [ord(c)] and [chr(n)]; [chr] is called on values below 256 only. *)
Definition ord (c : ascii) : Z := Z.of_N (N_of_ascii c).
Definition chr (n : Z) : ascii := ascii_of_N (Z.to_N n).

(** [a < b] and [a == b] on one-character strings. *)
Definition char_ltb (a b : ascii) : bool := ord a <? ord b.
Definition char_eqb (a b : ascii) : bool := ord a =? ord b.

(** [s < t] on strings: lexicographic on code points, a proper prefix
    being smaller. *)
Fixpoint str_ltb (s t : list ascii) : bool :=
  match s, t with
  | _, [] => false
  | [], _ :: _ => true
  | a :: s', b :: t' =>
      if char_ltb a b then true
      else if char_ltb b a then false
      else str_ltb s' t'
  end.

Fixpoint str_eqb (s t : list ascii) : bool :=
  match s, t with
  | [], [] => true
  | a :: s', b :: t' => char_eqb a b && str_eqb s' t'
  | _, _ => false
  end.

(** [list.sort()] and [sorted()]: a stable sort that compares with [<]
    only; modelled as the stable insertion sort. *)
Section Sort.
Context {A : Type} (ltb : A -> A -> bool).

Fixpoint insert (x : A) (l : list A) : list A :=
  match l with
  | [] => [x]
  | y :: t => if ltb y x then y :: insert x t else x :: y :: t
  end.

Fixpoint sort (l : list A) : list A :=
  match l with
  | [] => []
  | x :: t => insert x (sort t)
  end.
End Sort.

End Py.

(** ** [bwtzip.py]: class EliasEncoding *)

Module EliasEncoding.

(** The [while self.value > 1] loop of [elias_encoding]; the state is
    ([self.value], [length], [bit_array]). *)
Fixpoint loop (fuel : nat) (value length : Z) (bit_array : list (list bool))
  : result (list (list bool)) :=
  if 1 <? value then
    match fuel with
    | O => Timeout
    | S fuel' =>
        let value := length - 1 in
        let length := Py.bit_length value in
        let mask := Z.lnot (Z.shiftl 1 (length - 1)) in
        let temp := Z.land mask value in
        loop fuel' value length
             (bit_array ++ [Py.zfill (Py.bin temp) length])
    end
  else Ok bit_array.

(** [for y in range(len(bit_array)-1, -1, -1): elias_string += bit_array[y]] *)
Definition join_backwards (bit_array : list (list bool)) : list bool :=
  concat (rev bit_array).

(** [EliasEncoding(value).get_elias_string()] *)
Definition elias_encoding (value : Z) : result (list bool) :=
  let length := Py.bit_length value in
  let bit_array := [Py.bin value] in
  bit_array <- loop (Z.to_nat length) value length bit_array ;;
  Ok (join_backwards bit_array).

End EliasEncoding.

(** ** [bwtunzip.py]: class EliasDecoding *)

Module EliasDecoding.

(** The [while i < len(self.bit_string)] loop of [decode]; the state is
    ([i], [self.end_pointer], [value], [self.decoded]) and the result is
    what [get_decode] returns afterwards. *)
Fixpoint loop (fuel : nat) (bit_string : list bool)
         (i end_pointer value decoded : Z) : result (Z * Z) :=
  if i <? Py.len bit_string then
    match fuel with
    | O => Timeout
    | S fuel' =>
        match nth_error bit_string (Z.to_nat i) with
        | Some false =>
            let temp := value in
            let value :=
              Py.int2_digits (true :: Py.slice bit_string (i + 1) end_pointer) + 1 in
            let i := i + temp in
            let end_pointer := value + i in
            loop fuel' bit_string i end_pointer value decoded
        | Some true =>
            let decoded :=
              Py.int2_digits (true :: Py.slice bit_string (i + 1) end_pointer) in
            Ok (decoded, end_pointer)
        | None => Raise
        end
    end
  else Ok (decoded, end_pointer).

(** [EliasDecoding(bit_string, start_index).get_decode()], for
    [0 <= start_index]. *)
Definition decode (bit_string : list bool) (start_index : Z) : result (Z * Z) :=
  let i := start_index in
  let end_pointer := i + 1 in
  let value := 1 in
  loop (length bit_string) bit_string i end_pointer value 0.

End EliasDecoding.

(** ** [bwtzip.py]: class SuffixArray *)

Module SuffixArray.

(** [(suffix, index)] tuples compare lexicographically. *)
Definition tuple_ltb (x y : list ascii * Z) : bool :=
  Py.str_ltb (fst x) (fst y)
  || (Py.str_eqb (fst x) (fst y) && (snd x <? snd y)).

(** [for i in range(len(text)): array.append((text[i:], i))] *)
Fixpoint suffixes (text : list ascii) (i : Z) : list (list ascii * Z) :=
  match text with
  | [] => []
  | _ :: t => (text, i) :: suffixes t (i + 1)
  end.

(** [SuffixArray(text).get_suffix_array()] *)
Definition naive_suffix_array (text : list ascii) : list Z :=
  let array := suffixes text 0 in
  let array := Py.sort tuple_ltb array in
  map (fun x => snd x + 1) array.

End SuffixArray.

(** ** [bwtzip.py]: class BWT_Encoding *)

Module BWT_Encoding.

(** [for y in suffix_array: bwt_string += text[(y + len(text) - 2) % len(text)]] *)
Fixpoint bwt_loop (text : list ascii) (suffix_array : list Z)
         (bwt_string : list ascii) : result (list ascii) :=
  match suffix_array with
  | [] => Ok bwt_string
  | y :: rest =>
      c <- Py.get text ((y + Py.len text - 2) mod Py.len text) ;;
      bwt_loop text rest (bwt_string ++ [c])
  end.

(** [BWT_Encoding(text).get_bwt_string()] *)
Definition bwt (text : list ascii) : result (list ascii) :=
  bwt_loop text (SuffixArray.naive_suffix_array text) [].

End BWT_Encoding.

(** ** [heapq], as [HuffManEncoding] uses it

    The heap is a Python list arranged by [heapq]; the program reads it only
    through [heappop] (which returns the smallest item), [len] and, once a
    single item is left, [self.unique[0]]. It is modelled as the list of its
    items in increasing order. *)

Module Heapq.

Definition entry : Type := (Z * list ascii)%type.

(** [(weight, symbols)] tuples compare lexicographically. *)
Definition entry_ltb (x y : entry) : bool :=
  (fst x <? fst y) || ((fst x =? fst y) && Py.str_ltb (snd x) (snd y)).

Definition heapify (l : list entry) : list entry := Py.sort entry_ltb l.

(** [heappop] raises IndexError on an empty heap. *)
Definition heappop (h : list entry) : result (entry * list entry) :=
  match h with
  | [] => Raise
  | x :: t => Ok (x, t)
  end.

Definition heappush (h : list entry) (x : entry) : list entry :=
  Py.insert entry_ltb x h.

End Heapq.

(** ** [bwtzip.py]: class HuffManEncoding *)

(** An entry of the list [self.characters]: the occurrence count put there by
    [Compress.header], or the code string that [HuffManEncoding.append] has
    put in its place. *)
Inductive cell : Type :=
| Count (n : Z)
| Code (s : list bool).

Module HuffManEncoding.

Import Heapq.

(** [append(index, value)]: [self.character[index] += value] raises
    TypeError on a count and the handler stores [value] instead; an index
    out of range raises in the handler too. *)
Definition append (character : list cell) (index : Z) (value : list bool)
  : result (list cell) :=
  c <- Py.get character index ;;
  match c with
  | Code s => Py.set character index (Code (s ++ value))
  | Count _ => Py.set character index (Code value)
  end.

(** [for char in symbols: self.append(ord(char) - 36, value)] *)
Fixpoint append_all (character : list cell) (symbols : list ascii)
         (value : list bool) : result (list cell) :=
  match symbols with
  | [] => Ok character
  | char :: rest =>
      character <- append character (Py.ord char - 36) value ;;
      append_all character rest value
  end.

(** The [while len(self.unique) > 1] loop of [huffman_encoding]. *)
Fixpoint loop (fuel : nat) (character : list cell) (unique : list entry)
  : result (list cell * list entry) :=
  if 1 <? Py.len unique then
    match fuel with
    | O => Timeout
    | S fuel' =>
        '(left_, unique) <- heappop unique ;;
        '(right_, unique) <- heappop unique ;;
        character <- append_all character (snd left_) [false] ;;
        character <- append_all character (snd right_) [true] ;;
        loop fuel' character
             (heappush unique (fst left_ + fst right_, snd left_ ++ snd right_))
    end
  else Ok (character, unique).

Definition huffman_encoding (character : list cell) (unique : list entry)
  : result (list cell * list entry) :=
  loop (length unique) character (heapify unique).

(** [get_unique_characters()]: [self.unique[0][1]] *)
Definition get_unique_characters (unique : list entry) : result (list ascii) :=
  e <- Py.get unique 0 ;;
  Ok (snd e).

(** [reverse_string(string)]; [len] of a count raises TypeError. *)
Definition reverse_string (c : cell) : result cell :=
  match c with
  | Code s => Ok (Code (rev s))
  | Count _ => Raise
  end.

(** The loop of [reverse_all]. *)
Fixpoint reverse_loop (character : list cell) (symbols : list ascii)
  : result (list cell) :=
  match symbols with
  | [] => Ok character
  | i :: rest =>
      let index := Py.ord i - 36 in
      c <- Py.get character index ;;
      r <- reverse_string c ;;
      character <- Py.set character index r ;;
      reverse_loop character rest
  end.

Definition reverse_all (character : list cell) (unique : list entry)
  : result (list cell) :=
  symbols <- get_unique_characters unique ;;
  reverse_loop character symbols.

(** [HuffManEncoding(characters, unique_characters)]: the object is the
    pair ([self.character], [self.unique]). *)
Definition init (characters : list cell) (unique_characters : list entry)
  : result (list cell * list entry) :=
  '(character, unique) <- huffman_encoding characters unique_characters ;;
  character <- reverse_all character unique ;;
  Ok (character, unique).

(** [len(self.huffman_encoding[index])] and the code itself, as
    [Compress] uses them; [len] of a count and [count + str] raise
    TypeError. *)
Definition code_of (character : list cell) (index : Z) : result (list bool) :=
  c <- Py.get character index ;;
  match c with
  | Code s => Ok s
  | Count _ => Raise
  end.

End HuffManEncoding.

(** ** [bwtzip.py]: class Compress *)

Module Compress.

(** [for char in self.text: self.characters[ord(char) - 36] += 1] *)
Fixpoint count_loop (characters : list cell) (text : list ascii)
  : result (list cell) :=
  match text with
  | [] => Ok characters
  | char :: rest =>
      c <- Py.get characters (Py.ord char - 36) ;;
      match c with
      | Count n =>
          characters <- Py.set characters (Py.ord char - 36) (Count (n + 1)) ;;
          count_loop characters rest
      | Code _ => Raise
      end
  end.

(** [for i in range(len(self.characters)): if self.characters[i] > 0:
    self.unique.append((self.characters[i], chr(i + 36)))] *)
Fixpoint unique_loop (characters : list cell) (i : Z)
         (unique : list Heapq.entry) : result (list Heapq.entry) :=
  match characters with
  | [] => Ok unique
  | Count n :: rest =>
      unique_loop rest (i + 1)
        (if 0 <? n then unique ++ [(n, [Py.chr (i + 36)])] else unique)
  | Code _ :: _ => Raise
  end.

(** The last loop of [header]: one table entry per symbol. *)
Fixpoint table_loop (character : list cell) (symbols : list ascii)
         (to_write : list bool) : result (list bool) :=
  match symbols with
  | [] => Ok to_write
  | char :: rest =>
      let index := Py.ord char - 36 in
      let ascii := Py.zfill (Py.bin (Py.ord char)) 7 in
      let to_write := to_write ++ ascii in
      huffman_code <- HuffManEncoding.code_of character index ;;
      elias_length <- EliasEncoding.elias_encoding (Py.len huffman_code) ;;
      let to_write := to_write ++ elias_length in
      let to_write := to_write ++ huffman_code in
      table_loop character rest to_write
  end.

(** [header()], on [self.text] (which already ends with '$'); returns
    the Huffman object and [self.to_write]. *)
Definition header (text : list ascii)
  : result ((list cell * list Heapq.entry) * list bool) :=
  characters <- count_loop (repeat (Count 0) 91) text ;;
  unique <- unique_loop characters 0 [] ;;
  e1 <- EliasEncoding.elias_encoding (Py.len text) ;;
  let to_write := [] ++ e1 in
  e2 <- EliasEncoding.elias_encoding (Py.len unique) ;;
  let to_write := to_write ++ e2 in
  huffman_encoding <- HuffManEncoding.init characters unique ;;
  symbols <- HuffManEncoding.get_unique_characters (snd huffman_encoding) ;;
  to_write <- table_loop (fst huffman_encoding) symbols to_write ;;
  Ok (huffman_encoding, to_write).

(** One run: [self.to_write += huffman_code + elias]. *)
Definition emit (character : list cell) (char : ascii) (counter : Z)
           (to_write : list bool) : result (list bool) :=
  let index := Py.ord char - 36 in
  huffman_code <- HuffManEncoding.code_of character index ;;
  elias <- EliasEncoding.elias_encoding counter ;;
  Ok (to_write ++ (huffman_code ++ elias)).

(** [for char in range(len(bwt_string) - 1)]: the list argument is
    [bwt_string[char:]]. *)
Fixpoint message_loop (character : list cell) (bwt_string : list ascii)
         (counter : Z) (to_write : list bool) : result (Z * list bool) :=
  match bwt_string with
  | c :: ((d :: _) as rest) =>
      if Py.char_eqb c d then
        message_loop character rest (counter + 1) to_write
      else
        to_write <- emit character c counter to_write ;;
        message_loop character rest 1 to_write
  | _ => Ok (counter, to_write)
  end.

(** The [(symbol, counter)] pairs with which [message()] calls for a
    run to be written: those of the loop, then the one written after it. *)
Fixpoint runs_from (bwt_string : list ascii) (counter : Z) : list (ascii * Z) :=
  match bwt_string with
  | [] => []
  | [c] => [(c, counter)]
  | c :: ((d :: _) as rest) =>
      if Py.char_eqb c d then runs_from rest (counter + 1)
      else (c, counter) :: runs_from rest 1
  end.

Definition runs (bwt_string : list ascii) : list (ascii * Z) :=
  runs_from bwt_string 1.

(** [message()] *)
Definition message (character : list cell) (text : list ascii)
           (to_write : list bool) : result (list bool) :=
  bwt_string <- BWT_Encoding.bwt text ;;
  '(counter, to_write) <- message_loop character bwt_string 1 to_write ;;
  last <- Py.get bwt_string (-1) ;;
  emit character last counter to_write.

(** The [while len(self.to_write) >= 8] loop of [write]; the result is
    the list of byte values written and what is left of [self.to_write]. *)
Fixpoint write_loop (fuel : nat) (to_write : list bool) (file : list Z)
  : result (list bool * list Z) :=
  if 8 <=? Py.len to_write then
    match fuel with
    | O => Timeout
    | S fuel' =>
        let byte := Py.slice to_write 0 8 in
        let to_write := Py.slice_from to_write 8 in
        number <- Py.int2 byte ;;
        write_loop fuel' to_write (file ++ [number])
    end
  else Ok (to_write, file).

(** [write()]: the bytes of the file. *)
Definition write (to_write : list bool) : result (list Z) :=
  '(to_write, file) <- write_loop (length to_write) to_write [] ;;
  if 0 <? Py.len to_write then
    let to_write := to_write ++ repeat false (Z.to_nat (8 - Py.len to_write)) in
    number <- Py.int2 to_write ;;
    Ok (file ++ [number])
  else Ok file.

(** The bit string [self.to_write] after [header()] and [message()]. *)
Definition bitstream (text : list ascii) : result (list bool) :=
  let text := text ++ ["$"%char] in
  '(huffman_encoding, to_write) <- header text ;;
  message (fst huffman_encoding) text to_write.

(** [Compress(text, filename)]: the bytes written to the file. *)
Definition compress (text : list ascii) : result (list Z) :=
  to_write <- bitstream text ;;
  write to_write.

End Compress.

(** ** [bwtunzip.py]: class Node and class HuffmanDecoding *)

(** A reference to a [Node] object, or [None]: the object has a payload
    ([None] or a one-character string) and two such references. *)
Inductive node : Type :=
| NoNode
| Node (payload : option ascii) (child0 child1 : node).

Module HuffmanDecoding.

(** [Node()] *)
Definition fresh : node := Node None NoNode NoNode.

(** [if current_node[b] == None: current_node[b] = Node()], then the
    child. *)
Definition ensure (n : node) : node :=
  match n with
  | NoNode => fresh
  | _ => n
  end.

(** The inner loop of [generate_huffman_tree] for one [(char, code)]:
    follow the bits from [current_node], creating the missing nodes, and
    set the payload of the node reached. The nodes are updated in place
    in the program; the model returns the updated node. *)
Fixpoint add_path (current_node : node) (code : list bool) (char : ascii)
  : node :=
  match ensure current_node with
  | NoNode => NoNode
  | Node p c0 c1 =>
      match code with
      | [] => Node (Some char) c0 c1
      | false :: rest => Node p (add_path c0 rest char) c1
      | true :: rest => Node p c0 (add_path c1 rest char)
      end
  end.

(** [HuffmanDecoding(unique_chars)]: the root of the tree. *)
Definition generate_huffman_tree (unique_chars : list (ascii * list bool))
  : node :=
  fold_left (fun root e => add_path root (snd e) (fst e)) unique_chars fresh.

(** The loop of [decode] over [bit_string[start_index:]]; [None] stands
    for the pair [(None, None)] returned when the bits run out. Reading
    the payload of an absent child raises AttributeError. *)
Fixpoint walk (current_node : node) (bits : list bool) (index_counter : Z)
         (start_index : Z) : result (option (ascii * Z)) :=
  match bits with
  | [] => Ok None
  | bit :: rest =>
      let index_counter := index_counter + 1 in
      match current_node with
      | NoNode => Raise
      | Node _ c0 c1 =>
          match (if bit then c1 else c0) with
          | NoNode => Raise
          | Node (Some p) _ _ => Ok (Some (p, index_counter + start_index))
          | Node None _ _ as current_node =>
              walk current_node rest index_counter start_index
          end
      end
  end.

Definition decode (root : node) (bit_string : list bool) (start_index : Z)
  : result (option (ascii * Z)) :=
  walk root (Py.slice_from bit_string start_index) 0 start_index.

End HuffmanDecoding.

(** ** [bwtunzip.py]: class BWT_Decoding *)

Module BWT_Decoding.

(** The loop of [rank_order]; [char] is the loop index, [first_column] and
    [bwt_text] are indexed by it. The state is ([self.rank],
    [order_checker], [self.order]). *)
Fixpoint rank_order_loop (n : nat) (char : Z) (first_column bwt_text : list ascii)
         (rank : list (option Z)) (order_checker order : list Z)
  : result (list (option Z) * list Z) :=
  match n with
  | O => Ok (rank, order)
  | S n' =>
      fc <- Py.get first_column char ;;
      r <- Py.get rank (Py.ord fc - 36) ;;
      rank <- (match r with
               | None => Py.set rank (Py.ord fc - 36) (Some char)
               | Some _ => Ok rank
               end) ;;
      bc <- Py.get bwt_text char ;;
      let index := Py.ord bc - 36 in
      oc <- Py.get order_checker index ;;
      order_checker <- Py.set order_checker index (oc + 1) ;;
      oc <- Py.get order_checker index ;;
      order <- Py.set order char oc ;;
      rank_order_loop n' (char + 1) first_column bwt_text rank order_checker order
  end.

(** [rank_order()]: the tables [self.rank] and [self.order]. *)
Definition rank_order (bwt_text : list ascii)
  : result (list (option Z) * list Z) :=
  let rank := repeat None 91 in
  let order := repeat 0 (length bwt_text) in
  let first_column := Py.sort Py.char_ltb bwt_text in
  let order_checker := repeat 0 91 in
  rank_order_loop (length first_column) 0 first_column bwt_text
                  rank order_checker order.

(** [formula(counter)]; [None + int] raises TypeError. *)
Definition formula (bwt_text : list ascii) (rank : list (option Z))
           (order : list Z) (counter : Z) : result Z :=
  char <- Py.get bwt_text counter ;;
  r <- Py.get rank (Py.ord char - 36) ;;
  o <- Py.get order counter ;;
  match r with
  | Some rank => Ok (rank + o - 1)
  | None => Raise
  end.

(** The loop of [decode]: [n] iterations are left and [i = n - 1]. *)
Fixpoint decode_loop (n : nat) (bwt_text : list ascii)
         (rank : list (option Z)) (order : list Z)
         (answer : list (option ascii)) (counter : Z)
  : result (list (option ascii)) :=
  match n with
  | O => Ok answer
  | S i =>
      c <- Py.get bwt_text counter ;;
      if Py.char_eqb c "$"%char then Ok answer
      else
        answer <- Py.set answer (Z.of_nat i) (Some c) ;;
        counter <- formula bwt_text rank order counter ;;
        decode_loop i bwt_text rank order answer counter
  end.

(** [''.join(self.answer)]; an item that is still [None] raises TypeError. *)
Fixpoint join (answer : list (option ascii)) : result (list ascii) :=
  match answer with
  | [] => Ok []
  | Some c :: rest => t <- join rest ;; Ok (c :: t)
  | None :: _ => Raise
  end.

(** [BWT_Decoding(bwt_text).get_text()] *)
Definition decode (bwt_text : list ascii) : result (list ascii) :=
  let answer := repeat None (Z.to_nat (Py.len bwt_text - 1)) in
  '(rank, order) <- rank_order bwt_text ;;
  answer <- decode_loop (length answer) bwt_text rank order answer 0 ;;
  join answer.

End BWT_Decoding.

(** ** [bwtunzip.py]: class ReadBinaryFile and class Decompress *)

Module Decompress.

(** [''.join(format(byte, '08b') for byte in f.read())] *)
Definition read (file : list Z) : list bool :=
  concat (map (fun byte => Py.zfill (Py.bin byte) 8) file).

(** The [for _ in range(self.no_unique)] loop of [decode_header]. *)
Fixpoint table_loop (n : nat) (bit_string : list bool) (end_index : Z)
         (unique_chars : list (ascii * list bool))
  : result (Z * list (ascii * list bool)) :=
  match n with
  | O => Ok (end_index, unique_chars)
  | S n' =>
      code_point <- Py.int2 (Py.slice bit_string end_index (end_index + 7)) ;;
      let char := Py.chr code_point in
      let end_index := end_index + 7 in
      '(elias_code, end_index) <- EliasDecoding.decode bit_string end_index ;;
      let huffman_code := Py.slice bit_string end_index (end_index + elias_code) in
      let end_index := end_index + elias_code in
      table_loop n' bit_string end_index (unique_chars ++ [(char, huffman_code)])
  end.

(** [decode_header()]: ([self.text_length], [self.no_unique],
    [self.end_index], [self.unique_chars]). *)
Definition decode_header (bit_string : list bool)
  : result (Z * Z * Z * list (ascii * list bool)) :=
  '(text_length, end_index) <- EliasDecoding.decode bit_string 0 ;;
  '(no_unique, end_index) <- EliasDecoding.decode bit_string end_index ;;
  '(end_index, unique_chars) <-
    table_loop (Z.to_nat no_unique) bit_string end_index [] ;;
  Ok (text_length, no_unique, end_index, unique_chars).

(** The [while self.end_index < len(self.bit_string)] loop of
    [decode_data]. *)
Fixpoint data_loop (fuel : nat) (huffman_tree : node) (bit_string : list bool)
         (end_index : Z) (bwt_text : list ascii) : result (list ascii) :=
  if end_index <? Py.len bit_string then
    match fuel with
    | O => Timeout
    | S fuel' =>
        r <- HuffmanDecoding.decode huffman_tree bit_string end_index ;;
        match r with
        | None => Ok bwt_text
        | Some (char, end_index) =>
            '(counter, end_index) <- EliasDecoding.decode bit_string end_index ;;
            data_loop fuel' huffman_tree bit_string end_index
                      (bwt_text ++ repeat char (Z.to_nat counter))
        end
    end
  else Ok bwt_text.

Definition decode_data (huffman_tree : node) (bit_string : list bool)
           (end_index : Z) : result (list ascii) :=
  data_loop (length bit_string) huffman_tree bit_string end_index [].

(** [run()]: [self.text]. *)
Definition run (bit_string : list bool) : result (list ascii) :=
  '(_, _, end_index, unique_chars) <- decode_header bit_string ;;
  let huffman_tree := HuffmanDecoding.generate_huffman_tree unique_chars in
  bwt_text <- decode_data huffman_tree bit_string end_index ;;
  BWT_Decoding.decode bwt_text.

(** [Decompress(filename)] on the bytes of the file: [Ok text] when
    [text] is written to recovered.txt, [Raise] when an exception escapes,
    which happens before [write()] opens the file. *)
Definition decompress (file : list Z) : result (list ascii) :=
  run (read file).

End Decompress.

(** ** Runs of the compressor, whatever the arrangement of the heap

    [heapq] does not say how it arranges the list, only that [heappop]
    removes and returns the smallest item and that [heapify] and [heappush]
    keep the items. A run of the compressor is described here with these
    contracts alone, every other step being the function defined above. *)

Module HeapqContract.

Definition heapified (l h : list Heapq.entry) : Prop := Permutation l h.

Definition popped (h : list Heapq.entry) (x : Heapq.entry)
           (h' : list Heapq.entry) : Prop :=
  Permutation h (x :: h') /\
  Forall (fun y => Heapq.entry_ltb y x = false) h'.

Definition pushed (h : list Heapq.entry) (x : Heapq.entry)
           (h' : list Heapq.entry) : Prop :=
  Permutation (x :: h) h'.

End HeapqContract.

(** The loop of [HuffManEncoding.huffman_encoding] on such a heap. *)
Inductive huffman_run :
  list cell -> list Heapq.entry -> list cell * list Heapq.entry -> Prop :=
| huffman_run_done character unique :
    (length unique <= 1)%nat ->
    huffman_run character unique (character, unique)
| huffman_run_step character unique left_ unique1 right_ unique2
                   character1 character2 unique3 r :
    (1 < length unique)%nat ->
    HeapqContract.popped unique left_ unique1 ->
    HeapqContract.popped unique1 right_ unique2 ->
    HuffManEncoding.append_all character (snd left_) [false] = Ok character1 ->
    HuffManEncoding.append_all character1 (snd right_) [true] = Ok character2 ->
    HeapqContract.pushed unique2 (fst left_ + fst right_, snd left_ ++ snd right_)
                         unique3 ->
    huffman_run character2 unique3 r ->
    huffman_run character unique r.

(** A run of [Compress(text, filename)] that writes the bytes [file]. *)
Inductive compress_run (text : list ascii) (file : list Z) : Prop :=
| compress_run_intro characters unique e1 e2 heap r character symbols
                     to_write bits :
    Compress.count_loop (repeat (Count 0) 91) (text ++ ["$"%char]) = Ok characters ->
    Compress.unique_loop characters 0 [] = Ok unique ->
    EliasEncoding.elias_encoding (Py.len (text ++ ["$"%char])) = Ok e1 ->
    EliasEncoding.elias_encoding (Py.len unique) = Ok e2 ->
    HeapqContract.heapified unique heap ->
    huffman_run characters heap r ->
    HuffManEncoding.reverse_all (fst r) (snd r) = Ok character ->
    HuffManEncoding.get_unique_characters (snd r) = Ok symbols ->
    Compress.table_loop character symbols (([] ++ e1) ++ e2) = Ok to_write ->
    Compress.message character (text ++ ["$"%char]) to_write = Ok bits ->
    Compress.write bits = Ok file ->
    compress_run text file.

(** * Auxiliary definitions of the proofs *)

Definition bits_of_string (s : string) : list bool :=
  map (fun c => if Ascii.eqb c "1"%char then true else false) (list_ascii_of_string s).

Definition text_of (s : string) : list ascii := list_ascii_of_string s.

(** The Elias decoder loop with the fuel [EliasDecoding.decode] gives it. *)
Definition elias_run (bits : list bool) (i e v d : Z) : result (Z * Z) :=
  EliasDecoding.loop (length bits) bits i e v d.

(** No bit of [bits] at index [i] or after it is a one. *)
Definition no_one_from (bits : list bool) (i : Z) : Prop :=
  forall k, i <= k -> nth_error bits (Z.to_nat k) <> Some true.

(** Writing a list of runs, one call of [Compress.emit] each. *)
Fixpoint emit_all (character : list cell) (runs : list (ascii * Z))
         (to_write : list bool) : result (list bool) :=
  match runs with
  | [] => Ok to_write
  | (c, k) :: rest =>
      to_write <- Compress.emit character c k to_write ;;
      emit_all character rest to_write
  end.

(** The admitted alphabet: code points 0x24 to 0x7E. *)
Definition valid_char (c : ascii) : Prop := 36 <= Py.ord c <= 126.

(** A valid input text: at least one character, all of the admitted alphabet,
    none of them the sentinel. *)
Definition valid_text (text : list ascii) : Prop :=
  text <> [] /\ Forall (fun c => valid_char c /\ c <> "$"%char) text.

Definition is_prefix {A : Type} (p q : list A) : Prop := exists r, q = p ++ r.

(** The symbols held by the entries of the heap. *)
Definition symbols_of (unique : list Heapq.entry) : list ascii :=
  concat (map snd unique).

(** The entries [Compress.header] collects from the counts [zs], which start
    at index [i]. *)
Fixpoint unique_from (zs : list Z) (i : Z) : list Heapq.entry :=
  match zs with
  | [] => []
  | z :: rest =>
      if 0 <? z then (z, [Py.chr (i + 36)]) :: unique_from rest (i + 1)
      else unique_from rest (i + 1)
  end.

(** The tree the Huffman construction builds without storing it: a heap
    entry stands for a tree whose leaves, left to right, are the symbols of
    the entry. *)
Inductive ctree : Type :=
| Leaf (c : ascii)
| Br (l r : ctree).

Fixpoint leaves (t : ctree) : list ascii :=
  match t with
  | Leaf c => [c]
  | Br l r => leaves l ++ leaves r
  end.

(** The path from the root to each leaf, zero for left. *)
Fixpoint codes (t : ctree) : list (ascii * list bool) :=
  match t with
  | Leaf c => [(c, [])]
  | Br l r =>
      map (fun cp => (fst cp, false :: snd cp)) (codes l)
      ++ map (fun cp => (fst cp, true :: snd cp)) (codes r)
  end.

(** The cell of a symbol while the tree above it grows: the count as long
    as the symbol is alone, then its path, last choice first. *)
Definition cell_path (cl : cell) (p : list bool) : Prop :=
  match p with
  | [] => exists n, cl = Count n
  | _ => cl = Code (rev p)
  end.

Definition index_of (c : ascii) : nat := Z.to_nat (Py.ord c - 36).

Definition tree_ok (character : list cell) (t : ctree) : Prop :=
  Forall (fun cp => exists cl, nth_error character (index_of (fst cp)) = Some cl
                               /\ cell_path cl (snd cp)) (codes t).

Definition heap_inv (character : list cell) (heap : list Heapq.entry)
           (ts : list ctree) : Prop :=
  length character = 91%nat /\
  Forall2 (fun e t => snd e = leaves t) heap ts /\
  NoDup (concat (map leaves ts)) /\
  Forall valid_char (concat (map leaves ts)) /\
  Forall (tree_ok character) ts.

(** What [HuffManEncoding.append] makes of a cell. *)
Definition bump (value : list bool) (cl : cell) : cell :=
  match cl with
  | Count _ => Code value
  | Code s => Code (s ++ value)
  end.

(** The one-leaf tree of an initial heap entry. *)
Definition leaf_of (e : Heapq.entry) : ctree := Leaf (hd "$"%char (snd e)).

(** The Elias code of [v] as a bit string ([v >= 1]). *)
Definition elias_bits (v : Z) : list bool :=
  match EliasEncoding.elias_encoding v with
  | Ok s => s
  | _ => []
  end.

(** The header entry of a symbol and its code. *)
Definition table_entry (cp : ascii * list bool) : list bool :=
  Py.zfill (Py.bin (Py.ord (fst cp))) 7 ++ elias_bits (Py.len (snd cp)) ++ snd cp.

(** [valid_text], decided. *)
Definition valid_textb (text : list ascii) : bool :=
  match text with
  | [] => false
  | _ => forallb (fun c => (36 <? Py.ord c) && (Py.ord c <=? 126)) text
  end.

(** The decoder's tree for the paths of a code tree. *)
Fixpoint node_of (t : ctree) : node :=
  match t with
  | Leaf c => Node (Some c) NoNode NoNode
  | Br l r => Node None (node_of l) (node_of r)
  end.

(** The loop of [generate_huffman_tree] from a given root. *)
Definition add_paths (root : node) (unique_chars : list (ascii * list bool)) : node :=
  fold_left (fun root e => HuffmanDecoding.add_path root (snd e) (fst e))
            unique_chars root.

(** The bits of the payload for a list of runs, given the code of each
    symbol, and the string the runs stand for. *)
Definition run_bits (code : ascii -> list bool) (r : ascii * Z) : list bool :=
  code (fst r) ++ elias_bits (snd r).

Definition expand (runs : list (ascii * Z)) : list ascii :=
  concat (map (fun r => repeat (fst r) (Z.to_nat (snd r))) runs).

(** The code of a symbol in the table, "" when there is none. *)
Definition code_in (character : list cell) (c : ascii) : list bool :=
  match HuffManEncoding.code_of character (Py.ord c - 36) with
  | Ok s => s
  | _ => []
  end.

(** The payload loop with the fuel [Decompress.decode_data] gives it. *)
Definition data_run (huffman_tree : node) (bit_string : list bool)
           (end_index : Z) (bwt_text : list ascii) : result (list ascii) :=
  Decompress.data_loop (length bit_string) huffman_tree bit_string end_index bwt_text.

(** The header bits for a text of [n] characters (sentinel included) and
    the code tree [t]. *)
Definition header_bits (n : Z) (t : ctree) : list bool :=
  elias_bits n ++ elias_bits (Py.len (codes t)) ++ concat (map table_entry (codes t)).

(** Counting the items of a list that satisfy a test. *)
Definition countb {A : Type} (f : A -> bool) (l : list A) : nat :=
  length (filter f l).

(** The index of the first occurrence of a character. *)
Fixpoint first_index (c : ascii) (l : list ascii) : option nat :=
  match l with
  | [] => None
  | x :: t => if Py.char_eqb x c then Some 0%nat
              else option_map S (first_index c t)
  end.

(** The orders Python sorts with, as "not greater". *)
Definition str_leb (s t : list ascii) : bool := negb (Py.str_ltb t s).
Definition char_leb (a b : ascii) : bool := negb (Py.char_ltb b a).

(** The suffix of the text that starts at position [p], and the order of
    two positions by their suffixes. *)
Definition suf (text : list ascii) (p : nat) : list ascii := skipn p text.

Definition suf_ltb (text : list ascii) (p q : nat) : bool :=
  Py.str_ltb (suf text p) (suf text q).

(** The suffix array with positions counted from 0. *)
Definition sa0 (text : list ascii) : list nat :=
  map (fun x => Z.to_nat (snd x))
      (Py.sort SuffixArray.tuple_ltb (SuffixArray.suffixes text 0)).

Definition char_at (text : list ascii) (p : nat) : ascii := nth p text "$"%char.

(** The position before [p], cyclically in a text of length [n]. *)
Definition pred_cyc (n p : nat) : nat :=
  match p with
  | O => (n - 1)%nat
  | S q => q
  end.

(** The number of suffixes smaller than the one at [p]: its rank. *)
Definition pos (text : list ascii) (p : nat) : nat :=
  countb (fun q => suf_ltb text q p) (seq 0 (length text)).

(** The tables of [BWT_Decoding.rank_order] after [j] rounds of its loop,
    [F] being the sorted string and [L] the transformed text. *)
Definition tables_at (F L : list ascii) (j : nat) (rank : list (option Z))
           (order_checker order : list Z) : Prop :=
  length rank = 91%nat /\ length order_checker = 91%nat /\
  length order = length L /\
  (forall c, valid_char c ->
             nth_error rank (index_of c)
             = Some (option_map Z.of_nat (first_index c (firstn j F)))) /\
  (forall c, valid_char c ->
             nth_error order_checker (index_of c)
             = Some (Z.of_nat (countb (fun x => Py.char_eqb x c) (firstn j L)))) /\
  (forall k x, (k < j)%nat -> nth_error L k = Some x ->
               nth_error order k
               = Some (Z.of_nat (countb (fun y => Py.char_eqb y x) (firstn (S k) L)))).

(** * Auxiliary definitions of the further properties *)

(** A character below '$' indexes the 91-entry tables from their end: it
    shares the entry of the character 91 code points above it. *)
Definition wrap_char (c : ascii) : ascii :=
  if Py.ord c <? 36 then Py.chr (Py.ord c + 91) else c.

(** The node reached from [n] along [path], and its payload. *)
Fixpoint subnode (n : node) (path : list bool) : node :=
  match path, n with
  | [], _ => n
  | _ :: _, NoNode => NoNode
  | b :: rest, Node _ c0 c1 => subnode (if b then c1 else c0) rest
  end.

Definition payload_at (n : node) (path : list bool) : option ascii :=
  match subnode n path with
  | Node p _ _ => p
  | NoNode => None
  end.

(** The sum of a table of counts. *)
Definition total (zs : list Z) : Z := fold_right Z.add 0 zs.

(** The values of a byte. *)
Definition is_byte (b : Z) : Prop := 0 <= b < 256.

(** A computation halts when it returns or raises: its loops do not use up
    their fuel. *)
Definition halts {A : Type} (r : result A) : Prop := r <> Timeout.

(** * Proofs *)
(** ** Binary digits *)

Section Digits.

Lemma int2_digits_snoc (s : list bool) (b : bool) :
  Py.int2_digits (s ++ [b]) = 2 * Py.int2_digits s + (if b then 1 else 0).
Proof. unfold Py.int2_digits. rewrite fold_left_app. reflexivity. Qed.

Lemma int2_digits_bound (s : list bool) :
  0 <= Py.int2_digits s < 2 ^ Py.len s.
Proof.
  induction s as [|b s IH] using rev_ind.
  - cbn. lia.
  - rewrite int2_digits_snoc. unfold Py.len in *. rewrite length_app. cbn [length].
    rewrite Nat2Z.inj_add, Z.pow_add_r by lia. change (2 ^ Z.of_nat 1) with 2.
    destruct b; lia.
Qed.

Lemma int2_digits_app (s t : list bool) :
  Py.int2_digits (s ++ t) = Py.int2_digits s * 2 ^ Py.len t + Py.int2_digits t.
Proof.
  induction t as [|b t IH] using rev_ind.
  - rewrite app_nil_r. cbn. lia.
  - rewrite app_assoc, !int2_digits_snoc, IH. unfold Py.len. rewrite length_app.
    cbn [length]. rewrite Nat2Z.inj_add, Z.pow_add_r by lia.
    change (2 ^ Z.of_nat 1) with 2. lia.
Qed.

Lemma int2_digits_cons_true (t : list bool) :
  Py.int2_digits (true :: t) = 2 ^ Py.len t + Py.int2_digits t.
Proof.
  change (true :: t) with ([true] ++ t). rewrite int2_digits_app.
  change (Py.int2_digits [true]) with 1. lia.
Qed.

Lemma int2_digits_repeat_false (n : nat) : Py.int2_digits (repeat false n) = 0.
Proof.
  induction n as [|n IH]; [reflexivity|].
  change (repeat false (S n)) with ([false] ++ repeat false n).
  rewrite int2_digits_app, IH. reflexivity.
Qed.

Lemma int2_digits_bin_pos (p : positive) : Py.int2_digits (Py.bin_pos p) = Z.pos p.
Proof.
  induction p as [p IH|p IH|]; cbn [Py.bin_pos];
    rewrite ?int2_digits_snoc, ?IH; reflexivity.
Qed.

Lemma bin_pos_head (p : positive) : exists t, Py.bin_pos p = true :: t.
Proof.
  induction p as [p [t IH]|p [t IH]|]; cbn [Py.bin_pos].
  - rewrite IH. eexists. reflexivity.
  - rewrite IH. eexists. reflexivity.
  - eexists. reflexivity.
Qed.

Lemma bit_length_pos (p : positive) : Py.bit_length (Z.pos p) = Z.pos (Pos.size p).
Proof.
  unfold Py.bit_length. cbn [Z.eqb Z.abs].
  destruct p; cbn [Z.log2 Pos.size]; lia.
Qed.

Lemma len_bin_pos (p : positive) : Py.len (Py.bin_pos p) = Py.bit_length (Z.pos p).
Proof.
  rewrite bit_length_pos. unfold Py.len.
  induction p as [p IH|p IH|]; cbn [Py.bin_pos Pos.size];
    rewrite ?length_app; cbn [length]; lia.
Qed.

(** Every digit string is some zeros followed by "" (value 0) or by the
    digits [bin] gives for its value. *)
Lemma digits_normal_form (t : list bool) :
  exists k u, t = repeat false k ++ u /\
    ((u = [] /\ Py.int2_digits t = 0) \/
     (exists p, u = Py.bin_pos p /\ Py.int2_digits t = Z.pos p)).
Proof.
  induction t as [|b t IH] using rev_ind.
  - exists 0%nat, []. split; [reflexivity|]. left. split; reflexivity.
  - destruct IH as (k & u & Ht & [[Hu Hv]|(p & Hu & Hv)]).
    + subst u. rewrite app_nil_r in Ht. destruct b.
      * exists k, [true]. split; [now rewrite Ht|]. right. exists 1%positive.
        split; [reflexivity|]. rewrite int2_digits_snoc, Hv. reflexivity.
      * exists (S k), []. split.
        -- rewrite Ht, app_nil_r. change [false] with (repeat false 1).
           rewrite <- repeat_app. f_equal. lia.
        -- left. split; [reflexivity|]. rewrite int2_digits_snoc, Hv. reflexivity.
    + exists k, (u ++ [b]). split; [now rewrite Ht, app_assoc|]. right.
      exists (if b then p~1 else p~0)%positive. rewrite int2_digits_snoc, Hv.
      subst u. destruct b; split; reflexivity.
Qed.

(** [bin(v).zfill(w)] gives back any [w]-digit string of value [v]. *)
Lemma zfill_bin_digits (t : list bool) :
  t <> [] -> Py.zfill (Py.bin (Py.int2_digits t)) (Py.len t) = t.
Proof.
  intros Hne. destruct (digits_normal_form t) as (k & u & Ht & [[Hu Hv]|(p & Hu & Hv)]).
  - rewrite Hv. subst u. rewrite app_nil_r in Ht. subst t. cbn [Py.bin].
    unfold Py.zfill, Py.len. rewrite repeat_length. cbn [length].
    destruct k as [|k]; [contradiction|].
    replace (Z.to_nat (Z.of_nat (S k) - Z.of_nat 1)) with k by lia.
    change [false] with (repeat false 1). rewrite <- repeat_app. f_equal. lia.
  - rewrite Hv. cbn [Py.bin]. unfold Py.zfill, Py.len. rewrite Ht at 1.
    rewrite length_app, repeat_length. subst u.
    replace (Z.to_nat _) with k by lia. now rewrite Ht.
Qed.

End Digits.

(** ** The Elias code *)

Section Elias.

Lemma bit_length_nonneg (v : Z) : 0 <= Py.bit_length v.
Proof.
  unfold Py.bit_length. destruct (v =? 0); [lia|].
  pose proof (Z.log2_nonneg (Z.abs v)). lia.
Qed.

Lemma bit_length_le (v : Z) : 0 <= v -> Py.bit_length v <= v.
Proof.
  intros Hv. unfold Py.bit_length. destruct (Z.eqb_spec v 0) as [->|Hne]; [lia|].
  rewrite Z.abs_eq by lia. pose proof (Z.log2_lt_lin v). lia.
Qed.

Lemma bit_length_ge_2 (v : Z) : 1 < v -> 2 <= Py.bit_length v.
Proof.
  intros Hv. unfold Py.bit_length. destruct (Z.eqb_spec v 0) as [->|Hne]; [lia|].
  rewrite Z.abs_eq by lia. pose proof (Z.log2_pos v). lia.
Qed.

Lemma bin_of_pos (v : Z) :
  1 <= v -> exists t, Py.bin v = true :: t /\ Py.len t = Py.bit_length v - 1
                      /\ Py.int2_digits (true :: t) = v.
Proof.
  intros Hv. destruct v as [|p|p]; try lia. cbn [Py.bin].
  destruct (bin_pos_head p) as [t Ht]. exists t. split; [assumption|].
  pose proof (len_bin_pos p) as Hl. pose proof (int2_digits_bin_pos p) as Hd.
  rewrite Ht in Hl, Hd. unfold Py.len in *. cbn [length] in Hl.
  split; [lia|assumption].
Qed.

(** Clearing the leading one of [v] leaves the value of the other digits. *)
Lemma clear_top_bit (v : Z) (t : list bool) :
  1 <= v -> Py.bin v = true :: t ->
  Z.land (Z.lnot (Z.shiftl 1 (Py.bit_length v - 1))) v = Py.int2_digits t.
Proof.
  intros Hv Ht. destruct (bin_of_pos v Hv) as (t' & Ht' & Hlen & Hval).
  rewrite Ht in Ht'. injection Ht' as <-.
  rewrite <- Hlen.
  pose proof (int2_digits_bound t) as Hb.
  rewrite int2_digits_cons_true in Hval.
  set (n := Py.len t) in *. set (r := Py.int2_digits t) in *.
  assert (Hn : 0 <= n) by (unfold n, Py.len; lia).
  assert (Hr : r = v mod 2 ^ n).
  { rewrite <- Hval. replace (2 ^ n + r) with (r + 1 * 2 ^ n) by lia.
    rewrite Z.mod_add by lia. symmetry. apply Z.mod_small. lia. }
  rewrite Hr. apply Z.bits_inj'. intros k Hk.
  rewrite Z.land_spec, Z.lnot_spec, Z.shiftl_1_l, Z.pow2_bits_eqb by lia.
  rewrite Z.testbit_mod_pow2 by lia.
  destruct (Z.eqb_spec n k) as [->|Hne].
  - rewrite Z.ltb_irrefl. reflexivity.
  - destruct (Z.ltb_spec k n) as [Hlt|Hge]; [reflexivity|].
    cbn [negb andb]. apply Z.bits_above_log2; [lia|].
    apply Z.log2_lt_pow2; [lia|].
    apply Z.lt_le_trans with (2 ^ (n + 1)).
    + rewrite Z.pow_add_r by lia. lia.
    + apply Z.pow_le_mono_r; lia.
Qed.

(** The component the encoder emits for [v]: a zero, then the digits of
    [v] after its leading one. *)
Lemma elias_component (v : Z) (t : list bool) :
  1 <= v -> Py.bin v = true :: t ->
  let length := Py.bit_length v in
  let mask := Z.lnot (Z.shiftl 1 (length - 1)) in
  Py.zfill (Py.bin (Z.land mask v)) length = false :: t.
Proof.
  intros Hv Ht. cbv zeta. rewrite (clear_top_bit v t Hv Ht).
  destruct (bin_of_pos v Hv) as (t' & Ht' & Hlen & _).
  rewrite Ht in Ht'. injection Ht' as <-.
  replace (Py.bit_length v) with (Py.len (false :: t))
    by (unfold Py.len in *; cbn [length]; lia).
  change (Py.int2_digits t) with (Py.int2_digits (false :: t)).
  apply zfill_bin_digits. discriminate.
Qed.

(** *** The encoder loop terminates within its fuel *)

Lemma encoding_loop_total (fuel : nat) :
  forall value length bit_array,
    (1 < value -> 1 <= length <= Z.of_nat fuel) ->
    exists r, EliasEncoding.loop fuel value length bit_array = Ok r.
Proof.
  induction fuel as [|fuel IH]; intros value length bit_array H; cbn [EliasEncoding.loop].
  - destruct (Z.ltb_spec 1 value); [lia|]. eexists; reflexivity.
  - destruct (Z.ltb_spec 1 value) as [Hv|Hv]; [|eexists; reflexivity].
    apply IH. intros Hv'. pose proof (bit_length_le (length - 1)).
    pose proof (bit_length_ge_2 (length - 1) Hv'). lia.
Qed.

(** *** The decoder loop: fuel and steps *)

Lemma decoding_loop_fuel (f1 : nat) :
  forall f2 bits i e v d,
    0 <= i -> 1 <= v ->
    Py.len bits - i <= Z.of_nat f1 -> Py.len bits - i <= Z.of_nat f2 ->
    EliasDecoding.loop f1 bits i e v d = EliasDecoding.loop f2 bits i e v d.
Proof.
  induction f1 as [|f1 IH]; intros f2 bits i e v d Hi Hv H1 H2.
  - cbn [EliasDecoding.loop]. destruct (Z.ltb_spec i (Py.len bits)); [lia|].
    destruct f2; cbn [EliasDecoding.loop];
      destruct (Z.ltb_spec i (Py.len bits)); try lia; reflexivity.
  - destruct f2 as [|f2]; cbn [EliasDecoding.loop];
      destruct (Z.ltb_spec i (Py.len bits)) as [Hlt|Hge]; try lia; try reflexivity.
    destruct (nth_error bits (Z.to_nat i)) as [[|]|]; try reflexivity.
    pose proof (int2_digits_bound (true :: Py.slice bits (i + 1) e)).
    apply IH; lia.
Qed.

Lemma decoding_loop_S (f : nat) (bits : list bool) (i e v d : Z) :
  i < Py.len bits ->
  EliasDecoding.loop (S f) bits i e v d =
  match nth_error bits (Z.to_nat i) with
  | Some false =>
      let w := Py.int2_digits (true :: Py.slice bits (i + 1) e) + 1 in
      EliasDecoding.loop f bits (i + v) (w + (i + v)) w d
  | Some true => Ok (Py.int2_digits (true :: Py.slice bits (i + 1) e), e)
  | None => Raise
  end.
Proof.
  intros Hlt. cbn [EliasDecoding.loop].
  destruct (Z.ltb_spec i (Py.len bits)); [reflexivity|lia].
Qed.

Lemma nth_error_lt_len {A : Type} (l : list A) (i : Z) (x : A) :
  0 <= i -> nth_error l (Z.to_nat i) = Some x -> i < Py.len l.
Proof.
  intros Hi H. assert (Z.to_nat i < length l)%nat
    by (apply nth_error_Some; rewrite H; discriminate).
  unfold Py.len. lia.
Qed.

Lemma elias_run_zero (bits : list bool) (i e v d : Z) :
  0 <= i -> 1 <= v -> nth_error bits (Z.to_nat i) = Some false ->
  let w := Py.int2_digits (true :: Py.slice bits (i + 1) e) + 1 in
  elias_run bits i e v d = elias_run bits (i + v) (w + (i + v)) w d.
Proof.
  intros Hi Hv Hbit w. unfold elias_run.
  pose proof (nth_error_lt_len _ _ _ Hi Hbit) as Hlt.
  rewrite (decoding_loop_fuel _ (S (length bits))) by (unfold Py.len in *; lia).
  rewrite decoding_loop_S by assumption. rewrite Hbit. reflexivity.
Qed.

Lemma elias_run_one (bits : list bool) (i e v d : Z) :
  0 <= i -> 1 <= v -> nth_error bits (Z.to_nat i) = Some true ->
  elias_run bits i e v d =
  Ok (Py.int2_digits (true :: Py.slice bits (i + 1) e), e).
Proof.
  intros Hi Hv Hbit. unfold elias_run.
  pose proof (nth_error_lt_len _ _ _ Hi Hbit) as Hlt.
  rewrite (decoding_loop_fuel _ (S (length bits))) by (unfold Py.len in *; lia).
  rewrite decoding_loop_S by assumption. rewrite Hbit. reflexivity.
Qed.

Lemma elias_run_end (bits : list bool) (i e v d : Z) :
  Py.len bits <= i -> elias_run bits i e v d = Ok (d, e).
Proof.
  intros Hi. unfold elias_run. destruct (length bits); cbn [EliasDecoding.loop];
    destruct (Z.ltb_spec i (Py.len bits)); try lia; reflexivity.
Qed.

End Elias.

Section EliasRoundTrip.

Lemma len_app {A : Type} (s t : list A) : Py.len (s ++ t) = Py.len s + Py.len t.
Proof. unfold Py.len. rewrite length_app. lia. Qed.

Lemma len_nonneg {A : Type} (s : list A) : 0 <= Py.len s.
Proof. unfold Py.len. lia. Qed.

Lemma slice_middle {A : Type} (pre mid rest : list A) (a b : Z) :
  a = Py.len pre -> b = Py.len pre + Py.len mid ->
  Py.slice (pre ++ mid ++ rest) a b = mid.
Proof.
  intros -> ->. unfold Py.slice, Py.len.
  rewrite Nat2Z.id, skipn_app, skipn_all, Nat.sub_diag. cbn [skipn app].
  replace (Z.to_nat _) with (length mid) by lia.
  rewrite firstn_app, firstn_all, Nat.sub_diag. cbn [firstn]. apply app_nil_r.
Qed.

Lemma slice_after_head {A : Type} (pre mid rest : list A) (x : A) (a b : Z) :
  a = Py.len pre + 1 -> b = Py.len pre + 1 + Py.len mid ->
  Py.slice (pre ++ x :: mid ++ rest) a b = mid.
Proof.
  intros -> ->. change (x :: mid ++ rest) with ([x] ++ mid ++ rest).
  rewrite app_assoc. apply slice_middle; rewrite len_app; reflexivity.
Qed.

Lemma nth_error_middle {A : Type} (pre rest : list A) (x : A) (i : Z) :
  i = Py.len pre -> nth_error (pre ++ x :: rest) (Z.to_nat i) = Some x.
Proof.
  intros ->. unfold Py.len. rewrite Nat2Z.id, nth_error_app2, Nat.sub_diag by lia.
  reflexivity.
Qed.

(** What the encoder loop appends, read back by the decoder: after the
    components the decoder stands at the start of what follows them, and
    expects a component as long as [value] is. *)
Lemma encoding_loop_decoded (fuel : nat) :
  forall value bit_array r,
    1 <= value ->
    EliasEncoding.loop fuel value (Py.bit_length value) bit_array = Ok r ->
    exists comps,
      r = bit_array ++ comps /\
      forall pre rest d,
        let bits := pre ++ concat (rev comps) ++ rest in
        let i := Py.len pre + Py.len (concat (rev comps)) in
        elias_run bits (Py.len pre) (Py.len pre + 1) 1 d =
        elias_run bits i (Py.bit_length value + i) (Py.bit_length value) d.
Proof.
  induction fuel as [|fuel IH]; intros value bit_array r Hv Hloop;
    cbn [EliasEncoding.loop] in Hloop;
    destruct (Z.ltb_spec 1 value) as [Hgt|Hle].
  - discriminate.
  - injection Hloop as <-. exists []. split; [now rewrite app_nil_r|].
    intros pre rest d. cbn [rev concat Py.len length]. cbv zeta.
    replace value with 1 by lia. change (Py.bit_length 1) with 1.
    f_equal; unfold Py.len; cbn [length]; lia.
  - pose proof (bit_length_ge_2 value Hgt) as HL.
    set (x := Py.bit_length value - 1) in *.
    assert (Hx : 1 <= x) by lia.
    destruct (bin_of_pos x Hx) as (t & Hbin & Hlen & Hval).
    rewrite (elias_component x t Hx Hbin) in Hloop.
    destruct (IH x _ _ Hx Hloop) as (comps & -> & Hdec).
    exists ((false :: t) :: comps). split; [now rewrite <- app_assoc|].
    intros pre rest d. cbn [rev]. rewrite concat_app. cbn [concat].
    rewrite app_nil_r, <- !app_assoc. cbv zeta.
    specialize (Hdec pre ((false :: t) ++ rest) d). cbv zeta in Hdec.
    rewrite Hdec. clear Hdec.
    set (bits := pre ++ concat (rev comps) ++ (false :: t) ++ rest).
    set (i := Py.len pre + Py.len (concat (rev comps))).
    assert (Hi : 0 <= i) by (unfold i, Py.len; lia).
    pose proof (len_nonneg t) as Ht0.
    rewrite elias_run_zero; [| lia | lia | ].
    + assert (Hs : Py.slice bits (i + 1) (Py.bit_length x + i) = t).
      { unfold bits. rewrite app_assoc. cbn [app].
        apply slice_after_head; rewrite len_app; unfold i; lia. }
      rewrite Hs, Hval. rewrite !len_app.
      replace (Py.len (false :: t)) with (Py.bit_length x)
        by (unfold Py.len in *; cbn [length]; lia).
      replace (x + 1) with (Py.bit_length value) by (unfold x; lia).
      f_equal; unfold i; lia.
    + unfold bits. rewrite app_assoc. apply nth_error_middle.
      rewrite len_app. reflexivity.
  - injection Hloop as <-. exists []. split; [now rewrite app_nil_r|].
    intros pre rest d. cbn [rev concat Py.len length]. cbv zeta.
    replace value with 1 by lia. change (Py.bit_length 1) with 1.
    f_equal; unfold Py.len; cbn [length]; lia.
Qed.

(** The Elias code of [value], and the decoder on any bit string that
    holds it at [start_index]. *)
Lemma elias_round_trip (value : Z) :
  1 <= value ->
  exists code,
    EliasEncoding.elias_encoding value = Ok code /\
    code <> [] /\
    forall pre rest,
      EliasDecoding.decode (pre ++ code ++ rest) (Py.len pre)
      = Ok (value, Py.len pre + Py.len code).
Proof.
  intros Hv. unfold EliasEncoding.elias_encoding.
  destruct (encoding_loop_total (Z.to_nat (Py.bit_length value)) value
              (Py.bit_length value) [Py.bin value]) as [r Hr].
  { intros Hgt. pose proof (bit_length_ge_2 value Hgt). lia. }
  rewrite Hr. cbn [bind].
  destruct (encoding_loop_decoded _ _ _ _ Hv Hr) as (comps & -> & Hdec).
  destruct (bin_of_pos value Hv) as (t & Hbin & Hlen & Hval).
  exists (EliasEncoding.join_backwards ([Py.bin value] ++ comps)).
  split; [reflexivity|].
  unfold EliasEncoding.join_backwards. rewrite rev_app_distr, concat_app.
  cbn [rev app concat]. rewrite app_nil_r, Hbin. split.
  { destruct (concat (rev comps)); discriminate. }
  intros pre rest. unfold EliasDecoding.decode. fold (elias_run (pre ++ (concat (rev comps) ++ true :: t) ++ rest) (Py.len pre) (Py.len pre + 1) 1 0).
  rewrite <- app_assoc. rewrite Hdec.
  set (i := Py.len pre + Py.len (concat (rev comps))).
  assert (Hi : 0 <= i) by (unfold i, Py.len; lia).
  rewrite elias_run_one; [| lia | pose proof (len_nonneg t); lia | ].
  - assert (Hs : Py.slice (pre ++ concat (rev comps) ++ true :: t ++ rest)
                          (i + 1) (Py.bit_length value + i) = t).
    { rewrite app_assoc.
      apply slice_after_head; rewrite len_app; unfold i; lia. }
    cbn [app]. rewrite Hs, Hval. f_equal. f_equal.
    rewrite len_app. unfold i, Py.len in *. cbn [length]. lia.
  - rewrite app_assoc. apply nth_error_middle. rewrite len_app. reflexivity.
Qed.

End EliasRoundTrip.

(** ** Concrete Elias codes *)

(** C2 (as the program computes them): the Elias encoder maps 1 to "1", 2 to
    "010", 5 to "000101" and 8 to "0011000", and the decoder, started at
    index 0 on each of these four bit strings, returns the integer and the
    length of the string. *)
Theorem elias_vectors :
  EliasEncoding.elias_encoding 1 = Ok (bits_of_string "1") /\
  EliasEncoding.elias_encoding 2 = Ok (bits_of_string "010") /\
  EliasEncoding.elias_encoding 5 = Ok (bits_of_string "000101") /\
  EliasEncoding.elias_encoding 8 = Ok (bits_of_string "0011000") /\
  EliasDecoding.decode (bits_of_string "1") 0 = Ok (1, 1) /\
  EliasDecoding.decode (bits_of_string "010") 0 = Ok (2, 3) /\
  EliasDecoding.decode (bits_of_string "000101") 0 = Ok (5, 6) /\
  EliasDecoding.decode (bits_of_string "0011000") 0 = Ok (8, 7).
Proof. repeat split; reflexivity. Qed.

(** The bit strings "00101" and "0001000" are neither what the encoder
    gives for 5 and 8 nor decoded to 5 and 8: the decoder reads 0 from the
    first (no component starting with a one is found) and 4 from the
    second. *)
Lemma elias_vectors_gamma_refuted :
  ~ (EliasEncoding.elias_encoding 1 = Ok (bits_of_string "1") /\
     EliasEncoding.elias_encoding 2 = Ok (bits_of_string "010") /\
     EliasEncoding.elias_encoding 5 = Ok (bits_of_string "00101") /\
     EliasEncoding.elias_encoding 8 = Ok (bits_of_string "0001000") /\
     (exists e, EliasDecoding.decode (bits_of_string "1") 0 = Ok (1, e)) /\
     (exists e, EliasDecoding.decode (bits_of_string "010") 0 = Ok (2, e)) /\
     (exists e, EliasDecoding.decode (bits_of_string "00101") 0 = Ok (5, e)) /\
     (exists e, EliasDecoding.decode (bits_of_string "0001000") 0 = Ok (8, e))).
Proof. intros (_ & _ & H & _). vm_compute in H. discriminate. Qed.

Example elias_decode_gamma_5 :
  EliasDecoding.decode (bits_of_string "00101") 0 = Ok (0, 11).
Proof. reflexivity. Qed.

Example elias_decode_gamma_8 :
  EliasDecoding.decode (bits_of_string "0001000") 0 = Ok (4, 6).
Proof. reflexivity. Qed.

(** ** The Elias code is read back *)

(** C5: for every integer [v >= 1] the decoder, started at index 0 on the
    Elias code of [v], returns [v] and the length of the code; and on every
    bit string that begins with that code and goes on with any bits, it
    returns [v] and the index at which those bits start. *)
Theorem elias_bijection (v : Z) :
  1 <= v ->
  exists code,
    EliasEncoding.elias_encoding v = Ok code /\
    EliasDecoding.decode code 0 = Ok (v, Py.len code) /\
    forall suffix, EliasDecoding.decode (code ++ suffix) 0 = Ok (v, Py.len code).
Proof.
  intros Hv. destruct (elias_round_trip v Hv) as (code & Henc & _ & Hdec).
  exists code. split; [assumption|]. split.
  - specialize (Hdec [] []). cbn [app] in Hdec. rewrite app_nil_r in Hdec. exact Hdec.
  - intros suffix. exact (Hdec [] suffix).
Qed.

Lemma elias_bijection_witness :
  exists code,
    EliasEncoding.elias_encoding 2000 = Ok code /\
    EliasDecoding.decode code 0 = Ok (2000, Py.len code) /\
    forall suffix, EliasDecoding.decode (code ++ suffix) 0 = Ok (2000, Py.len code).
Proof. apply (elias_bijection 2000). lia. Defined.

(** ** The Elias decoder where no one is left *)

Section EliasZeros.

Lemma decoding_loop_zeros (fuel : nat) :
  forall bits i e v d,
    0 <= i -> 1 <= v -> i < e -> Py.len bits - i <= Z.of_nat fuel ->
    no_one_from bits i ->
    exists e', EliasDecoding.loop fuel bits i e v d = Ok (d, e') /\ Py.len bits < e'.
Proof.
  induction fuel as [|fuel IH]; intros bits i e v d Hi Hv He Hf Hz;
    cbn [EliasDecoding.loop]; destruct (Z.ltb_spec i (Py.len bits)) as [Hlt|Hge];
    try lia; try (exists e; split; [reflexivity|lia]).
  destruct (nth_error bits (Z.to_nat i)) as [[|]|] eqn:Hbit.
  - exfalso. exact (Hz i (Z.le_refl i) Hbit).
  - pose proof (int2_digits_bound (true :: Py.slice bits (i + 1) e)).
    apply IH; try lia. intros k Hk. apply Hz. lia.
  - exfalso. apply nth_error_None in Hbit. unfold Py.len in Hlt. lia.
Qed.

(** The decoder never raises and never runs out of fuel. *)
Lemma decoding_loop_total (fuel : nat) :
  forall bits i e v d,
    0 <= i -> 1 <= v -> Py.len bits - i <= Z.of_nat fuel ->
    exists r, EliasDecoding.loop fuel bits i e v d = Ok r.
Proof.
  induction fuel as [|fuel IH]; intros bits i e v d Hi Hv Hf;
    cbn [EliasDecoding.loop]; destruct (Z.ltb_spec i (Py.len bits)) as [Hlt|Hge];
    try lia; try (eexists; reflexivity).
  destruct (nth_error bits (Z.to_nat i)) as [[|]|] eqn:Hbit.
  - eexists; reflexivity.
  - pose proof (int2_digits_bound (true :: Py.slice bits (i + 1) e)).
    apply IH; lia.
  - exfalso. apply nth_error_None in Hbit. unfold Py.len in Hlt. lia.
Qed.

Lemma elias_decode_total (bits : list bool) (start_index : Z) :
  0 <= start_index -> exists r, EliasDecoding.decode bits start_index = Ok r.
Proof.
  intros H. unfold EliasDecoding.decode. apply decoding_loop_total; unfold Py.len; lia.
Qed.

Lemma elias_decode_zeros (bits : list bool) (start_index : Z) :
  0 <= start_index -> no_one_from bits start_index ->
  exists e, EliasDecoding.decode bits start_index = Ok (0, e) /\ Py.len bits < e.
Proof.
  intros H Hz. unfold EliasDecoding.decode.
  apply decoding_loop_zeros; unfold Py.len; try lia. assumption.
Qed.

End EliasZeros.

(** ** Python list indexing *)

Section Indexing.
Context {A : Type}.

Lemma get_ok (l : list A) (i : Z) (x : A) :
  0 <= i -> nth_error l (Z.to_nat i) = Some x -> Py.get l i = Ok x.
Proof.
  intros Hi H. pose proof (nth_error_lt_len _ _ _ Hi H) as Hlt. unfold Py.get.
  destruct (Z.ltb_spec i 0); [lia|]. destruct (Z.ltb_spec i 0); [lia|].
  destruct (Z.leb_spec (Py.len l) i); [lia|]. cbn [orb]. now rewrite H.
Qed.

Lemma get_inv (l : list A) (i : Z) (x : A) :
  0 <= i -> Py.get l i = Ok x -> nth_error l (Z.to_nat i) = Some x.
Proof.
  intros Hi. unfold Py.get. destruct (Z.ltb_spec i 0); [lia|].
  destruct (_ || _); [discriminate|].
  destruct (nth_error l (Z.to_nat i)); [|discriminate]. now intros [= ->].
Qed.

Lemma get_last (l : list A) (x : A) : Py.get (l ++ [x]) (-1) = Ok x.
Proof.
  unfold Py.get. change (-1 <? 0) with true. cbv iota.
  rewrite len_app. change (Py.len [x]) with 1.
  pose proof (len_nonneg l).
  destruct (Z.ltb_spec (-1 + (Py.len l + 1)) 0); [lia|].
  destruct (Z.leb_spec (Py.len l + 1) (-1 + (Py.len l + 1))); [lia|]. cbn [orb].
  replace (Z.to_nat _) with (length l) by (unfold Py.len; lia).
  rewrite nth_error_app2, Nat.sub_diag by lia. reflexivity.
Qed.

Lemma get_last_cons (l : list A) (x : A) :
  l <> [] -> Py.get (x :: l) (-1) = Py.get l (-1).
Proof.
  intros Hne. destruct (exists_last Hne) as (l' & y & ->).
  rewrite get_last. change (x :: l' ++ [y]) with ((x :: l') ++ [y]).
  now rewrite get_last.
Qed.

Lemma set_ok (l : list A) (i : Z) (x : A) :
  0 <= i < Py.len l -> Py.set l i x = Ok (Py.update l (Z.to_nat i) x).
Proof.
  intros Hi. unfold Py.set. destruct (Z.ltb_spec i 0); [lia|].
  destruct (Z.ltb_spec i 0); [lia|]. destruct (Z.leb_spec (Py.len l) i); [lia|].
  reflexivity.
Qed.

Lemma length_update (l : list A) (n : nat) (x : A) :
  length (Py.update l n x) = length l.
Proof.
  revert n. induction l as [|h t IH]; intros [|n]; cbn [Py.update length]; auto.
Qed.

Lemma len_update (l : list A) (n : nat) (x : A) :
  Py.len (Py.update l n x) = Py.len l.
Proof. unfold Py.len. now rewrite length_update. Qed.

Lemma nth_error_update_eq (l : list A) (n : nat) (x : A) :
  (n < length l)%nat -> nth_error (Py.update l n x) n = Some x.
Proof.
  revert n. induction l as [|h t IH]; intros [|n] H; cbn [length] in H;
    cbn [Py.update nth_error]; try lia; [reflexivity|]. apply IH. lia.
Qed.

Lemma nth_error_update_neq (l : list A) (n m : nat) (x : A) :
  n <> m -> nth_error (Py.update l n x) m = nth_error l m.
Proof.
  revert n m. induction l as [|h t IH]; intros [|n] [|m] H;
    cbn [Py.update nth_error]; try reflexivity; try lia. apply IH. lia.
Qed.

End Indexing.

(** ** Runs *)

Section Runs.

Lemma runs_from_cons2 (c d : ascii) (rest : list ascii) (counter : Z) :
  Compress.runs_from (c :: d :: rest) counter =
  if Py.char_eqb c d then Compress.runs_from (d :: rest) (counter + 1)
  else (c, counter) :: Compress.runs_from (d :: rest) 1.
Proof. reflexivity. Qed.

Lemma message_loop_cons2 (character : list cell) (c d : ascii)
      (rest : list ascii) (counter : Z) (to_write : list bool) :
  Compress.message_loop character (c :: d :: rest) counter to_write =
  if Py.char_eqb c d then
    Compress.message_loop character (d :: rest) (counter + 1) to_write
  else
    to_write <- Compress.emit character c counter to_write ;;
    Compress.message_loop character (d :: rest) 1 to_write.
Proof. reflexivity. Qed.

Lemma message_loop_runs (character : list cell) :
  forall bwt_string counter to_write,
    bwt_string <> [] ->
    ('(counter, to_write) <-
       Compress.message_loop character bwt_string counter to_write ;;
     last <- Py.get bwt_string (-1) ;;
     Compress.emit character last counter to_write)
    = emit_all character (Compress.runs_from bwt_string counter) to_write.
Proof.
  induction bwt_string as [|c rest IH]; intros counter to_write Hne;
    [contradiction|].
  destruct rest as [|d rest'].
  - cbn [Compress.message_loop Compress.runs_from emit_all bind].
    change [c] with ([] ++ [c]). rewrite get_last. cbn [bind].
    destruct (Compress.emit character c counter to_write); reflexivity.
  - rewrite message_loop_cons2, runs_from_cons2.
    destruct (Py.char_eqb c d).
    + rewrite <- IH by discriminate.
      destruct (Compress.message_loop character (d :: rest') (counter + 1) to_write)
        as [[k w]| |]; cbn [bind]; [|reflexivity|reflexivity].
      now rewrite get_last_cons by discriminate.
    + cbn [emit_all].
      destruct (Compress.emit character c counter to_write) as [w| |];
        cbn [bind]; [|reflexivity|reflexivity].
      rewrite <- IH by discriminate.
      destruct (Compress.message_loop character (d :: rest') 1 w)
        as [[k w']| |]; cbn [bind]; [|reflexivity|reflexivity].
      now rewrite get_last_cons by discriminate.
Qed.

(** [message()] writes the runs of the BWT string. *)
Lemma message_emits_runs (character : list cell) (text : list ascii)
      (to_write : list bool) (bwt_string : list ascii) :
  BWT_Encoding.bwt text = Ok bwt_string -> bwt_string <> [] ->
  Compress.message character text to_write
  = emit_all character (Compress.runs bwt_string) to_write.
Proof.
  intros Hbwt Hne. unfold Compress.message. rewrite Hbwt. cbn [bind].
  apply message_loop_runs. assumption.
Qed.

(** The runs spell the string out; each counter is positive. *)
Lemma runs_from_expand :
  forall bwt_string counter c,
    1 <= counter ->
    concat (map (fun r => repeat (fst r) (Z.to_nat (snd r)))
                (Compress.runs_from (c :: bwt_string) counter))
    = repeat c (Z.to_nat (counter - 1)) ++ c :: bwt_string.
Proof.
  induction bwt_string as [|d rest IH]; intros counter c Hc.
  - cbn [Compress.runs_from map concat fst snd]. rewrite app_nil_r.
    replace (Z.to_nat counter) with (S (Z.to_nat (counter - 1))) by lia.
    cbn [repeat]. now rewrite repeat_cons.
  - rewrite runs_from_cons2. destruct (Py.char_eqb c d) eqn:Heq.
    + rewrite IH by lia. unfold Py.char_eqb, Py.ord in Heq.
      apply Z.eqb_eq in Heq. apply N2Z.inj in Heq.
      assert (c = d) as <-.
      { rewrite <- (ascii_N_embedding c), <- (ascii_N_embedding d). now f_equal. }
      replace (Z.to_nat (counter + 1 - 1)) with (S (Z.to_nat (counter - 1))) by lia.
      cbn [repeat]. rewrite repeat_cons, <- app_assoc. reflexivity.
    + cbn [map concat fst snd]. rewrite IH by lia. cbn [Z.to_nat repeat app Z.sub].
      replace (Z.to_nat counter) with (S (Z.to_nat (counter - 1))) by lia.
      cbn [repeat]. rewrite repeat_cons, <- app_assoc. reflexivity.
Qed.

Lemma runs_from_positive :
  forall bwt_string counter,
    1 <= counter ->
    Forall (fun r => 1 <= snd r) (Compress.runs_from bwt_string counter).
Proof.
  induction bwt_string as [|c rest IH]; intros counter Hc; [constructor|].
  destruct rest as [|d rest'].
  - cbn [Compress.runs_from]. repeat constructor. assumption.
  - rewrite runs_from_cons2. destruct (Py.char_eqb c d).
    + apply IH. lia.
    + constructor; [assumption|]. apply IH. lia.
Qed.

End Runs.

(** ** The text "aaaa" *)

(** C3 (as the program computes it): for the input text "aaaa" the forward
    BWT of "aaaa$" is the string "aaaa$" (four 'a's, then '$'), and the runs
    the compressor writes for it are (a,4)($,1). *)
Theorem bwt_aaaa :
  BWT_Encoding.bwt (text_of "aaaa$") = Ok (text_of "aaaa$") /\
  Compress.runs (text_of "aaaa$") = [("a"%char, 4); ("$"%char, 1)] /\
  forall character to_write,
    Compress.message character (text_of "aaaa$") to_write
    = emit_all character [("a"%char, 4); ("$"%char, 1)] to_write.
Proof.
  assert (H : BWT_Encoding.bwt (text_of "aaaa$") = Ok (text_of "aaaa$"))
    by reflexivity.
  split; [exact H|]. split; [reflexivity|].
  intros character to_write.
  rewrite (message_emits_runs _ _ _ _ H) by discriminate. reflexivity.
Qed.

(** The six-character string "a$aaaa" is not the BWT of the five-character
    "aaaa$", and (a,1)($,1)(a,4) are not its runs. *)
Lemma bwt_aaaa_refuted :
  ~ (BWT_Encoding.bwt (text_of "aaaa$") = Ok (text_of "a$aaaa") /\
     exists bwt_string,
       BWT_Encoding.bwt (text_of "aaaa$") = Ok bwt_string /\
       Compress.runs bwt_string = [("a"%char, 1); ("$"%char, 1); ("a"%char, 4)]).
Proof. intros [H _]. vm_compute in H. discriminate. Qed.

(** ** Characters and table indices *)

Section Chars.

Lemma ord_inj (a b : ascii) : Py.ord a = Py.ord b -> a = b.
Proof.
  unfold Py.ord. intros H. apply N2Z.inj in H.
  rewrite <- (ascii_N_embedding a), <- (ascii_N_embedding b). now f_equal.
Qed.

Lemma chr_ord (c : ascii) : Py.chr (Py.ord c) = c.
Proof. unfold Py.chr, Py.ord. rewrite N2Z.id. apply ascii_N_embedding. Qed.

Lemma ord_chr (n : Z) : 0 <= n < 256 -> Py.ord (Py.chr n) = n.
Proof.
  intros H. unfold Py.chr, Py.ord. rewrite N_ascii_embedding by lia. lia.
Qed.

Lemma char_eqb_eq (a b : ascii) : Py.char_eqb a b = true <-> a = b.
Proof.
  unfold Py.char_eqb. rewrite Z.eqb_eq. split; [apply ord_inj|now intros ->].
Qed.

Lemma char_eqb_refl (a : ascii) : Py.char_eqb a a = true.
Proof. now apply char_eqb_eq. Qed.

Lemma char_eqb_neq (a b : ascii) : Py.char_eqb a b = false <-> a <> b.
Proof.
  rewrite <- char_eqb_eq. destruct (Py.char_eqb a b); split; congruence.
Qed.

Lemma ord_range (c : ascii) : 0 <= Py.ord c < 256.
Proof.
  unfold Py.ord. pose proof (N_ascii_bounded c). lia.
Qed.

Lemma index_of_inj (a b : ascii) :
  valid_char a -> valid_char b -> index_of a = index_of b -> a = b.
Proof.
  unfold valid_char, index_of. intros Ha Hb H. apply ord_inj. lia.
Qed.

Lemma index_of_lt (c : ascii) : valid_char c -> (index_of c < 91)%nat.
Proof. unfold valid_char, index_of. lia. Qed.

Lemma index_of_chr (i : nat) : (i < 91)%nat -> index_of (Py.chr (Z.of_nat i + 36)) = i.
Proof. intros H. unfold index_of. rewrite ord_chr by lia. lia. Qed.

Lemma valid_chr (i : Z) : 0 <= i < 91 -> valid_char (Py.chr (i + 36)).
Proof. intros H. unfold valid_char. rewrite ord_chr by lia. lia. Qed.

Lemma chr_index_of (c : ascii) :
  valid_char c -> Py.chr (Z.of_nat (index_of c) + 36) = c.
Proof.
  unfold valid_char, index_of. intros H.
  replace (Z.of_nat (Z.to_nat (Py.ord c - 36)) + 36) with (Py.ord c) by lia.
  apply chr_ord.
Qed.

Lemma sentinel_valid : valid_char "$"%char.
Proof. unfold valid_char. cbn. lia. Qed.

(** Reading and writing a table of 91 entries at the index of a symbol. *)
Lemma get_at_index {A : Type} (l : list A) (c : ascii) (x : A) :
  valid_char c -> nth_error l (index_of c) = Some x ->
  Py.get l (Py.ord c - 36) = Ok x.
Proof. unfold valid_char. intros Hc H. apply get_ok; [lia|exact H]. Qed.

Lemma set_at_index {A : Type} (l : list A) (c : ascii) (x : A) :
  valid_char c -> length l = 91%nat ->
  Py.set l (Py.ord c - 36) x = Ok (Py.update l (index_of c) x).
Proof.
  unfold valid_char. intros Hc Hl. apply set_ok. unfold Py.len. lia.
Qed.

End Chars.

(** ** The occurrence counts and the initial heap entries *)

Section Counts.

Lemma update_map_Count (zs : list Z) (n : nat) (z : Z) :
  Py.update (map Count zs) n (Count z) = map Count (Py.update zs n z).
Proof.
  revert n. induction zs as [|h t IH]; intros [|n]; cbn [map Py.update];
    try reflexivity. now rewrite IH.
Qed.

(** After the counting loop a count is positive exactly for the
    characters met. *)
Lemma count_loop_spec :
  forall text zs seen,
    length zs = 91%nat ->
    Forall (fun z => 0 <= z) zs ->
    (forall c, valid_char c -> (0 < nth (index_of c) zs 0 <-> In c seen)) ->
    Forall valid_char text ->
    exists zs',
      Compress.count_loop (map Count zs) text = Ok (map Count zs') /\
      length zs' = 91%nat /\
      Forall (fun z => 0 <= z) zs' /\
      (forall c, valid_char c ->
                 (0 < nth (index_of c) zs' 0 <-> In c (seen ++ text))).
Proof.
  induction text as [|ch text IH]; intros zs seen Hlen Hpos Hseen Hvalid.
  - exists zs. rewrite app_nil_r. split; [reflexivity|]. split; [assumption|].
    split; assumption.
  - inversion Hvalid as [|? ? Hch Hrest]; subst.
    pose proof (index_of_lt ch Hch) as Hlt.
    destruct (nth_error zs (index_of ch)) as [z|] eqn:Hz;
      [|apply nth_error_None in Hz; lia].
    cbn [Compress.count_loop].
    rewrite (get_at_index (map Count zs) ch (Count z)); [|assumption|].
    2:{ rewrite nth_error_map, Hz. reflexivity. }
    cbn [bind]. rewrite set_at_index by (rewrite ?length_map; assumption).
    cbn [bind]. rewrite update_map_Count.
    assert (Hz0 : 0 <= z).
    { rewrite Forall_forall in Hpos. apply Hpos. eapply nth_error_In; eassumption. }
    destruct (IH (Py.update zs (index_of ch) (z + 1)) (seen ++ [ch])) as (zs' & H1 & H2 & H3 & H4).
    + now rewrite length_update.
    + rewrite Forall_forall in *. intros y Hy.
      apply In_nth_error in Hy. destruct Hy as [k Hk].
      destruct (Nat.eq_dec (index_of ch) k) as [<-|Hne].
      * rewrite nth_error_update_eq in Hk by lia. injection Hk as <-. lia.
      * rewrite nth_error_update_neq in Hk by assumption.
        apply Hpos. eapply nth_error_In; eassumption.
    + intros c Hc. rewrite in_app_iff. cbn [In].
      destruct (Nat.eq_dec (index_of ch) (index_of c)) as [He|Hne].
      * apply index_of_inj in He; [|assumption|assumption]. subst c.
        assert (Hu : nth_error (Py.update zs (index_of ch) (z + 1)) (index_of ch)
                     = Some (z + 1)) by (apply nth_error_update_eq; lia).
        rewrite (nth_error_nth _ _ 0 Hu).
        split; [auto|lia].
      * assert (Hn : nth (index_of c) (Py.update zs (index_of ch) (z + 1)) 0
                     = nth (index_of c) zs 0).
        { pose proof (index_of_lt c Hc).
          destruct (nth_error zs (index_of c)) as [y|] eqn:Hy;
            [|apply nth_error_None in Hy; lia].
          rewrite (nth_error_nth _ _ 0 Hy).
          apply nth_error_nth. now rewrite nth_error_update_neq. }
        rewrite Hn. pose proof (Hseen c Hc) as Hs. split; [tauto|].
        intros [H|[H|[]]]; [tauto|]. subst c. contradiction.
    + assumption.
    + exists zs'. rewrite <- app_assoc in H4. split; [assumption|].
      split; [assumption|]. split; assumption.
Qed.

Lemma unique_loop_spec :
  forall zs i unique,
    Compress.unique_loop (map Count zs) i unique = Ok (unique ++ unique_from zs i).
Proof.
  induction zs as [|z zs IH]; intros i unique; cbn [map Compress.unique_loop unique_from].
  - now rewrite app_nil_r.
  - rewrite IH. destruct (0 <? z); [|reflexivity].
    now rewrite <- app_assoc.
Qed.

(** The symbols of the entries, in table order. *)
Lemma unique_from_symbols :
  forall zs i,
    0 <= i ->
    symbols_of (unique_from zs i)
    = map (fun k => Py.chr (k + 36))
          (filter (fun k => 0 <? nth (Z.to_nat (k - i)) zs 0)
                  (map (fun j => i + Z.of_nat j) (seq 0 (length zs)))).
Proof.
  induction zs as [|z zs IH]; intros i Hi; [reflexivity|].
  cbn [unique_from length seq map filter].
  replace (Z.to_nat (i + Z.of_nat 0 - i)) with 0%nat by lia. cbn [nth].
  assert (Hrest : symbols_of (unique_from zs (i + 1))
                  = map (fun k => Py.chr (k + 36))
                      (filter (fun k => 0 <? nth (Z.to_nat (k - i)) (z :: zs) 0)
                              (map (fun j => i + Z.of_nat j) (seq 1 (length zs))))).
  { rewrite IH by lia. f_equal. rewrite <- seq_shift, map_map. clear IH.
    induction (seq 0 (length zs)) as [|j js IHj]; [reflexivity|].
    cbn [map filter].
    replace (Z.to_nat (i + 1 + Z.of_nat j - (i + 1))) with j by lia.
    replace (Z.to_nat (i + Z.of_nat (S j) - i)) with (S j) by lia. cbn [nth].
    replace (i + 1 + Z.of_nat j) with (i + Z.of_nat (S j)) by lia.
    destruct (0 <? nth j zs 0); now rewrite IHj. }
  destruct (0 <? z).
  - unfold symbols_of in *. cbn [map concat app]. rewrite Hrest.
    replace (i + Z.of_nat 0) with i by lia. reflexivity.
  - exact Hrest.
Qed.

Lemma unique_from_singletons :
  forall zs i,
    Forall (fun e => exists c, snd e = [c]) (unique_from zs i).
Proof.
  induction zs as [|z zs IH]; intros i; cbn [unique_from]; [constructor|].
  destruct (0 <? z); [constructor; [eexists; reflexivity|]|]; apply IH.
Qed.

Lemma unique_from_weights :
  forall zs i, Forall (fun e => 0 < fst e) (unique_from zs i).
Proof.
  induction zs as [|z zs IH]; intros i; cbn [unique_from]; [constructor|].
  destruct (Z.ltb_spec 0 z); [constructor; [assumption|]|]; apply IH.
Qed.

End Counts.

(** ** List facts *)

Section ListFacts.
Context {A : Type}.

Lemma NoDup_app_inv (l1 l2 : list A) :
  NoDup (l1 ++ l2) ->
  NoDup l1 /\ NoDup l2 /\ (forall a, In a l1 -> ~ In a l2).
Proof.
  intros H. split; [eapply NoDup_app_remove_r; eassumption|].
  split; [eapply NoDup_app_remove_l; eassumption|].
  induction l1 as [|x l1 IH]; intros a Ha; [destruct Ha|].
  cbn [app] in H. inversion H as [|? ? Hx Hnd]; subst.
  destruct Ha as [->|Ha].
  - intros Hin. apply Hx. apply in_or_app. now right.
  - now apply IH.
Qed.

Lemma insert_split (ltb : A -> A -> bool) (x : A) (l : list A) :
  exists l1 l2, l = l1 ++ l2 /\ Py.insert ltb x l = l1 ++ x :: l2.
Proof.
  induction l as [|y l (l1 & l2 & H1 & H2)]; cbn [Py.insert].
  - exists [], []. split; reflexivity.
  - destruct (ltb y x).
    + exists (y :: l1), l2. rewrite H2. split; [now rewrite H1|reflexivity].
    + exists [], (y :: l). split; reflexivity.
Qed.

Lemma insert_perm (ltb : A -> A -> bool) (x : A) (l : list A) :
  Permutation (Py.insert ltb x l) (x :: l).
Proof.
  destruct (insert_split ltb x l) as (l1 & l2 & -> & ->).
  symmetry. apply Permutation_middle.
Qed.

Lemma sort_perm (ltb : A -> A -> bool) (l : list A) :
  Permutation (Py.sort ltb l) l.
Proof.
  induction l as [|x l IH]; cbn [Py.sort]; [constructor|].
  rewrite insert_perm. now constructor.
Qed.

Lemma insert_length (ltb : A -> A -> bool) (x : A) (l : list A) :
  length (Py.insert ltb x l) = S (length l).
Proof. exact (Permutation_length (insert_perm ltb x l)). Qed.

Lemma sort_length (ltb : A -> A -> bool) (l : list A) :
  length (Py.sort ltb l) = length l.
Proof. exact (Permutation_length (sort_perm ltb l)). Qed.

End ListFacts.

(** ** The Huffman construction *)

Section Huffman.

Lemma codes_leaves (t : ctree) : map fst (codes t) = leaves t.
Proof.
  induction t as [c|l IHl r IHr]; cbn [codes leaves map]; [reflexivity|].
  rewrite map_app, !map_map.
  f_equal; [rewrite <- IHl|rewrite <- IHr]; apply map_ext; intros []; reflexivity.
Qed.

Lemma cell_path_bump (b : bool) (cl : cell) (p : list bool) :
  cell_path cl p -> cell_path (bump [b] cl) (b :: p).
Proof.
  destruct p as [|x p]; cbn [cell_path].
  - intros [n ->]. reflexivity.
  - intros ->. cbn [bump]. reflexivity.
Qed.

Lemma append_spec (character : list cell) (c : ascii) (value : list bool)
      (cl : cell) :
  valid_char c -> length character = 91%nat ->
  nth_error character (index_of c) = Some cl ->
  HuffManEncoding.append character (Py.ord c - 36) value
  = Ok (Py.update character (index_of c) (bump value cl)).
Proof.
  intros Hc Hlen Hcl. unfold HuffManEncoding.append.
  rewrite (get_at_index _ _ _ Hc Hcl). cbn [bind].
  destruct cl; cbn [bump]; now apply set_at_index.
Qed.

Lemma append_all_spec (value : list bool) :
  forall symbols character,
    NoDup symbols -> Forall valid_char symbols ->
    length character = 91%nat ->
    exists character',
      HuffManEncoding.append_all character symbols value = Ok character' /\
      length character' = 91%nat /\
      (forall c cl, In c symbols ->
                    nth_error character (index_of c) = Some cl ->
                    nth_error character' (index_of c) = Some (bump value cl)) /\
      (forall i, (forall c, In c symbols -> index_of c <> i) ->
                 nth_error character' i = nth_error character i).
Proof.
  induction symbols as [|c rest IH]; intros character Hnd Hv Hlen.
  - exists character. cbn [HuffManEncoding.append_all].
    split; [reflexivity|]. split; [assumption|]. split; [intros ? ? []|reflexivity].
  - inversion Hnd as [|? ? Hnotin Hnd']; subst.
    inversion Hv as [|? ? Hc Hv']; subst.
    pose proof (index_of_lt c Hc) as Hlt.
    destruct (nth_error character (index_of c)) as [cl|] eqn:Hcl;
      [|apply nth_error_None in Hcl; lia].
    cbn [HuffManEncoding.append_all]. rewrite (append_spec _ _ _ _ Hc Hlen Hcl).
    cbn [bind].
    destruct (IH (Py.update character (index_of c) (bump value cl)) Hnd' Hv')
      as (character' & H1 & H2 & H3 & H4); [now rewrite length_update|].
    exists character'. split; [assumption|]. split; [assumption|]. split.
    + intros c' cl' [<-|Hin] Hcl'.
      * rewrite H4.
        -- rewrite nth_error_update_eq by lia. congruence.
        -- intros c' Hin' He. apply index_of_inj in He; [congruence| |assumption].
           rewrite Forall_forall in Hv'. now apply Hv'.
      * apply H3; [assumption|]. rewrite nth_error_update_neq; [assumption|].
        intros He. apply index_of_inj in He; [congruence|assumption|].
        rewrite Forall_forall in Hv'. now apply Hv'.
    + intros i Hi. rewrite H4 by (intros c' Hin; apply Hi; now right).
      apply nth_error_update_neq. apply Hi. now left.
Qed.

Lemma tree_ok_bump (character character' : list cell) (t : ctree) (b : bool) :
  tree_ok character t ->
  (forall c cl, In c (leaves t) ->
                nth_error character (index_of c) = Some cl ->
                nth_error character' (index_of c) = Some (bump [b] cl)) ->
  Forall (fun cp => exists cl, nth_error character' (index_of (fst cp)) = Some cl
                               /\ cell_path cl (snd cp))
         (map (fun cp => (fst cp, b :: snd cp)) (codes t)).
Proof.
  unfold tree_ok. intros Hok Hb. rewrite Forall_map.
  rewrite Forall_forall in *. intros [c p] Hin. cbn [fst snd].
  destruct (Hok _ Hin) as (cl & Hcl & Hp). cbn [fst snd] in *.
  exists (bump [b] cl). split; [|now apply cell_path_bump].
  apply Hb; [|assumption]. rewrite <- codes_leaves.
  apply in_map_iff. exists (c, p). split; [reflexivity|assumption].
Qed.

Lemma tree_ok_same (character character' : list cell) (t : ctree) :
  tree_ok character t ->
  (forall c, In c (leaves t) ->
             nth_error character' (index_of c) = nth_error character (index_of c)) ->
  tree_ok character' t.
Proof.
  unfold tree_ok. intros Hok Hs. rewrite Forall_forall in *. intros [c p] Hin.
  destruct (Hok _ Hin) as (cl & Hcl & Hp). cbn [fst snd] in *.
  exists cl. split; [|assumption]. rewrite Hs; [assumption|].
  rewrite <- codes_leaves. apply in_map_iff. exists (c, p). split; [reflexivity|assumption].
Qed.

End Huffman.

Section HuffmanLoop.

Lemma heap_inv_single (character : list cell) (e : Heapq.entry) (ts : list ctree) :
  heap_inv character [e] ts ->
  exists t, ts = [t] /\ e = (fst e, leaves t).
Proof.
  intros (_ & H2 & _). inversion H2 as [|? t ? ? He Hr]; subst.
  inversion Hr; subst. exists t. split; [reflexivity|].
  destruct e as [w s]. cbn [snd fst] in *. now subst.
Qed.

(** One round of the loop keeps the invariant, the two smallest entries
    becoming the two sides of a new tree. *)
Lemma huffman_step (character : list cell) (e1 e2 : Heapq.entry)
      (rest : list Heapq.entry) (t1 t2 : ctree) (trest : list ctree) :
  heap_inv character (e1 :: e2 :: rest) (t1 :: t2 :: trest) ->
  exists character1 character2 ts',
    HuffManEncoding.append_all character (snd e1) [false] = Ok character1 /\
    HuffManEncoding.append_all character1 (snd e2) [true] = Ok character2 /\
    heap_inv character2
             (Heapq.heappush rest (fst e1 + fst e2, snd e1 ++ snd e2)) ts' /\
    Permutation (concat (map leaves ts'))
                (concat (map leaves (t1 :: t2 :: trest))) /\
    (exists ta tb, ts' = ta ++ Br t1 t2 :: tb /\ trest = ta ++ tb).
Proof.
  intros (Hlen & HF2 & Hnd & Hval & Hok).
  inversion HF2 as [|? ? ? ? He1 HF2']; subst.
  inversion HF2' as [|? ? ? ? He2 HF2'']; subst.
  cbn [map concat] in Hnd, Hval.
  apply NoDup_app_inv in Hnd. destruct Hnd as (Hnd1 & Hnd23 & Hdis1).
  apply NoDup_app_inv in Hnd23. destruct Hnd23 as (Hnd2 & Hnd3 & Hdis2).
  apply Forall_app in Hval. destruct Hval as [Hv1 Hv23].
  apply Forall_app in Hv23. destruct Hv23 as [Hv2 Hv3].
  inversion Hok as [|? ? Hok1 Hok']; subst.
  inversion Hok' as [|? ? Hok2 Hok3]; subst.
  rewrite He1, He2.
  destruct (append_all_spec [false] (leaves t1) character Hnd1 Hv1 Hlen)
    as (character1 & Ha1 & Hlen1 & Hb1 & Hs1).
  destruct (append_all_spec [true] (leaves t2) character1 Hnd2 Hv2 Hlen1)
    as (character2 & Ha2 & Hlen2 & Hb2 & Hs2).
  unfold Heapq.heappush.
  destruct (insert_split Heapq.entry_ltb
              (fst e1 + fst e2, leaves t1 ++ leaves t2) rest)
    as (r1 & r2 & Hrest & Hins).
  rewrite Hins. subst rest.
  apply Forall2_app_inv_l in HF2''.
  destruct HF2'' as (ta & tb & Hfa & Hfb & ->).
  exists character1, character2, (ta ++ Br t1 t2 :: tb).
  split; [assumption|]. split; [assumption|].
  assert (Hperm : Permutation (concat (map leaves (ta ++ Br t1 t2 :: tb)))
                              (leaves t1 ++ leaves t2 ++ concat (map leaves (ta ++ tb)))).
  { rewrite !map_app, !concat_app. cbn [map concat leaves].
    rewrite (app_assoc (leaves t1)). apply Permutation_app_swap_app. }
  (* the cells of the symbols of a tree, before and after *)
  assert (Hidx : forall c c', valid_char c -> valid_char c' -> c <> c' ->
                              index_of c' <> index_of c).
  { intros c c' Hc Hc' Hne He. apply Hne. symmetry. now apply index_of_inj. }
  rewrite Forall_forall in Hv1, Hv2, Hv3.
  assert (Hdis12 : forall a, In a (leaves t1) -> ~ In a (leaves t2)).
  { intros a Ha Hin. apply (Hdis1 a Ha). apply in_or_app. now left. }
  assert (Hdis13 : forall a, In a (leaves t1) -> ~ In a (concat (map leaves (ta ++ tb)))).
  { intros a Ha Hin. apply (Hdis1 a Ha). apply in_or_app. now right. }
  split; [|split; [exact Hperm|exists ta, tb; split; reflexivity]].
  split; [assumption|]. split.
  { apply Forall2_app; [assumption|]. constructor; [reflexivity|assumption]. }
  split.
  { eapply Permutation_NoDup; [symmetry; exact Hperm|].
    apply NoDup_app; [assumption| |exact Hdis1].
    apply NoDup_app; [assumption|assumption|exact Hdis2]. }
  split.
  { eapply Permutation_Forall; [symmetry; exact Hperm|].
    rewrite !Forall_app. rewrite !Forall_forall. split; [|split]; assumption. }
  (* the trees *)
  assert (Hother : forall t, In t (ta ++ tb) -> tree_ok character t ->
                             tree_ok character2 t).
  { intros t Hin Ht. apply (tree_ok_same character); [assumption|].
    intros c Hc.
    assert (Hc3 : In c (concat (map leaves (ta ++ tb)))).
    { apply in_concat. exists (leaves t). split; [now apply in_map|assumption]. }
    rewrite Hs2, Hs1; [reflexivity| |].
    - intros c' Hc' He. apply index_of_inj in He; [|now apply Hv1|now apply Hv3].
      subst c'. exact (Hdis13 c Hc' Hc3).
    - intros c' Hc' He. apply index_of_inj in He; [|now apply Hv2|now apply Hv3].
      subst c'. exact (Hdis2 c Hc' Hc3). }
  rewrite Forall_forall in Hok3.
  apply Forall_app. split.
  { rewrite Forall_forall. intros t Hin. apply Hother.
    - apply in_or_app. now left.
    - apply Hok3. apply in_or_app. now left. }
  constructor.
  - unfold tree_ok. cbn [codes]. apply Forall_app. split.
    + apply (tree_ok_bump character); [assumption|].
      intros c cl Hc Hcl. rewrite Hs2.
      * now apply Hb1.
      * intros c' Hc' He. apply index_of_inj in He; [|now apply Hv2|now apply Hv1].
        subst c'. exact (Hdis12 c Hc Hc').
    + apply (tree_ok_bump character1).
      * apply (tree_ok_same character); [assumption|].
        intros c Hc. apply Hs1.
        intros c' Hc' He. apply index_of_inj in He; [|now apply Hv1|now apply Hv2].
        subst c'. exact (Hdis12 c Hc' Hc).
      * intros c cl Hc Hcl. now apply Hb2.
  - rewrite Forall_forall. intros t Hin. apply Hother.
    + apply in_or_app. now right.
    + apply Hok3. apply in_or_app. now right.
Qed.

Lemma huffman_loop_spec (fuel : nat) :
  forall character heap ts,
    heap_inv character heap ts -> heap <> [] ->
    (length heap <= S fuel)%nat ->
    exists character' w t,
      HuffManEncoding.loop fuel character heap = Ok (character', [(w, leaves t)]) /\
      heap_inv character' [(w, leaves t)] [t] /\
      Permutation (leaves t) (concat (map leaves ts)) /\
      (ts = [t] \/ exists l r, t = Br l r).
Proof.
  assert (Hsingle : forall fuel character e ts,
             heap_inv character [e] ts ->
             exists character' w t,
               HuffManEncoding.loop fuel character [e] = Ok (character', [(w, leaves t)]) /\
               heap_inv character' [(w, leaves t)] [t] /\
               Permutation (leaves t) (concat (map leaves ts)) /\
               (ts = [t] \/ exists l r, t = Br l r)).
  { intros f character e ts Hinv.
    destruct (heap_inv_single _ _ _ Hinv) as (t & -> & He).
    exists character, (fst e), t. rewrite <- He.
    split; [destruct f; reflexivity|]. split; [assumption|].
    split; [cbn [map concat]; now rewrite app_nil_r|]. now left. }
  induction fuel as [|fuel IH]; intros character heap ts Hinv Hne Hlen.
  - destruct heap as [|e1 [|e2 rest]]; [contradiction| |cbn [length] in Hlen; lia].
    now apply Hsingle.
  - destruct heap as [|e1 [|e2 rest]]; [contradiction|now apply Hsingle|].
    assert (Hts : exists t1 t2 trest, ts = t1 :: t2 :: trest).
    { destruct Hinv as (_ & HF & _). inversion HF as [|? ? ? ? ? HF']; subst.
      inversion HF'; subst. eauto. }
    destruct Hts as (t1 & t2 & trest & ->).
    destruct (huffman_step _ _ _ _ _ _ _ Hinv)
      as (character1 & character2 & ts' & Ha1 & Ha2 & Hinv' & Hperm
          & (ta & tb & Hts' & Htrest)).
    cbn [HuffManEncoding.loop].
    assert (Hl : (1 <? Py.len (e1 :: e2 :: rest)) = true).
    { apply Z.ltb_lt. unfold Py.len. cbn [length]. lia. }
    rewrite Hl. cbn [Heapq.heappop bind]. rewrite Ha1. cbn [bind].
    rewrite Ha2. cbn [bind].
    pose proof (insert_length Heapq.entry_ltb
                  (fst e1 + fst e2, snd e1 ++ snd e2) rest) as Hil.
    destruct (IH character2 _ ts' Hinv') as (character' & w & t & Hloop & Hfin & Hp & Hbr).
    + unfold Heapq.heappush. intros Hi. rewrite Hi in Hil. discriminate.
    + unfold Heapq.heappush. rewrite Hil. cbn [length] in Hlen. lia.
    + exists character', w, t. split; [assumption|]. split; [assumption|].
      split; [now rewrite Hp|]. right.
      destruct Hbr as [Hone|Hbr]; [|assumption].
      rewrite Hts' in Hone. destruct ta as [|? ta].
      * injection Hone as <- _. eauto.
      * destruct ta; discriminate.
Qed.

End HuffmanLoop.

Section HuffmanInit.

Lemma reverse_loop_spec :
  forall symbols character,
    NoDup symbols -> Forall valid_char symbols ->
    length character = 91%nat ->
    (forall c, In c symbols ->
               exists s, nth_error character (index_of c) = Some (Code s)) ->
    exists character',
      HuffManEncoding.reverse_loop character symbols = Ok character' /\
      length character' = 91%nat /\
      (forall c s, In c symbols ->
                   nth_error character (index_of c) = Some (Code s) ->
                   nth_error character' (index_of c) = Some (Code (rev s))) /\
      (forall i, (forall c, In c symbols -> index_of c <> i) ->
                 nth_error character' i = nth_error character i).
Proof.
  induction symbols as [|c rest IH]; intros character Hnd Hv Hlen Hcode.
  - exists character. cbn [HuffManEncoding.reverse_loop].
    split; [reflexivity|]. split; [assumption|]. split; [intros ? ? []|reflexivity].
  - inversion Hnd as [|? ? Hnotin Hnd']; subst.
    inversion Hv as [|? ? Hc Hv']; subst.
    pose proof (index_of_lt c Hc) as Hlt.
    destruct (Hcode c (or_introl eq_refl)) as [s Hs].
    cbn [HuffManEncoding.reverse_loop]. rewrite (get_at_index _ _ _ Hc Hs).
    cbn [bind HuffManEncoding.reverse_string]. rewrite set_at_index by assumption.
    cbn [bind].
    assert (Hidx : forall c', In c' rest -> index_of c <> index_of c').
    { intros c' Hin He. apply index_of_inj in He; [congruence|assumption|].
      rewrite Forall_forall in Hv'. now apply Hv'. }
    destruct (IH (Py.update character (index_of c) (Code (rev s))) Hnd' Hv')
      as (character' & H1 & H2 & H3 & H4); [now rewrite length_update| |].
    { intros c' Hin. destruct (Hcode c' (or_intror Hin)) as [s' Hs'].
      exists s'. rewrite nth_error_update_neq; [assumption|now apply Hidx]. }
    exists character'. split; [assumption|]. split; [assumption|]. split.
    + intros c' s' [<-|Hin] Hcl'.
      * rewrite H4.
        -- rewrite nth_error_update_eq by lia. congruence.
        -- intros c' Hin' He. symmetry in He. revert He. now apply Hidx.
      * apply H3; [assumption|]. rewrite nth_error_update_neq; [assumption|].
        now apply Hidx.
    + intros i Hi. rewrite H4 by (intros c' Hin; apply Hi; now right).
      apply nth_error_update_neq. apply Hi. now left.
Qed.

Lemma codes_branch_nonempty (l r : ctree) :
  Forall (fun cp => snd cp <> []) (codes (Br l r)).
Proof.
  cbn [codes]. apply Forall_app. split; rewrite Forall_map, Forall_forall;
    intros cp _; discriminate.
Qed.

Lemma concat_perm {A : Type} (l l' : list (list A)) :
  Permutation l l' -> Permutation (concat l) (concat l').
Proof.
  induction 1 as [|x l l' _ IH|x y l|l l' l'' _ IH1 _ IH2]; cbn [concat].
  - constructor.
  - now apply Permutation_app_head.
  - rewrite !app_assoc. apply Permutation_app_tail. apply Permutation_app_comm.
  - now rewrite IH1.
Qed.

Lemma symbols_of_singletons (heap : list Heapq.entry) :
  Forall (fun e => exists c, snd e = [c]) heap ->
  concat (map leaves (map leaf_of heap)) = symbols_of heap /\
  Forall2 (fun e t => snd e = leaves t) heap (map leaf_of heap).
Proof.
  induction 1 as [|e heap [c He] _ [IH1 IH2]]; [split; [reflexivity|constructor]|].
  unfold symbols_of in *. cbn [map concat]. split.
  - rewrite IH1. unfold leaf_of. rewrite He. reflexivity.
  - constructor; [|assumption]. unfold leaf_of. rewrite He. reflexivity.
Qed.

(** The result of [HuffManEncoding(characters, unique)]: one heap entry
    is left, it stands for a tree with every symbol at one leaf, and the
    table holds for each symbol the path to its leaf. *)
Lemma huffman_init_spec (zs : list Z) (unique : list Heapq.entry) :
  length zs = 91%nat ->
  Forall (fun e => exists c, snd e = [c]) unique ->
  NoDup (symbols_of unique) ->
  Forall valid_char (symbols_of unique) ->
  (2 <= length unique)%nat ->
  exists character w l r,
    HuffManEncoding.init (map Count zs) unique
    = Ok (character, [(w, leaves (Br l r))]) /\
    length character = 91%nat /\
    Permutation (leaves (Br l r)) (symbols_of unique) /\
    Forall (fun cp => nth_error character (index_of (fst cp)) = Some (Code (snd cp)))
           (codes (Br l r)).
Proof.
  intros Hlen Hsing Hnd Hval Hlen2.
  set (heap := Heapq.heapify unique).
  assert (Hperm : Permutation heap unique) by apply sort_perm.
  assert (Hsing' : Forall (fun e => exists c, snd e = [c]) heap)
    by (eapply Permutation_Forall; [symmetry; exact Hperm|assumption]).
  destruct (symbols_of_singletons heap Hsing') as [Hsym HF2].
  assert (Hps : Permutation (symbols_of heap) (symbols_of unique)).
  { unfold symbols_of. apply concat_perm. now apply Permutation_map. }
  assert (Hinv : heap_inv (map Count zs) heap (map leaf_of heap)).
  { split; [now rewrite length_map|]. split; [assumption|]. rewrite Hsym.
    split; [eapply Permutation_NoDup; [symmetry; exact Hps|assumption]|].
    split; [eapply Permutation_Forall; [symmetry; exact Hps|assumption]|].
    rewrite Forall_map, Forall_forall. intros e He. unfold tree_ok, leaf_of.
    cbn [codes]. constructor; [|constructor]. cbn [fst snd cell_path].
    assert (Hc : valid_char (hd "$"%char (snd e))).
    { rewrite Forall_forall in Hsing'. destruct (Hsing' e He) as [c Hc].
      rewrite Hc. cbn [hd].
      assert (Hin : In c (symbols_of heap)).
      { unfold symbols_of. apply in_concat. exists [c].
        split; [rewrite <- Hc; now apply in_map|now left]. }
      rewrite Forall_forall in Hval. apply Hval.
      eapply Permutation_in; eassumption. }
    pose proof (index_of_lt _ Hc) as Hlt.
    destruct (nth_error zs (index_of (hd "$"%char (snd e)))) as [z|] eqn:Hz;
      [|apply nth_error_None in Hz; lia].
    exists (Count z). split; [now rewrite nth_error_map, Hz|]. now exists z. }
  assert (Hhl : length heap = length unique) by apply sort_length.
  destruct (huffman_loop_spec (length unique) _ _ _ Hinv)
    as (character1 & w & t & Hloop & Hfin & Hp & Hbr).
  { intros He. rewrite He in Hhl. cbn [length] in Hhl. lia. }
  { lia. }
  destruct Hbr as [Hone|(l & r & ->)].
  { apply (f_equal (@length _)) in Hone. rewrite length_map in Hone.
    cbn [length] in Hone. lia. }
  destruct Hfin as (Hlen1 & _ & Hnd1 & Hval1 & Hok1).
  cbn [map concat] in Hnd1, Hval1. rewrite app_nil_r in Hnd1, Hval1.
  inversion Hok1 as [|? ? Hok _]; subst. unfold tree_ok in Hok.
  pose proof (codes_branch_nonempty l r) as Hne.
  destruct (reverse_loop_spec (leaves (Br l r)) character1 Hnd1 Hval1 Hlen1)
    as (character & Hrev & Hlenc & Hrevd & _).
  { intros c Hc. rewrite <- codes_leaves in Hc. apply in_map_iff in Hc.
    destruct Hc as ([c' p] & <- & Hin). rewrite Forall_forall in Hok, Hne.
    destruct (Hok _ Hin) as (cl & Hcl & Hpath). specialize (Hne _ Hin).
    cbn [fst snd] in *. destruct p; [contradiction|]. cbn [cell_path] in Hpath.
    subst cl. eauto. }
  exists character, w, l, r.
  split.
  { unfold HuffManEncoding.init, HuffManEncoding.huffman_encoding. fold heap.
    rewrite Hloop. cbn [bind]. unfold HuffManEncoding.reverse_all,
      HuffManEncoding.get_unique_characters.
    change (Py.get [(w, leaves (Br l r))] 0) with (Ok (w, leaves (Br l r))).
    cbn [bind snd]. rewrite Hrev. reflexivity. }
  split; [assumption|]. split.
  { rewrite Hp, Hsym. assumption. }
  rewrite Forall_forall in *. intros [c p] Hin. cbn [fst snd].
  destruct (Hok _ Hin) as (cl & Hcl & Hpath). specialize (Hne _ Hin).
  cbn [fst snd] in *. destruct p as [|b p]; [contradiction|].
  cbn [cell_path] in Hpath. subst cl.
  rewrite <- (rev_involutive (b :: p)). apply Hrevd; [|assumption].
  rewrite <- codes_leaves. apply in_map_iff. exists (c, b :: p).
  split; [reflexivity|assumption].
Qed.

End HuffmanInit.

(** ** The header of the compressor *)

Section Header.

Lemma elias_bits_ok (v : Z) :
  1 <= v -> EliasEncoding.elias_encoding v = Ok (elias_bits v).
Proof.
  intros Hv. destruct (elias_round_trip v Hv) as (code & Henc & _).
  unfold elias_bits. now rewrite Henc.
Qed.

Lemma elias_bits_decode (v : Z) (pre rest : list bool) :
  1 <= v ->
  EliasDecoding.decode (pre ++ elias_bits v ++ rest) (Py.len pre)
  = Ok (v, Py.len pre + Py.len (elias_bits v)).
Proof.
  intros Hv. destruct (elias_round_trip v Hv) as (code & Henc & _ & Hdec).
  unfold elias_bits. rewrite Henc. apply Hdec.
Qed.

Lemma code_of_ok (character : list cell) (c : ascii) (p : list bool) :
  valid_char c -> nth_error character (index_of c) = Some (Code p) ->
  HuffManEncoding.code_of character (Py.ord c - 36) = Ok p.
Proof.
  intros Hc H. unfold HuffManEncoding.code_of.
  now rewrite (get_at_index _ _ _ Hc H).
Qed.

Lemma len_pos_of_nonempty {A : Type} (l : list A) : l <> [] -> 1 <= Py.len l.
Proof. destruct l; [contradiction|]. unfold Py.len. cbn [length]. lia. Qed.

Lemma table_loop_spec (character : list cell) :
  forall cps to_write,
    Forall (fun cp => valid_char (fst cp) /\ snd cp <> [] /\
                      nth_error character (index_of (fst cp)) = Some (Code (snd cp)))
           cps ->
    Compress.table_loop character (map fst cps) to_write
    = Ok (to_write ++ concat (map table_entry cps)).
Proof.
  induction cps as [|[c p] cps IH]; intros to_write Hall; cbn [map Compress.table_loop concat].
  - now rewrite app_nil_r.
  - inversion Hall as [|? ? (Hc & Hne & Hcl) Hrest]; subst. cbn [fst snd] in *.
    rewrite (code_of_ok _ _ _ Hc Hcl). cbn [bind].
    rewrite (elias_bits_ok _ (len_pos_of_nonempty _ Hne)). cbn [bind].
    rewrite IH by assumption. unfold table_entry. cbn [fst snd].
    now rewrite <- !app_assoc.
Qed.

(** The counts and the initial heap entries of a text. *)
Lemma header_tables (text : list ascii) :
  Forall valid_char text ->
  exists zs,
    Compress.count_loop (repeat (Count 0) 91) text = Ok (map Count zs) /\
    Compress.unique_loop (map Count zs) 0 [] = Ok (unique_from zs 0) /\
    length zs = 91%nat /\
    Forall (fun e => exists c, snd e = [c]) (unique_from zs 0) /\
    NoDup (symbols_of (unique_from zs 0)) /\
    Forall valid_char (symbols_of (unique_from zs 0)) /\
    (forall c, In c (symbols_of (unique_from zs 0)) <-> In c text).
Proof.
  intros Hvalid.
  destruct (count_loop_spec text (repeat 0 91) []) as (zs & Hcount & Hlen & Hpos & Hin).
  - apply repeat_length.
  - apply Forall_forall. intros z Hz. apply repeat_spec in Hz. lia.
  - intros c Hc. pose proof (index_of_lt c Hc).
    rewrite nth_repeat_lt by assumption. cbn [In]. lia.
  - assumption.
  - cbn [app] in Hin. exists zs. rewrite <- map_repeat. split; [assumption|].
    split; [apply (unique_loop_spec zs 0 [])|]. split; [assumption|].
    split; [apply unique_from_singletons|].
    rewrite unique_from_symbols by lia. rewrite Hlen.
    set (ks := filter _ _).
    assert (Hks : forall k, In k ks <-> 0 <= k < 91 /\ 0 < nth (Z.to_nat k) zs 0).
    { intros k. unfold ks. rewrite filter_In, in_map_iff. split.
      - intros [(j & <- & Hj) Hk]. apply in_seq in Hj.
        apply Z.ltb_lt in Hk. replace (0 + Z.of_nat j - 0) with (Z.of_nat j) in Hk by lia.
        split; [lia|]. now replace (0 + Z.of_nat j) with (Z.of_nat j) by lia.
      - intros [Hk Hn]. split.
        + exists (Z.to_nat k). split; [lia|]. apply in_seq. lia.
        + apply Z.ltb_lt. now replace (k - 0) with k by lia. }
    assert (Hndk : NoDup ks).
    { unfold ks. apply NoDup_filter. apply NoDup_map_NoDup_ForallPairs; [|apply seq_NoDup].
      intros x y _ _ He. lia. }
    split; [|split].
    + apply NoDup_map_NoDup_ForallPairs; [|assumption].
      intros x y Hx Hy He. apply Hks in Hx, Hy.
      apply (f_equal Py.ord) in He. rewrite !ord_chr in He by lia. lia.
    + rewrite Forall_map, Forall_forall. intros k Hk. apply Hks in Hk.
      apply valid_chr. lia.
    + intros c. rewrite in_map_iff. split.
      * intros (k & <- & Hk). apply Hks in Hk. destruct Hk as [Hk Hn].
        apply Hin; [apply valid_chr; lia|].
        replace (index_of (Py.chr (k + 36))) with (Z.to_nat k); [assumption|].
        rewrite <- (index_of_chr (Z.to_nat k)) by lia. f_equal. f_equal. lia.
      * intros Hc. assert (Hvc : valid_char c).
        { rewrite Forall_forall in Hvalid. now apply Hvalid. }
        exists (Z.of_nat (index_of c)). split; [now apply chr_index_of|].
        apply Hks. pose proof (index_of_lt c Hvc). split; [lia|].
        rewrite Nat2Z.id. now apply Hin.
Qed.

Lemma valid_text_sentinel (text : list ascii) :
  valid_text text ->
  Forall valid_char (text ++ ["$"%char]) /\
  exists c, In c text /\ c <> "$"%char.
Proof.
  intros [Hne Hall]. split.
  - apply Forall_app. split.
    + eapply Forall_impl; [|exact Hall]. now intros c [Hc _].
    + constructor; [apply sentinel_valid|constructor].
  - destruct text as [|c text]; [contradiction|]. exists c.
    inversion Hall as [|? ? [_ Hc] _]; subst. split; [now left|assumption].
Qed.

Lemma symbols_length (unique : list Heapq.entry) :
  Forall (fun e => exists c, snd e = [c]) unique ->
  length (symbols_of unique) = length unique.
Proof.
  induction 1 as [|e unique [c He] _ IH]; [reflexivity|].
  unfold symbols_of in *. cbn [map concat length]. rewrite He. cbn [app length].
  now rewrite IH.
Qed.

(** What [header()] computes for a valid text: the Huffman table is that
    of a tree with the symbols of the text at its leaves, and the bits
    written are the two Elias codes and one entry per leaf. *)
Lemma header_spec (text : list ascii) :
  valid_text text ->
  exists character w l r,
    let t := Br l r in
    Compress.header (text ++ ["$"%char])
    = Ok ((character, [(w, leaves t)]),
          elias_bits (Py.len (text ++ ["$"%char]))
          ++ elias_bits (Py.len (codes t))
          ++ concat (map table_entry (codes t))) /\
    length character = 91%nat /\
    NoDup (leaves t) /\
    (forall c, In c (leaves t) <-> In c (text ++ ["$"%char])) /\
    Forall (fun cp => valid_char (fst cp) /\ snd cp <> [] /\
                      nth_error character (index_of (fst cp)) = Some (Code (snd cp)))
           (codes t).
Proof.
  intros Hvt. destruct (valid_text_sentinel text Hvt) as [Hvalid (c0 & Hc0 & Hne0)].
  destruct (header_tables _ Hvalid)
    as (zs & Hcount & Huniq & Hlen & Hsing & Hnd & Hval & Hin).
  set (unique := unique_from zs 0) in *.
  assert (Hlen2 : (2 <= length unique)%nat).
  { rewrite <- symbols_length by assumption.
    apply (NoDup_incl_length (l := [c0; "$"%char])).
    - constructor; [intros [H|[]]; congruence|]. constructor; [intros []|constructor].
    - intros x [<-|[<-|[]]]; apply Hin; apply in_or_app; [now left|right; now left]. }
  destruct (huffman_init_spec zs unique Hlen Hsing Hnd Hval Hlen2)
    as (character & w & l & r & Hinit & Hlenc & Hperm & Hcodes).
  exists character, w, l, r. cbv zeta.
  assert (Hndl : NoDup (leaves (Br l r)))
    by (eapply Permutation_NoDup; [symmetry; exact Hperm|assumption]).
  assert (Hinl : forall c, In c (leaves (Br l r)) <-> In c (text ++ ["$"%char])).
  { intros c. rewrite <- Hin. split; apply Permutation_in; [|symmetry]; assumption. }
  assert (Hall : Forall (fun cp => valid_char (fst cp) /\ snd cp <> [] /\
                      nth_error character (index_of (fst cp)) = Some (Code (snd cp)))
                        (codes (Br l r))).
  { pose proof (codes_branch_nonempty l r) as Hne.
    rewrite Forall_forall in *. intros cp Hcp. split; [|split; [now apply Hne|now apply Hcodes]].
    apply Hvalid. apply Hinl. rewrite <- codes_leaves. now apply in_map. }
  split; [|split; [assumption|split; [assumption|split; assumption]]].
  unfold Compress.header. rewrite Hcount. cbn [bind]. rewrite Huniq. cbn [bind].
  rewrite elias_bits_ok.
  2:{ rewrite len_app. pose proof (len_nonneg text). change (Py.len ["$"%char]) with 1. lia. }
  cbn [bind]. rewrite elias_bits_ok by (unfold Py.len; lia). cbn [bind].
  rewrite Hinit. cbn [bind snd fst].
  unfold HuffManEncoding.get_unique_characters.
  change (Py.get [(w, leaves (Br l r))] 0) with (Ok (w, leaves (Br l r))).
  cbn [bind snd]. rewrite <- codes_leaves, table_loop_spec by assumption.
  cbn [bind app]. rewrite <- app_assoc.
  replace (Py.len (codes (Br l r))) with (Py.len (unique_from zs 0)); [reflexivity|].
  fold unique. unfold Py.len. f_equal.
  rewrite <- (symbols_length unique) by assumption.
  rewrite <- (Permutation_length Hperm), <- codes_leaves. now rewrite length_map.
Qed.

End Header.

(** ** The Huffman codes are prefix-free *)

Section PrefixFree.

Lemma valid_textb_ok (text : list ascii) :
  valid_textb text = true -> valid_text text.
Proof.
  unfold valid_textb, valid_text. destruct text as [|c text]; [discriminate|].
  intros H. split; [discriminate|]. rewrite forallb_forall in H.
  apply Forall_forall. intros x Hx. specialize (H x Hx).
  apply andb_prop in H. destruct H as [H1 H2].
  apply Z.ltb_lt in H1. apply Z.leb_le in H2. split; [unfold valid_char; lia|].
  intros ->. cbn in H1. lia.
Qed.

Lemma codes_prefix_free (t : ctree) :
  forall cp1 cp2,
    In cp1 (codes t) -> In cp2 (codes t) ->
    is_prefix (snd cp1) (snd cp2) -> cp1 = cp2.
Proof.
  induction t as [c|l IHl r IHr]; intros cp1 cp2 H1 H2 Hp; cbn [codes] in *.
  - destruct H1 as [<-|[]]. destruct H2 as [<-|[]]. reflexivity.
  - apply in_app_or in H1, H2. rewrite !in_map_iff in H1, H2.
    destruct Hp as [s Hs].
    destruct H1 as [(x1 & <- & Hx1)|(x1 & <- & Hx1)];
      destruct H2 as [(x2 & <- & Hx2)|(x2 & <- & Hx2)];
      cbn [fst snd app] in Hs; try discriminate; injection Hs as Hs.
    + rewrite (IHl x1 x2 Hx1 Hx2); [reflexivity|]. now exists s.
    + rewrite (IHr x1 x2 Hx1 Hx2); [reflexivity|]. now exists s.
Qed.

Lemma code_of_leaf (character : list cell) (t : ctree) (c : ascii) :
  Forall (fun cp => valid_char (fst cp) /\ snd cp <> [] /\
                    nth_error character (index_of (fst cp)) = Some (Code (snd cp)))
         (codes t) ->
  In c (leaves t) ->
  exists p, In (c, p) (codes t) /\ p <> [] /\
            HuffManEncoding.code_of character (Py.ord c - 36) = Ok p.
Proof.
  intros Hall Hc. rewrite <- codes_leaves in Hc. apply in_map_iff in Hc.
  destruct Hc as ([c' p] & <- & Hin). rewrite Forall_forall in Hall.
  destruct (Hall _ Hin) as (Hv & Hne & Hcl). cbn [fst snd] in *.
  exists p. split; [assumption|]. split; [assumption|]. now apply code_of_ok.
Qed.

End PrefixFree.

(** C7: for every valid input text the Huffman construction gives every
    symbol of the text and the sentinel a non-empty code, and the code of
    one symbol is never a prefix of the code of another. *)
Theorem huffman_prefix_free (text : list ascii) :
  valid_text text ->
  exists huffman_encoding to_write,
    Compress.header (text ++ ["$"%char]) = Ok (huffman_encoding, to_write) /\
    (forall c, In c (text ++ ["$"%char]) ->
               exists code,
                 HuffManEncoding.code_of (fst huffman_encoding) (Py.ord c - 36) = Ok code
                 /\ code <> []) /\
    (forall c1 c2 code1 code2,
        In c1 (text ++ ["$"%char]) -> In c2 (text ++ ["$"%char]) -> c1 <> c2 ->
        HuffManEncoding.code_of (fst huffman_encoding) (Py.ord c1 - 36) = Ok code1 ->
        HuffManEncoding.code_of (fst huffman_encoding) (Py.ord c2 - 36) = Ok code2 ->
        ~ is_prefix code1 code2).
Proof.
  intros Hvt. destruct (header_spec text Hvt)
    as (character & w & l & r & Hhdr & Hlen & Hnd & Hin & Hall).
  cbv zeta in *. eexists. eexists. split; [exact Hhdr|]. cbn [fst]. split.
  - intros c Hc. apply Hin in Hc.
    destruct (code_of_leaf _ _ _ Hall Hc) as (p & _ & Hne & Hp). eauto.
  - intros c1 c2 code1 code2 Hc1 Hc2 Hne H1 H2 Hpre.
    apply Hin in Hc1, Hc2.
    destruct (code_of_leaf _ _ _ Hall Hc1) as (p1 & Hp1 & _ & Hq1).
    destruct (code_of_leaf _ _ _ Hall Hc2) as (p2 & Hp2 & _ & Hq2).
    rewrite Hq1 in H1. rewrite Hq2 in H2. injection H1 as <-. injection H2 as <-.
    pose proof (codes_prefix_free _ _ _ Hp1 Hp2 Hpre) as He. congruence.
Qed.

Lemma huffman_prefix_free_witness :
  exists huffman_encoding to_write,
    Compress.header (text_of "mississippi" ++ ["$"%char])
    = Ok (huffman_encoding, to_write) /\
    (forall c, In c (text_of "mississippi" ++ ["$"%char]) ->
               exists code,
                 HuffManEncoding.code_of (fst huffman_encoding) (Py.ord c - 36) = Ok code
                 /\ code <> []) /\
    (forall c1 c2 code1 code2,
        In c1 (text_of "mississippi" ++ ["$"%char]) ->
        In c2 (text_of "mississippi" ++ ["$"%char]) -> c1 <> c2 ->
        HuffManEncoding.code_of (fst huffman_encoding) (Py.ord c1 - 36) = Ok code1 ->
        HuffManEncoding.code_of (fst huffman_encoding) (Py.ord c2 - 36) = Ok code2 ->
        ~ is_prefix code1 code2).
Proof.
  apply (huffman_prefix_free (text_of "mississippi")).
  apply valid_textb_ok. reflexivity.
Defined.

(** ** The header, parsed *)

Section HeaderParse.

Lemma bit_length_lt_pow2 (v w : Z) :
  0 <= v < 2 ^ w -> 0 <= w -> Py.bit_length v <= w.
Proof.
  intros Hv Hw. unfold Py.bit_length. destruct (Z.eqb_spec v 0); [lia|].
  rewrite Z.abs_eq by lia. assert (Z.log2 v < w) by (apply Z.log2_lt_pow2; lia). lia.
Qed.

Lemma zfill_bin (v w : Z) :
  0 <= v < 2 ^ w -> 1 <= w ->
  Py.len (Py.zfill (Py.bin v) w) = w /\
  Py.int2_digits (Py.zfill (Py.bin v) w) = v.
Proof.
  intros Hv Hw. unfold Py.zfill.
  assert (Hlen : Py.len (Py.bin v) <= w /\ Py.int2_digits (Py.bin v) = v).
  { destruct v as [|p|p]; [cbn; lia| |lia]. cbn [Py.bin].
    rewrite len_bin_pos, int2_digits_bin_pos. split; [|reflexivity].
    apply bit_length_lt_pow2; lia. }
  destruct Hlen as [Hlen Hval]. pose proof (len_nonneg (Py.bin v)). split.
  - rewrite len_app. unfold Py.len in *. rewrite repeat_length. lia.
  - rewrite int2_digits_app, int2_digits_repeat_false. lia.
Qed.

Lemma ascii7 (c : ascii) :
  valid_char c ->
  Py.len (Py.zfill (Py.bin (Py.ord c)) 7) = 7 /\
  Py.int2 (Py.zfill (Py.bin (Py.ord c)) 7) = Ok (Py.ord c).
Proof.
  intros Hc. unfold valid_char in Hc.
  destruct (zfill_bin (Py.ord c) 7) as [H1 H2]; [change (2 ^ 7) with 128; lia|lia|].
  split; [assumption|]. unfold Py.int2.
  destruct (Py.zfill (Py.bin (Py.ord c)) 7); [discriminate H1|now rewrite H2].
Qed.

Lemma slice_here {A : Type} (pre mid rest : list A) (a b : Z) :
  a = Py.len pre -> b = a + Py.len mid ->
  Py.slice (pre ++ mid ++ rest) a b = mid.
Proof. intros -> ->. now apply slice_middle. Qed.

(** The table of the header is read back entry by entry. *)
Lemma decode_table_loop :
  forall cps pre rest unique_chars,
    Forall (fun cp => valid_char (fst cp) /\ snd cp <> []) cps ->
    Decompress.table_loop (length cps)
      (pre ++ concat (map table_entry cps) ++ rest) (Py.len pre) unique_chars
    = Ok (Py.len pre + Py.len (concat (map table_entry cps)), unique_chars ++ cps).
Proof.
  induction cps as [|[c p] cps IH]; intros pre rest unique_chars Hall.
  - cbn [length Decompress.table_loop map concat]. rewrite app_nil_r.
    change (Py.len []) with 0. now rewrite Z.add_0_r.
  - inversion Hall as [|? ? [Hc Hne] Hrest]; subst. cbn [fst snd] in *.
    cbn [length map concat Decompress.table_loop].
    change (table_entry (c, p))
      with (Py.zfill (Py.bin (Py.ord c)) 7 ++ elias_bits (Py.len p) ++ p).
    destruct (ascii7 c Hc) as [H7 Hint].
    set (a7 := Py.zfill (Py.bin (Py.ord c)) 7) in *.
    set (el := elias_bits (Py.len p)).
    set (more := concat (map table_entry cps)).
    rewrite <- !app_assoc.
    rewrite (slice_here pre a7) by lia. rewrite Hint. cbn [bind].
    rewrite chr_ord.
    replace (pre ++ a7 ++ el ++ p ++ more ++ rest)
      with ((pre ++ a7) ++ el ++ (p ++ more ++ rest)) by now rewrite <- !app_assoc.
    replace (Py.len pre + 7) with (Py.len (pre ++ a7)) by (rewrite len_app; lia).
    unfold el. rewrite elias_bits_decode by now apply len_pos_of_nonempty.
    fold el. cbn [bind].
    replace ((pre ++ a7) ++ el ++ p ++ more ++ rest)
      with (((pre ++ a7) ++ el) ++ p ++ (more ++ rest)) by now rewrite <- !app_assoc.
    rewrite (slice_here ((pre ++ a7) ++ el) p) by (rewrite ?len_app; lia).
    replace (Py.len (pre ++ a7) + Py.len el + Py.len p)
      with (Py.len ((((pre ++ a7) ++ el) ++ p))) by (rewrite !len_app; lia).
    replace (((pre ++ a7) ++ el) ++ p ++ more ++ rest)
      with ((((pre ++ a7) ++ el) ++ p) ++ more ++ rest) by now rewrite <- !app_assoc.
    unfold more. rewrite IH by assumption. fold more.
    f_equal. f_equal.
    + rewrite !len_app. lia.
    + now rewrite <- app_assoc.
Qed.

Lemma decode_header_spec (n : Z) (cps : list (ascii * list bool)) (rest : list bool) :
  1 <= n -> cps <> [] ->
  Forall (fun cp => valid_char (fst cp) /\ snd cp <> []) cps ->
  let header := elias_bits n ++ elias_bits (Py.len cps)
                ++ concat (map table_entry cps) in
  Decompress.decode_header (header ++ rest)
  = Ok (n, Py.len cps, Py.len header, cps).
Proof.
  intros Hn Hne Hall header. unfold Decompress.decode_header, header.
  pose proof (len_pos_of_nonempty _ Hne) as Hu.
  set (e1 := elias_bits n). set (e2 := elias_bits (Py.len cps)).
  set (tb := concat (map table_entry cps)).
  rewrite <- !app_assoc.
  pose proof (elias_bits_decode n [] (e2 ++ tb ++ rest) Hn) as H1.
  cbn [app] in H1. change (Py.len []) with 0 in H1. fold e1 in H1.
  rewrite H1. cbn [bind]. rewrite Z.add_0_l.
  pose proof (elias_bits_decode (Py.len cps) e1 (tb ++ rest) Hu) as H2.
  fold e2 in H2. rewrite H2. cbn [bind].
  replace (Z.to_nat (Py.len cps)) with (length cps) by (unfold Py.len; lia).
  replace (e1 ++ e2 ++ tb ++ rest) with ((e1 ++ e2) ++ tb ++ rest)
    by now rewrite <- app_assoc.
  replace (Py.len e1 + Py.len e2) with (Py.len (e1 ++ e2)) by now rewrite len_app.
  unfold tb. rewrite decode_table_loop by assumption. cbn [bind app].
  rewrite !len_app. rewrite Z.add_assoc. reflexivity.
Qed.

End HeaderParse.



(** ** The decoder's Huffman tree *)

Section Trie.

Lemma add_paths_left (p : option ascii) (b : node) :
  forall X a,
    add_paths (Node p a b) (map (fun cp => (fst cp, false :: snd cp)) X)
    = Node p (add_paths a X) b.
Proof.
  unfold add_paths. induction X as [|[c q] X IH]; intros a; [reflexivity|].
  cbn [map fold_left fst snd]. cbn [HuffmanDecoding.add_path HuffmanDecoding.ensure].
  apply IH.
Qed.

Lemma add_paths_right (p : option ascii) (a : node) :
  forall Y b,
    add_paths (Node p a b) (map (fun cp => (fst cp, true :: snd cp)) Y)
    = Node p a (add_paths b Y).
Proof.
  unfold add_paths. induction Y as [|[c q] Y IH]; intros b; [reflexivity|].
  cbn [map fold_left fst snd]. cbn [HuffmanDecoding.add_path HuffmanDecoding.ensure].
  apply IH.
Qed.

Lemma add_path_no_node (code : list bool) (c : ascii) :
  HuffmanDecoding.add_path NoNode code c
  = HuffmanDecoding.add_path HuffmanDecoding.fresh code c.
Proof. destruct code; reflexivity. Qed.

Lemma add_paths_no_node (X : list (ascii * list bool)) :
  X <> [] -> add_paths NoNode X = add_paths HuffmanDecoding.fresh X.
Proof.
  destruct X as [|[c q] X]; [contradiction|]. intros _. unfold add_paths.
  cbn [fold_left fst snd]. now rewrite add_path_no_node.
Qed.

Lemma codes_nonempty (t : ctree) : codes t <> [].
Proof.
  induction t as [c|l IHl r IHr]; cbn [codes]; [discriminate|].
  intros H. apply app_eq_nil in H. destruct H as [H _].
  apply map_eq_nil in H. contradiction.
Qed.

(** The tree the decoder builds from the table of a code tree. *)
Lemma add_paths_codes (t : ctree) :
  add_paths HuffmanDecoding.fresh (codes t) = node_of t.
Proof.
  induction t as [c|l IHl r IHr]; [reflexivity|].
  cbn [codes node_of]. unfold add_paths at 1. rewrite fold_left_app.
  fold (add_paths HuffmanDecoding.fresh
                  (map (fun cp => (fst cp, false :: snd cp)) (codes l))).
  unfold HuffmanDecoding.fresh at 1. rewrite add_paths_left.
  match goal with |- fold_left ?f ?ys ?n = _ => change (add_paths n ys = Node None (node_of l) (node_of r)) end.
  rewrite add_paths_right.
  rewrite !add_paths_no_node by apply codes_nonempty. now rewrite IHl, IHr.
Qed.

Lemma generate_huffman_tree_codes (t : ctree) :
  HuffmanDecoding.generate_huffman_tree (codes t) = node_of t.
Proof. exact (add_paths_codes t). Qed.

(** Walking down the tree along the code of a symbol finds the symbol. *)
Lemma walk_code (start_index : Z) (t : ctree) :
  forall c p rest k,
    In (c, p) (codes t) ->
    match t with
    | Leaf _ => True
    | Br _ _ =>
        HuffmanDecoding.walk (node_of t) (p ++ rest) k start_index
        = Ok (Some (c, k + Py.len p + start_index))
    end.
Proof.
  induction t as [c0|l IHl r IHr]; intros c p rest k Hin; [exact I|].
  assert (E : forall (b : bool) (q : list bool),
             k + 1 + Py.len q + start_index = k + Py.len (b :: q) + start_index)
    by (intros; unfold Py.len; cbn [length]; lia).
  cbn [codes] in Hin. apply in_app_or in Hin. rewrite !in_map_iff in Hin.
  destruct Hin as [([c' p'] & [= <- <-] & Hin)|([c' p'] & [= <- <-] & Hin)];
    cbn [fst snd app node_of HuffmanDecoding.walk].
  - specialize (IHl c' p' rest (k + 1) Hin). destruct l as [cl|ll lr].
    + cbn [codes] in Hin. destruct Hin as [[= <- <-]|[]]. cbn [node_of].
      reflexivity.
    + cbn [node_of] in *. rewrite IHl, (E false). reflexivity.
  - specialize (IHr c' p' rest (k + 1) Hin). destruct r as [cr|rl rr].
    + cbn [codes] in Hin. destruct Hin as [[= <- <-]|[]]. cbn [node_of].
      reflexivity.
    + cbn [node_of] in *. rewrite IHr, (E true). reflexivity.
Qed.

(** On such a tree the walk never steps to an absent child. *)
Lemma walk_total (start_index : Z) :
  forall bits l r k,
    exists res, HuffmanDecoding.walk (node_of (Br l r)) bits k start_index = Ok res.
Proof.
  induction bits as [|b bits IH]; intros l r k; [eexists; reflexivity|].
  cbn [node_of HuffmanDecoding.walk]. destruct b.
  - destruct r as [c|rl rr]; cbn [node_of]; [eexists; reflexivity|].
    apply (IH rl rr).
  - destruct l as [c|ll lr]; cbn [node_of]; [eexists; reflexivity|].
    apply (IH ll lr).
Qed.

Lemma walk_bounds (start_index : Z) :
  forall bits n k c e,
    HuffmanDecoding.walk n bits k start_index = Ok (Some (c, e)) ->
    k + 1 + start_index <= e <= k + Py.len bits + start_index.
Proof.
  induction bits as [|b bits IH]; intros n k c e H; [discriminate|].
  cbn [HuffmanDecoding.walk] in H. destruct n as [|p c0 c1]; [discriminate|].
  unfold Py.len in *. cbn [length].
  destruct (if b then c1 else c0) as [|[p'|] a1 a2]; [discriminate| |].
  - injection H as _ <-. lia.
  - apply IH in H. lia.
Qed.

End Trie.

(** ** The payload, read back *)

Section Payload.

Lemma decoding_loop_end (fuel : nat) :
  forall bits i e v d x e',
    1 <= v -> i < e ->
    EliasDecoding.loop fuel bits i e v d = Ok (x, e') -> i < e'.
Proof.
  induction fuel as [|fuel IH]; intros bits i e v d x e' Hv He H;
    cbn [EliasDecoding.loop] in H;
    destruct (i <? Py.len bits); try discriminate;
    try (injection H as _ <-; assumption).
  destruct (nth_error bits (Z.to_nat i)) as [[|]|]; try discriminate.
  - injection H as _ <-. assumption.
  - pose proof (int2_digits_bound (true :: Py.slice bits (i + 1) e)).
    apply IH in H; lia.
Qed.

Lemma elias_decode_end (bits : list bool) (s x e : Z) :
  EliasDecoding.decode bits s = Ok (x, e) -> s < e.
Proof.
  unfold EliasDecoding.decode. intros H. apply decoding_loop_end in H; lia.
Qed.

Lemma huffman_decode_end (tree : node) (bits : list bool) (s : Z) (c : ascii) (e : Z) :
  HuffmanDecoding.decode tree bits s = Ok (Some (c, e)) -> s < e.
Proof.
  unfold HuffmanDecoding.decode. intros H. apply walk_bounds in H. lia.
Qed.

Lemma data_loop_fuel (f1 : nat) :
  forall f2 tree bits end_index acc,
    Py.len bits - end_index <= Z.of_nat f1 ->
    Py.len bits - end_index <= Z.of_nat f2 ->
    Decompress.data_loop f1 tree bits end_index acc
    = Decompress.data_loop f2 tree bits end_index acc.
Proof.
  induction f1 as [|f1 IH]; intros f2 tree bits end_index acc H1 H2.
  - cbn [Decompress.data_loop]. destruct (Z.ltb_spec end_index (Py.len bits)); [lia|].
    destruct f2; cbn [Decompress.data_loop];
      destruct (Z.ltb_spec end_index (Py.len bits)); try lia; reflexivity.
  - destruct f2 as [|f2]; cbn [Decompress.data_loop];
      destruct (Z.ltb_spec end_index (Py.len bits)) as [Hlt|Hge]; try lia;
      try reflexivity.
    destruct (HuffmanDecoding.decode tree bits end_index) as [[[c e1]|]| |] eqn:Hd;
      cbn [bind]; try reflexivity.
    apply huffman_decode_end in Hd.
    destruct (EliasDecoding.decode bits e1) as [[cnt e2]| |] eqn:He;
      cbn [bind]; try reflexivity.
    apply elias_decode_end in He. apply IH; lia.
Qed.

Lemma data_run_step (tree : node) (bits : list bool) (end_index : Z)
      (acc : list ascii) (c : ascii) (e1 cnt e2 : Z) :
  0 <= end_index < Py.len bits ->
  HuffmanDecoding.decode tree bits end_index = Ok (Some (c, e1)) ->
  EliasDecoding.decode bits e1 = Ok (cnt, e2) ->
  data_run tree bits end_index acc
  = data_run tree bits e2 (acc ++ repeat c (Z.to_nat cnt)).
Proof.
  intros Hlt Hd He. unfold data_run.
  rewrite (data_loop_fuel _ (S (length bits))) by (unfold Py.len in *; lia).
  cbn [Decompress.data_loop].
  destruct (Z.ltb_spec end_index (Py.len bits)); [|lia].
  rewrite Hd. cbn [bind]. rewrite He. reflexivity.
Qed.

Lemma data_run_end (tree : node) (bits : list bool) (end_index : Z)
      (acc : list ascii) :
  Py.len bits <= end_index -> data_run tree bits end_index acc = Ok acc.
Proof.
  intros H. unfold data_run. destruct (length bits); cbn [Decompress.data_loop];
    destruct (Z.ltb_spec end_index (Py.len bits)); try lia; reflexivity.
Qed.

Lemma slice_from_app {A : Type} (pre rest : list A) :
  Py.slice_from (pre ++ rest) (Py.len pre) = rest.
Proof.
  unfold Py.slice_from, Py.len. rewrite Nat2Z.id, skipn_app, skipn_all, Nat.sub_diag.
  reflexivity.
Qed.

Context (l r : ctree) (code : ascii -> list bool).

(** The runs written by the compressor are read back one by one. *)
Lemma data_run_runs :
  forall runs pre rest acc,
    Forall (fun rn => In (fst rn, code (fst rn)) (codes (Br l r)) /\ 1 <= snd rn) runs ->
    data_run (node_of (Br l r)) (pre ++ concat (map (run_bits code) runs) ++ rest)
             (Py.len pre) acc
    = data_run (node_of (Br l r)) (pre ++ concat (map (run_bits code) runs) ++ rest)
               (Py.len pre + Py.len (concat (map (run_bits code) runs)))
               (acc ++ expand runs).
Proof.
  induction runs as [|[c k] runs IH]; intros pre rest acc Hall.
  - cbn [map concat expand]. unfold expand. cbn [map concat].
    change (Py.len []) with 0. now rewrite Z.add_0_r, app_nil_r.
  - inversion Hall as [|? ? [Hin Hk] Hrest]; subst. cbn [fst snd] in *.
    cbn [map concat]. unfold run_bits at 1 3 5. cbn [fst snd].
    set (p := code c) in *. set (el := elias_bits k).
    set (more := concat (map (run_bits code) runs)).
    set (bits := pre ++ ((p ++ el) ++ more) ++ rest).
    assert (Hb1 : bits = pre ++ p ++ (el ++ more ++ rest))
      by (unfold bits; now rewrite <- !app_assoc).
    assert (Hb2 : bits = (pre ++ p) ++ el ++ (more ++ rest))
      by (unfold bits; now rewrite <- !app_assoc).
    assert (Hb3 : bits = ((pre ++ p) ++ el) ++ more ++ rest)
      by (unfold bits; now rewrite <- !app_assoc).
    assert (Hp : p <> []).
    { pose proof (codes_branch_nonempty l r) as Hne. rewrite Forall_forall in Hne.
      exact (Hne _ Hin). }
    assert (Hd : HuffmanDecoding.decode (node_of (Br l r)) bits (Py.len pre)
                 = Ok (Some (c, Py.len (pre ++ p)))).
    { unfold HuffmanDecoding.decode. rewrite Hb1, slice_from_app.
      rewrite (walk_code (Py.len pre) (Br l r) c p _ 0 Hin). rewrite len_app.
      do 3 f_equal. lia. }
    assert (He : EliasDecoding.decode bits (Py.len (pre ++ p))
                 = Ok (k, Py.len ((pre ++ p) ++ el))).
    { rewrite Hb2. unfold el. rewrite elias_bits_decode by assumption.
      now rewrite <- len_app. }
    assert (Hlt : 0 <= Py.len pre < Py.len bits).
    { rewrite Hb1, !len_app. pose proof (len_pos_of_nonempty _ Hp).
      pose proof (len_nonneg (el ++ more ++ rest)). pose proof (len_nonneg pre).
      rewrite !len_app in *. lia. }
    rewrite (data_run_step _ _ _ _ _ _ _ _ Hlt Hd He).
    rewrite Hb3. unfold more. rewrite IH by assumption. fold more.
    f_equal.
    + rewrite !len_app. lia.
    + unfold expand. cbn [map concat fst snd]. now rewrite <- app_assoc.
Qed.

(** What is left after the runs, when it is at most a few zeros, adds
    nothing. *)
Lemma data_run_padding (pre : list bool) (k : nat) (acc : list ascii) :
  data_run (node_of (Br l r)) (pre ++ repeat false k) (Py.len pre) acc = Ok acc.
Proof.
  set (bits := pre ++ repeat false k).
  destruct k as [|k].
  { apply data_run_end. unfold bits. rewrite app_nil_r. lia. }
  assert (Hlt : 0 <= Py.len pre < Py.len bits).
  { unfold bits. rewrite len_app. unfold Py.len. rewrite repeat_length. lia. }
  destruct (walk_total (Py.len pre) (repeat false (S k)) l r 0) as [res Hres].
  assert (Hd : HuffmanDecoding.decode (node_of (Br l r)) bits (Py.len pre) = Ok res).
  { unfold HuffmanDecoding.decode, bits. now rewrite slice_from_app. }
  destruct res as [[c e1]|].
  - pose proof Hres as Hb. apply walk_bounds in Hb.
    destruct (elias_decode_zeros bits e1) as (e2 & He & Hgt); [lia| |].
    + intros j Hj. unfold bits. rewrite nth_error_app2 by (unfold Py.len in *; lia).
      intros Hn. apply nth_error_In in Hn. apply repeat_spec in Hn. discriminate.
    + rewrite (data_run_step _ _ _ _ _ _ _ _ Hlt Hd He).
      cbn [Z.to_nat repeat]. rewrite app_nil_r. apply data_run_end. lia.
  - unfold data_run.
    rewrite (data_loop_fuel _ (S (length bits))) by (unfold Py.len in *; lia).
    cbn [Decompress.data_loop].
    destruct (Z.ltb_spec (Py.len pre) (Py.len bits)); [|lia].
    rewrite Hd. reflexivity.
Qed.

End Payload.

(** ** Packing the bits into bytes *)

Section Bytes.

Lemma read_app (f g : list Z) :
  Decompress.read (f ++ g) = Decompress.read f ++ Decompress.read g.
Proof. unfold Decompress.read. now rewrite map_app, concat_app. Qed.

Lemma read_byte_of (byte : list bool) :
  length byte = 8%nat ->
  Py.int2 byte = Ok (Py.int2_digits byte) /\
  Decompress.read [Py.int2_digits byte] = byte.
Proof.
  intros H8. split.
  - destruct byte; [discriminate H8|reflexivity].
  - unfold Decompress.read. cbn [map concat]. rewrite app_nil_r.
    replace 8 with (Py.len byte) by (unfold Py.len; lia).
    apply zfill_bin_digits. intros ->. discriminate H8.
Qed.

Lemma write_loop_spec (fuel : nat) :
  forall to_write file,
    (length to_write <= fuel)%nat ->
    exists bytes rem,
      Compress.write_loop fuel to_write file = Ok (rem, file ++ bytes) /\
      Decompress.read bytes ++ rem = to_write /\
      (length rem < 8)%nat.
Proof.
  induction fuel as [|fuel IH]; intros to_write file Hf;
    cbn [Compress.write_loop]; destruct (Z.leb_spec 8 (Py.len to_write)) as [H8|H8];
    unfold Py.len in H8.
  - lia.
  - exists [], to_write. rewrite app_nil_r. split; [reflexivity|].
    split; [reflexivity|lia].
  - set (byte := Py.slice to_write 0 8). set (rest := Py.slice_from to_write 8).
    assert (Hsplit : to_write = byte ++ rest).
    { unfold byte, rest, Py.slice, Py.slice_from. cbn [Z.to_nat Z.sub skipn].
      symmetry. apply firstn_skipn. }
    assert (Hb : length byte = 8%nat).
    { unfold byte, Py.slice. cbn [Z.to_nat Z.sub skipn].
      rewrite firstn_length_le; [reflexivity|lia]. }
    destruct (read_byte_of byte Hb) as [Hint Hread].
    rewrite Hint. cbn [bind].
    destruct (IH rest (file ++ [Py.int2_digits byte])) as (bytes & rem & Hw & Hr & Hlt).
    { apply (f_equal (@length _)) in Hsplit. rewrite length_app in Hsplit. lia. }
    exists (Py.int2_digits byte :: bytes), rem. split.
    + rewrite Hw. now rewrite <- app_assoc.
    + split; [|assumption].
      change (Py.int2_digits byte :: bytes) with ([Py.int2_digits byte] ++ bytes).
      rewrite read_app, Hread, <- app_assoc, Hr. now symmetry.
  - exists [], to_write. rewrite app_nil_r. split; [reflexivity|].
    split; [reflexivity|lia].
Qed.

(** The bits read back from the written bytes are the bits written,
    followed by at most seven zeros. *)
Lemma write_read (to_write : list bool) :
  exists file k,
    Compress.write to_write = Ok file /\
    Decompress.read file = to_write ++ repeat false k /\ (k < 8)%nat.
Proof.
  unfold Compress.write.
  destruct (write_loop_spec (length to_write) to_write [] (le_n _))
    as (bytes & rem & Hw & Hr & Hlt).
  rewrite Hw. cbn [bind app].
  destruct (Z.ltb_spec 0 (Py.len rem)) as [Hpos|Hzero].
  - set (k := Z.to_nat (8 - Py.len rem)).
    assert (Hb : length (rem ++ repeat false k) = 8%nat).
    { rewrite length_app, repeat_length. unfold k, Py.len in *. lia. }
    destruct (read_byte_of _ Hb) as [Hint Hread].
    rewrite Hint. cbn [bind]. exists (bytes ++ [Py.int2_digits (rem ++ repeat false k)]), k.
    split; [reflexivity|]. rewrite read_app, Hread, app_assoc, Hr.
    split; [reflexivity|]. unfold k, Py.len in *. lia.
  - exists bytes, 0%nat. split; [reflexivity|]. cbn [repeat]. rewrite app_nil_r.
    destruct rem; [|unfold Py.len in Hzero; cbn [length] in Hzero; lia].
    rewrite app_nil_r in Hr. split; [assumption|lia].
Qed.

End Bytes.

(** ** The forward transform and the runs of its result *)

Section BwtBasics.

Lemma bwt_loop_spec (text : list ascii) :
  text <> [] ->
  forall suffix_array bwt_string,
    exists s,
      BWT_Encoding.bwt_loop text suffix_array bwt_string = Ok (bwt_string ++ s) /\
      Forall2 (fun y c =>
                 nth_error text (Z.to_nat ((y + Py.len text - 2) mod Py.len text))
                 = Some c) suffix_array s.
Proof.
  intros Hne. induction suffix_array as [|y sa IH]; intros bwt_string.
  - exists []. rewrite app_nil_r. split; [reflexivity|constructor].
  - cbn [BWT_Encoding.bwt_loop].
    pose proof (len_pos_of_nonempty _ Hne) as Hn.
    pose proof (Z.mod_pos_bound (y + Py.len text - 2) (Py.len text) ltac:(lia)) as Hm.
    destruct (nth_error text (Z.to_nat ((y + Py.len text - 2) mod Py.len text)))
      as [c|] eqn:Hc; [|apply nth_error_None in Hc; unfold Py.len in *; lia].
    rewrite (get_ok _ _ _ (proj1 Hm) Hc). cbn [bind].
    destruct (IH (bwt_string ++ [c])) as (s & Hs & HF).
    exists (c :: s). rewrite Hs, <- app_assoc. split; [reflexivity|].
    constructor; assumption.
Qed.

Lemma runs_from_symbols :
  forall s k, Forall (fun rn => In (fst rn) s) (Compress.runs_from s k).
Proof.
  induction s as [|c [|d s'] IH]; intros k.
  - constructor.
  - cbn [Compress.runs_from]. constructor; [now left|constructor].
  - rewrite runs_from_cons2. destruct (Py.char_eqb c d).
    + eapply Forall_impl; [|apply IH]. intros rn H. now right.
    + constructor; [now left|].
      eapply Forall_impl; [|apply IH]. intros rn H. now right.
Qed.

Lemma runs_expand (s : list ascii) : expand (Compress.runs s) = s.
Proof.
  destruct s as [|c s]; [reflexivity|]. unfold expand, Compress.runs.
  rewrite runs_from_expand by lia. reflexivity.
Qed.

Lemma emit_all_spec (character : list cell) :
  forall runs to_write,
    Forall (fun rn => valid_char (fst rn) /\ 1 <= snd rn /\
                      exists p, nth_error character (index_of (fst rn)) = Some (Code p))
           runs ->
    emit_all character runs to_write
    = Ok (to_write ++ concat (map (run_bits (code_in character)) runs)).
Proof.
  induction runs as [|[c k] runs IH]; intros to_write Hall; cbn [emit_all map concat].
  - now rewrite app_nil_r.
  - inversion Hall as [|? ? (Hc & Hk & p & Hp) Hrest]; subst. cbn [fst snd] in *.
    unfold Compress.emit. rewrite (code_of_ok _ _ _ Hc Hp). cbn [bind].
    rewrite (elias_bits_ok k Hk). cbn [bind]. rewrite IH by assumption.
    unfold run_bits at 2, code_in. cbn [fst snd]. rewrite (code_of_ok _ _ _ Hc Hp).
    now rewrite <- !app_assoc.
Qed.

End BwtBasics.

(** ** The whole bit string, and the payload read from it *)

Section Stream.

Lemma suffixes_length (text : list ascii) :
  forall i, length (SuffixArray.suffixes text i) = length text.
Proof.
  induction text as [|c text IH]; intros i; cbn [SuffixArray.suffixes length];
    [reflexivity|]. now rewrite IH.
Qed.

Lemma suffix_array_length (text : list ascii) :
  length (SuffixArray.naive_suffix_array text) = length text.
Proof.
  unfold SuffixArray.naive_suffix_array.
  now rewrite length_map, sort_length, suffixes_length.
Qed.

(** The forward transform returns a string as long as the text, made of
    characters of the text. *)
Lemma bwt_total (text : list ascii) :
  text <> [] ->
  exists bwt_string,
    BWT_Encoding.bwt text = Ok bwt_string /\
    length bwt_string = length text /\
    Forall (fun c => In c text) bwt_string.
Proof.
  intros Hne. unfold BWT_Encoding.bwt.
  destruct (bwt_loop_spec text Hne (SuffixArray.naive_suffix_array text) [])
    as (s & Hs & HF).
  exists s. split; [exact Hs|]. split.
  - rewrite <- (Forall2_length HF). apply suffix_array_length.
  - clear Hs. induction HF as [|y c sa s Hc _ IH]; constructor; [|assumption].
    eapply nth_error_In; eassumption.
Qed.

(** The bit string of a valid text: header, then the runs of the
    transformed text. *)
Lemma bitstream_spec (text : list ascii) :
  valid_text text ->
  exists character w l r bwt_string,
    let t := Br l r in
    let text' := text ++ ["$"%char] in
    Compress.header text'
    = Ok ((character, [(w, leaves t)]), header_bits (Py.len text') t) /\
    BWT_Encoding.bwt text' = Ok bwt_string /\
    length bwt_string = length text' /\
    Compress.bitstream text
    = Ok (header_bits (Py.len text') t
          ++ concat (map (run_bits (code_in character)) (Compress.runs bwt_string))) /\
    NoDup (leaves t) /\
    (forall c, In c (leaves t) <-> In c text') /\
    Forall (fun cp => valid_char (fst cp) /\ snd cp <> []) (codes t) /\
    Forall (fun rn => In (fst rn, code_in character (fst rn)) (codes t) /\ 1 <= snd rn)
           (Compress.runs bwt_string).
Proof.
  intros Hvt. destruct (header_spec text Hvt)
    as (character & w & l & r & Hhdr & Hlen & Hnd & Hin & Hall).
  cbv zeta in *.
  assert (Hne : text ++ ["$"%char] <> []) by (destruct text; discriminate).
  destruct (bwt_total _ Hne) as (bwt_string & Hbwt & Hblen & Hbin).
  exists character, w, l, r, bwt_string.
  assert (Hbne : bwt_string <> []).
  { intros ->. destruct text; discriminate Hblen. }
  assert (Hruns : Forall (fun rn => In (fst rn) (leaves (Br l r)) /\ 1 <= snd rn)
                         (Compress.runs bwt_string)).
  { pose proof (runs_from_symbols bwt_string 1) as H1.
    pose proof (runs_from_positive bwt_string 1 (Z.le_refl 1)) as H2.
    unfold Compress.runs. rewrite Forall_forall in *. intros rn Hrn.
    split; [|now apply H2]. apply Hin. apply Hbin. now apply H1. }
  assert (Hcode : forall c, In c (leaves (Br l r)) ->
                            valid_char c /\
                            In (c, code_in character c) (codes (Br l r)) /\
                            nth_error character (index_of c)
                            = Some (Code (code_in character c))).
  { intros c Hc. rewrite <- codes_leaves in Hc. apply in_map_iff in Hc.
    destruct Hc as ([c' p] & <- & Hcp). rewrite Forall_forall in Hall.
    destruct (Hall _ Hcp) as (Hv & _ & Hcl). cbn [fst snd] in *.
    unfold code_in. rewrite (code_of_ok _ _ _ Hv Hcl). auto. }
  split; [exact Hhdr|]. split; [assumption|]. split; [assumption|]. split.
  { unfold Compress.bitstream. rewrite Hhdr. cbn [bind fst].
    rewrite (message_emits_runs _ _ _ _ Hbwt Hbne). apply emit_all_spec.
    eapply Forall_impl; [|exact Hruns]. intros rn [Hrn Hk].
    destruct (Hcode _ Hrn) as (Hv & _ & Hcl). eauto. }
  split; [assumption|]. split; [assumption|]. split.
  { eapply Forall_impl; [|exact Hall]. intros cp (H1 & H2 & _). now split. }
  eapply Forall_impl; [|exact Hruns]. intros rn [Hrn Hk].
  destruct (Hcode _ Hrn) as (_ & Hc & _). now split.
Qed.

(** The decompressor on the bytes of a valid text up to the inverse
    transform: the header is read, and the payload gives the transformed
    text whatever the padding. *)
Lemma decompress_to_bwt (text : list ascii) :
  valid_text text ->
  exists file bit_string k text_length no_unique end_index unique_chars bwt_string,
    Compress.compress text = Ok file /\
    Compress.bitstream text = Ok bit_string /\
    Decompress.read file = bit_string ++ repeat false k /\
    (k < 8)%nat /\
    Decompress.decode_header (Decompress.read file)
    = Ok (text_length, no_unique, end_index, unique_chars) /\
    BWT_Encoding.bwt (text ++ ["$"%char]) = Ok bwt_string /\
    length bwt_string = S (length text) /\
    Decompress.decode_data (HuffmanDecoding.generate_huffman_tree unique_chars)
                           (Decompress.read file) end_index
    = Ok bwt_string.
Proof.
  intros Hvt. destruct (bitstream_spec text Hvt)
    as (character & w & l & r & bwt_string & Hhdr & Hbwt & Hblen & Hbits & Hnd
        & Hin & Hcodes & Hruns).
  cbv zeta in *. set (t := Br l r) in *. set (text' := text ++ ["$"%char]) in *.
  set (hdr := header_bits (Py.len text') t) in *.
  set (payload := concat (map (run_bits (code_in character)) (Compress.runs bwt_string))) in *.
  destruct (write_read (hdr ++ payload)) as (file & k & Hw & Hr & Hk).
  exists file, (hdr ++ payload), k.
  assert (Hn : 1 <= Py.len text').
  { unfold text'. rewrite len_app. pose proof (len_nonneg text).
    change (Py.len ["$"%char]) with 1. lia. }
  pose proof (decode_header_spec (Py.len text') (codes t)
                (payload ++ repeat false k) Hn (codes_nonempty t) Hcodes) as Hdh.
  cbv zeta in Hdh. fold (header_bits (Py.len text') t) in Hdh. fold hdr in Hdh.
  exists (Py.len text'), (Py.len (codes t)), (Py.len hdr), (codes t), bwt_string.
  split; [unfold Compress.compress; rewrite Hbits; exact Hw|].
  split; [assumption|]. split; [assumption|]. split; [assumption|].
  rewrite Hr, <- app_assoc. split; [exact Hdh|]. split; [assumption|]. split.
  { rewrite Hblen. unfold text'. rewrite length_app. cbn [length]. lia. }
  rewrite generate_huffman_tree_codes. unfold Decompress.decode_data.
  fold (data_run (node_of t) (hdr ++ payload ++ repeat false k) (Py.len hdr) []).
  unfold payload, t. rewrite data_run_runs by assumption.
  fold payload. fold t.
  replace (hdr ++ payload ++ repeat false k) with ((hdr ++ payload) ++ repeat false k)
    by now rewrite <- app_assoc.
  rewrite <- len_app. unfold t. rewrite data_run_padding.
  cbn [app]. now rewrite runs_expand.
Qed.

End Stream.

(** C9: where no bit from the start index onward is a one, the Elias
    decoder returns the value 0; and on the bytes the compressor writes for a
    valid text, whose bit string is followed by at most seven zero bits of
    padding, the payload loop of the decompressor rebuilds exactly the
    transformed text: the padding adds no symbol to it. *)
Theorem padding_adds_nothing :
  (forall bits start_index,
      0 <= start_index -> no_one_from bits start_index ->
      exists e, EliasDecoding.decode bits start_index = Ok (0, e)) /\
  (forall text,
      valid_text text ->
      exists file bit_string k text_length no_unique end_index unique_chars bwt_string,
        Compress.compress text = Ok file /\
        Compress.bitstream text = Ok bit_string /\
        Decompress.read file = bit_string ++ repeat false k /\
        (k < 8)%nat /\
        Decompress.decode_header (Decompress.read file)
        = Ok (text_length, no_unique, end_index, unique_chars) /\
        BWT_Encoding.bwt (text ++ ["$"%char]) = Ok bwt_string /\
        Decompress.decode_data (HuffmanDecoding.generate_huffman_tree unique_chars)
                               (Decompress.read file) end_index
        = Ok bwt_string).
Proof.
  split.
  - intros bits start_index Hs Hz.
    destruct (elias_decode_zeros bits start_index Hs Hz) as (e & He & _). eauto.
  - intros text Hvt.
    destruct (decompress_to_bwt text Hvt)
      as (file & bs & k & n & u & e & uc & bwt & H1 & H2 & H3 & H4 & H5 & H6 & _ & H8).
    exists file, bs, k, n, u, e, uc, bwt. auto 10.
Qed.

Lemma padding_adds_nothing_witness :
  (exists e, EliasDecoding.decode (bits_of_string "1000") 1 = Ok (0, e)) /\
  (exists file bit_string k text_length no_unique end_index unique_chars bwt_string,
      Compress.compress (text_of "a") = Ok file /\
      Compress.bitstream (text_of "a") = Ok bit_string /\
      Decompress.read file = bit_string ++ repeat false k /\
      (k < 8)%nat /\
      Decompress.decode_header (Decompress.read file)
      = Ok (text_length, no_unique, end_index, unique_chars) /\
      BWT_Encoding.bwt (text_of "a" ++ ["$"%char]) = Ok bwt_string /\
      Decompress.decode_data (HuffmanDecoding.generate_huffman_tree unique_chars)
                             (Decompress.read file) end_index
      = Ok bwt_string).
Proof.
  split.
  - apply (proj1 padding_adds_nothing (bits_of_string "1000") 1); [lia|].
    intros k Hk. destruct (Z.to_nat k) as [|[|[|[|n]]]] eqn:E; try lia; cbn;
      try discriminate. destruct n; discriminate.
  - apply (proj2 padding_adds_nothing (text_of "a")).
    apply valid_textb_ok. reflexivity.
Defined.

(** ** Sorting *)

Section Sorting.
Context {A : Type} (ltb : A -> A -> bool).
Hypothesis ltb_asym : forall x y, ltb x y = true -> ltb y x = false.
Hypothesis ltb_negtrans :
  forall x y z, ltb y x = false -> ltb z y = false -> ltb z x = false.

Let le (x y : A) : Prop := ltb y x = false.

Lemma insert_sorted (x : A) (l : list A) :
  StronglySorted le l -> StronglySorted le (Py.insert ltb x l).
Proof.
  induction 1 as [|y l Hs IH Hall]; cbn [Py.insert].
  - constructor; constructor.
  - destruct (ltb y x) eqn:Hyx.
    + constructor; [assumption|].
      eapply Permutation_Forall; [symmetry; apply insert_perm|].
      constructor; [|assumption]. unfold le. now apply ltb_asym.
    + constructor; [now constructor|]. constructor; [exact Hyx|].
      eapply Forall_impl; [|exact Hall]. intros z Hz. unfold le in *.
      now apply (ltb_negtrans x y z).
Qed.

Lemma sort_sorted (l : list A) : StronglySorted le (Py.sort ltb l).
Proof.
  induction l as [|x l IH]; cbn [Py.sort]; [constructor|].
  now apply insert_sorted.
Qed.

End Sorting.

(** ** Counting *)

Section Counting.
Context {A : Type}.

Lemma countb_cons (f : A -> bool) (x : A) (l : list A) :
  countb f (x :: l) = ((if f x then 1 else 0) + countb f l)%nat.
Proof. unfold countb. cbn [filter]. destruct (f x); reflexivity. Qed.

Lemma countb_app (f : A -> bool) (l1 l2 : list A) :
  countb f (l1 ++ l2) = (countb f l1 + countb f l2)%nat.
Proof. unfold countb. now rewrite filter_app, length_app. Qed.

Lemma countb_perm (f : A -> bool) (l1 l2 : list A) :
  Permutation l1 l2 -> countb f l1 = countb f l2.
Proof.
  induction 1 as [|x l l' _ IH|x y l|l l' l'' _ IH1 _ IH2];
    rewrite ?countb_cons; lia.
Qed.

Lemma countb_ext (f g : A -> bool) (l : list A) :
  (forall x, In x l -> f x = g x) -> countb f l = countb g l.
Proof.
  induction l as [|x l IH]; intros H; [reflexivity|].
  rewrite !countb_cons, H by now left. rewrite IH; [reflexivity|].
  intros y Hy. apply H. now right.
Qed.

Lemma countb_map {B : Type} (g : B -> A) (f : A -> bool) (l : list B) :
  countb f (map g l) = countb (fun x => f (g x)) l.
Proof.
  unfold countb. induction l as [|x l IH]; [reflexivity|]. cbn [map filter].
  destruct (f (g x)); cbn [length]; now rewrite IH.
Qed.

Lemma countb_false (f : A -> bool) (l : list A) :
  (forall x, In x l -> f x = false) -> countb f l = 0%nat.
Proof.
  induction l as [|x l IH]; intros H; [reflexivity|].
  rewrite countb_cons, H by now left. rewrite IH; [reflexivity|].
  intros y Hy. apply H. now right.
Qed.

Lemma countb_true (f : A -> bool) (l : list A) :
  (forall x, In x l -> f x = true) -> countb f l = length l.
Proof.
  induction l as [|x l IH]; intros H; [reflexivity|].
  rewrite countb_cons, H by now left. rewrite IH; [reflexivity|].
  intros y Hy. apply H. now right.
Qed.

Lemma countb_split (f g h : A -> bool) (l : list A) :
  (forall x, In x l -> f x = g x || h x) ->
  (forall x, In x l -> g x = true -> h x = false) ->
  countb f l = (countb g l + countb h l)%nat.
Proof.
  induction l as [|x l IH]; intros H1 H2; [reflexivity|].
  rewrite !countb_cons, IH.
  - rewrite (H1 x) by now left. specialize (H2 x (or_introl eq_refl)).
    destruct (g x); [rewrite H2 by reflexivity|]; cbn [orb]; destruct (h x); lia.
  - intros y Hy. apply H1. now right.
  - intros y Hy. apply H2. now right.
Qed.

(** In a list sorted strictly, the items smaller than the one at index
    [k] are the [k] items before it. *)
Lemma countb_sorted_position (ltb : A -> A -> bool) (l : list A) :
  (forall x, ltb x x = false) ->
  (forall x y, ltb x y = true -> ltb y x = false) ->
  StronglySorted (fun x y => ltb x y = true) l ->
  forall k x, nth_error l k = Some x ->
              countb (fun y => ltb y x) l = k /\
              forall g, countb g (firstn k l)
                        = countb (fun y => g y && ltb y x) l.
Proof.
  intros Hirr Hasym. induction 1 as [|y l Hs IH Hall]; intros k x Hk.
  - destruct k; discriminate.
  - rewrite Forall_forall in Hall. destruct k as [|k]; cbn [nth_error] in Hk.
    + injection Hk as <-. split.
      * rewrite countb_cons, Hirr. apply countb_false. intros z Hz.
        apply Hasym. now apply Hall.
      * intros g. cbn [firstn]. symmetry. apply countb_false. intros z [<-|Hz].
        -- rewrite Hirr. apply andb_false_r.
        -- rewrite (Hasym _ _ (Hall z Hz)). apply andb_false_r.
    + destruct (IH k x Hk) as [IH1 IH2]. pose proof (nth_error_In _ _ Hk) as Hin.
      split.
      * rewrite countb_cons, (Hall x Hin), IH1. reflexivity.
      * intros g. cbn [firstn]. rewrite !countb_cons, (Hall x Hin), IH2, andb_true_r.
        reflexivity.
Qed.

End Counting.

(** ** The order on strings *)

Section StringOrder.

Lemma char_ltb_lt (a b : ascii) : Py.char_ltb a b = true <-> Py.ord a < Py.ord b.
Proof. unfold Py.char_ltb. apply Z.ltb_lt. Qed.

Lemma char_ltb_ge (a b : ascii) : Py.char_ltb a b = false <-> Py.ord b <= Py.ord a.
Proof. unfold Py.char_ltb. rewrite Z.ltb_ge. reflexivity. Qed.

Lemma str_ltb_cons (a b : ascii) (s t : list ascii) :
  Py.str_ltb (a :: s) (b :: t)
  = Py.char_ltb a b || (Py.char_eqb a b && Py.str_ltb s t).
Proof.
  cbn [Py.str_ltb]. unfold Py.char_ltb, Py.char_eqb.
  destruct (Z.ltb_spec (Py.ord a) (Py.ord b)); [reflexivity|].
  destruct (Z.ltb_spec (Py.ord b) (Py.ord a)); destruct (Z.eqb_spec (Py.ord a) (Py.ord b));
    try lia; reflexivity.
Qed.

Lemma str_ltb_nil_r (s : list ascii) : Py.str_ltb s [] = false.
Proof. destruct s; reflexivity. Qed.

Lemma str_ltb_irrefl (s : list ascii) : Py.str_ltb s s = false.
Proof.
  induction s as [|a s IH]; [reflexivity|]. rewrite str_ltb_cons, IH.
  unfold Py.char_ltb. rewrite Z.ltb_irrefl. now rewrite andb_false_r.
Qed.

Lemma str_ltb_trans :
  forall s t u, Py.str_ltb s t = true -> Py.str_ltb t u = true ->
                Py.str_ltb s u = true.
Proof.
  induction s as [|a s IH]; intros [|b t] [|c u] H1 H2;
    try discriminate; try reflexivity;
    try (rewrite str_ltb_nil_r in *; discriminate).
  rewrite str_ltb_cons in *. unfold Py.char_ltb, Py.char_eqb in *.
  destruct (Z.ltb_spec (Py.ord a) (Py.ord b)); destruct (Z.ltb_spec (Py.ord b) (Py.ord c));
    destruct (Z.ltb_spec (Py.ord a) (Py.ord c)); try reflexivity; try lia;
    destruct (Z.eqb_spec (Py.ord a) (Py.ord b)); destruct (Z.eqb_spec (Py.ord b) (Py.ord c));
    destruct (Z.eqb_spec (Py.ord a) (Py.ord c)); cbn [orb andb] in *;
    try discriminate; try lia.
  now apply (IH t u).
Qed.

Lemma str_ltb_asym (s t : list ascii) :
  Py.str_ltb s t = true -> Py.str_ltb t s = false.
Proof.
  intros H. destruct (Py.str_ltb t s) eqn:E; [|reflexivity].
  pose proof (str_ltb_trans _ _ _ H E) as Hc. now rewrite str_ltb_irrefl in Hc.
Qed.

Lemma str_ltb_total :
  forall s t, Py.str_ltb s t = false -> Py.str_ltb t s = false -> s = t.
Proof.
  induction s as [|a s IH]; intros [|b t] H1 H2; try discriminate; [reflexivity|].
  rewrite str_ltb_cons in *. unfold Py.char_ltb, Py.char_eqb in *.
  destruct (Z.ltb_spec (Py.ord a) (Py.ord b)); [discriminate|].
  destruct (Z.ltb_spec (Py.ord b) (Py.ord a)); [discriminate|].
  destruct (Z.eqb_spec (Py.ord a) (Py.ord b)) as [He|]; [|lia].
  rewrite Z.eqb_sym in H2. destruct (Z.eqb_spec (Py.ord a) (Py.ord b)); [|lia].
  cbn [orb andb] in *. apply ord_inj in He. subst b. f_equal. now apply IH.
Qed.

Lemma str_ltb_negtrans (s t u : list ascii) :
  Py.str_ltb t s = false -> Py.str_ltb u t = false -> Py.str_ltb u s = false.
Proof.
  intros H1 H2. destruct (Py.str_ltb u s) eqn:E; [|reflexivity].
  destruct (Py.str_ltb t u) eqn:Htu.
  - rewrite (str_ltb_trans _ _ _ Htu E) in H1. discriminate.
  - rewrite (str_ltb_total _ _ Htu H2) in H1. congruence.
Qed.

Lemma str_eqb_eq (s t : list ascii) : Py.str_eqb s t = true <-> s = t.
Proof.
  revert t. induction s as [|a s IH]; intros [|b t]; cbn [Py.str_eqb];
    try (split; [discriminate|discriminate]); [split; reflexivity|].
  rewrite andb_true_iff, char_eqb_eq, IH. split; [intros [-> ->]; reflexivity|].
  intros [= -> ->]. split; reflexivity.
Qed.

(** The tuples [(suffix, index)]. *)
Lemma tuple_ltb_false (x y : list ascii * Z) :
  SuffixArray.tuple_ltb y x = false <->
  Py.str_ltb (fst x) (fst y) = true \/ (fst x = fst y /\ snd x <= snd y).
Proof.
  unfold SuffixArray.tuple_ltb. rewrite orb_false_iff, andb_false_iff, Z.ltb_ge.
  split.
  - intros [H1 [H2|H2]].
    + destruct (Py.str_ltb (fst x) (fst y)) eqn:E; [now left|].
      rewrite (str_ltb_total _ _ H1 E) in H2.
      assert (Py.str_eqb (fst x) (fst x) = true) by now apply str_eqb_eq. congruence.
    + destruct (Py.str_ltb (fst x) (fst y)) eqn:E; [now left|]. right.
      split; [|assumption]. symmetry. now apply str_ltb_total.
  - intros [H|[He Hi]].
    + split; [now apply str_ltb_asym|]. left.
      destruct (Py.str_eqb (fst y) (fst x)) eqn:E; [|reflexivity].
      apply str_eqb_eq in E. rewrite E, str_ltb_irrefl in H. discriminate.
    + rewrite He, str_ltb_irrefl. split; [reflexivity|now right].
Qed.

Lemma tuple_ltb_asym (x y : list ascii * Z) :
  SuffixArray.tuple_ltb x y = true -> SuffixArray.tuple_ltb y x = false.
Proof.
  unfold SuffixArray.tuple_ltb at 1. rewrite orb_true_iff, andb_true_iff, Z.ltb_lt.
  intros H. apply tuple_ltb_false. destruct H as [H|[He Hi]]; [now left|].
  apply str_eqb_eq in He. right. split; [assumption|lia].
Qed.

Lemma tuple_ltb_negtrans (x y z : list ascii * Z) :
  SuffixArray.tuple_ltb y x = false -> SuffixArray.tuple_ltb z y = false ->
  SuffixArray.tuple_ltb z x = false.
Proof.
  rewrite !tuple_ltb_false. intros [H1|[E1 I1]] [H2|[E2 I2]].
  - left. eapply str_ltb_trans; eassumption.
  - left. now rewrite <- E2.
  - left. now rewrite E1.
  - right. split; [congruence|lia].
Qed.

(** Characters. *)
Lemma char_ltb_asym (a b : ascii) :
  Py.char_ltb a b = true -> Py.char_ltb b a = false.
Proof. rewrite char_ltb_lt, char_ltb_ge. lia. Qed.

Lemma char_ltb_negtrans (a b c : ascii) :
  Py.char_ltb b a = false -> Py.char_ltb c b = false -> Py.char_ltb c a = false.
Proof. rewrite !char_ltb_ge. lia. Qed.

Lemma char_ltb_irrefl (a : ascii) : Py.char_ltb a a = false.
Proof. apply char_ltb_ge. lia. Qed.

End StringOrder.

(** ** The suffix array *)

Section SuffixArrayFacts.

Lemma suffixes_spec (text : list ascii) :
  forall i,
    SuffixArray.suffixes text i
    = map (fun j => (suf text j, i + Z.of_nat j)) (seq 0 (length text)).
Proof.
  induction text as [|c text IH]; intros i; [reflexivity|].
  cbn [SuffixArray.suffixes length seq map]. unfold suf at 1. cbn [skipn].
  rewrite Z.add_0_r. f_equal. rewrite IH, <- seq_shift, map_map.
  apply map_ext. intros j. unfold suf. cbn [skipn]. f_equal. lia.
Qed.

Lemma StronglySorted_map {A B : Type} (R : B -> B -> Prop) (f : A -> B) (l : list A) :
  StronglySorted R (map f l) -> StronglySorted (fun x y => R (f x) (f y)) l.
Proof.
  induction l as [|x l IH]; cbn [map]; intros H; [constructor|].
  inversion H as [|? ? Hs Hall]; subst. constructor; [now apply IH|].
  now rewrite Forall_map in Hall.
Qed.

Lemma StronglySorted_strengthen {A : Type} (R R' : A -> A -> Prop) (l : list A) :
  (forall x y, In x l -> In y l -> x <> y -> R x y -> R' x y) ->
  NoDup l -> StronglySorted R l -> StronglySorted R' l.
Proof.
  intros Himp Hnd Hs. induction Hs as [|x l Hs IH Hall]; [constructor|].
  inversion Hnd as [|? ? Hx Hnd']; subst. constructor.
  - apply IH; [|assumption]. intros a b Ha Hb. apply Himp; now right.
  - rewrite Forall_forall in *. intros y Hy. apply Himp; [now left|now right| |auto].
    intros ->. contradiction.
Qed.

Context (text : list ascii).
Let n := length text.

Lemma suf_length (p : nat) : length (suf text p) = (n - p)%nat.
Proof. unfold suf. apply length_skipn. Qed.

Lemma suf_cons (p : nat) :
  (p < n)%nat -> suf text p = char_at text p :: suf text (S p).
Proof.
  intros Hp. unfold suf, char_at. revert p Hp. subst n.
  induction text as [|c t IH]; intros p Hp; cbn [length] in Hp; [lia|].
  destruct p as [|p]; [reflexivity|]. cbn [skipn nth].
  rewrite IH by lia. reflexivity.
Qed.

Lemma sorted_suffixes :
  Py.sort SuffixArray.tuple_ltb (SuffixArray.suffixes text 0)
  = map (fun p => (suf text p, Z.of_nat p)) (sa0 text).
Proof.
  unfold sa0. rewrite map_map.
  set (ST := Py.sort _ _).
  assert (Hall : Forall (fun x => x = (suf text (Z.to_nat (snd x)),
                                       Z.of_nat (Z.to_nat (snd x)))) ST).
  { eapply Permutation_Forall; [symmetry; apply sort_perm|].
    rewrite suffixes_spec, Forall_map, Forall_forall. intros j _. cbn [snd].
    rewrite Z.add_0_l, Nat2Z.id. reflexivity. }
  induction Hall as [|x l Hx _ IH]; [reflexivity|].
  cbn [map]. now rewrite <- Hx, <- IH.
Qed.

Lemma sa0_perm : Permutation (sa0 text) (seq 0 n).
Proof.
  unfold sa0.
  rewrite (Permutation_map _ (sort_perm SuffixArray.tuple_ltb _)).
  rewrite suffixes_spec, map_map. cbn [snd].
  rewrite (map_ext _ (fun j => j)); [now rewrite map_id|].
  intros j. lia.
Qed.

Lemma sa0_length : length (sa0 text) = n.
Proof. rewrite (Permutation_length sa0_perm). apply length_seq. Qed.

Lemma sa0_NoDup : NoDup (sa0 text).
Proof.
  eapply Permutation_NoDup; [symmetry; apply sa0_perm|apply seq_NoDup].
Qed.

Lemma sa0_lt (p : nat) : In p (sa0 text) <-> (p < n)%nat.
Proof.
  split; intros H.
  - apply (Permutation_in _ sa0_perm) in H. apply in_seq in H. lia.
  - apply (Permutation_in _ (Permutation_sym sa0_perm)). apply in_seq. lia.
Qed.

Lemma suf_inj (p q : nat) :
  (p < n)%nat -> (q < n)%nat -> suf text p = suf text q -> p = q.
Proof.
  intros Hp Hq H. apply (f_equal (@length _)) in H. rewrite !suf_length in H. lia.
Qed.

(** The suffix array lists the positions by strictly increasing suffix. *)
Lemma sa0_sorted : StronglySorted (fun p q => suf_ltb text p q = true) (sa0 text).
Proof.
  pose proof (sort_sorted SuffixArray.tuple_ltb tuple_ltb_asym tuple_ltb_negtrans
                (SuffixArray.suffixes text 0)) as Hs.
  rewrite sorted_suffixes in Hs. apply StronglySorted_map in Hs.
  eapply StronglySorted_strengthen; [|apply sa0_NoDup|exact Hs].
  intros p q Hp Hq Hne H. cbv beta in H. apply tuple_ltb_false in H.
  cbn [fst snd] in H. destruct H as [H|[H _]]; [exact H|].
  apply sa0_lt in Hp, Hq. apply suf_inj in H; [contradiction|assumption|assumption].
Qed.

Lemma suf_ltb_irrefl (p : nat) : suf_ltb text p p = false.
Proof. apply str_ltb_irrefl. Qed.

Lemma suf_ltb_asym (p q : nat) : suf_ltb text p q = true -> suf_ltb text q p = false.
Proof. apply str_ltb_asym. Qed.

(** The rank of a suffix is its index in the suffix array. *)
Lemma pos_nth (k p : nat) : nth_error (sa0 text) k = Some p -> pos text p = k.
Proof.
  intros H. unfold pos. fold n. rewrite <- (countb_perm _ _ _ sa0_perm).
  exact (proj1 (countb_sorted_position (suf_ltb text) (sa0 text)
                  suf_ltb_irrefl suf_ltb_asym sa0_sorted k p H)).
Qed.

Lemma nth_pos (p : nat) : (p < n)%nat -> nth_error (sa0 text) (pos text p) = Some p.
Proof.
  intros Hp. apply sa0_lt in Hp. apply In_nth_error in Hp. destruct Hp as [k Hk].
  now rewrite (pos_nth k p Hk).
Qed.

Lemma pos_lt (p : nat) : (p < n)%nat -> (pos text p < n)%nat.
Proof.
  intros Hp. pose proof (nth_pos p Hp) as H.
  assert (pos text p < length (sa0 text))%nat by (apply nth_error_Some; congruence).
  now rewrite sa0_length in *.
Qed.

Lemma suffix_array_sa0 :
  SuffixArray.naive_suffix_array text = map (fun p => Z.of_nat p + 1) (sa0 text).
Proof.
  unfold SuffixArray.naive_suffix_array. rewrite sorted_suffixes, map_map.
  reflexivity.
Qed.

(** The transformed text: the character before each suffix, in the order
    of the suffix array. *)
Lemma bwt_sa0 :
  text <> [] ->
  BWT_Encoding.bwt text = Ok (map (fun p => char_at text (pred_cyc n p)) (sa0 text)).
Proof.
  intros Hne. unfold BWT_Encoding.bwt.
  destruct (bwt_loop_spec text Hne (SuffixArray.naive_suffix_array text) [])
    as (s & Hs & HF).
  rewrite Hs. cbn [app]. f_equal. rewrite suffix_array_sa0 in HF.
  assert (Hin : Forall (fun p => (p < n)%nat) (sa0 text)).
  { apply Forall_forall. intros p. apply sa0_lt. }
  clear Hs. revert s HF. induction (sa0 text) as [|p l IH]; intros s HF;
    inversion HF as [|? c ? s' Hc HF']; subst; [reflexivity|].
  inversion Hin as [|? ? Hp Hin']; subst. cbn [map]. f_equal; [|now apply IH].
  assert (Hn : (0 < n)%nat) by (subst n; destruct text; [contradiction|cbn; lia]).
  assert (Hidx : Z.to_nat ((Z.of_nat p + 1 + Py.len text - 2) mod Py.len text)
                 = pred_cyc n p).
  { unfold Py.len. fold n. destruct p as [|p]; cbn [pred_cyc].
    - replace (Z.of_nat 0 + 1 + Z.of_nat n - 2) with (Z.of_nat n - 1) by lia.
      rewrite Z.mod_small by lia. lia.
    - replace (Z.of_nat (S p) + 1 + Z.of_nat n - 2)
        with (Z.of_nat p + 1 * Z.of_nat n) by lia.
      rewrite Z.mod_add by lia. rewrite Z.mod_small by lia. lia. }
  rewrite Hidx in Hc. unfold char_at. symmetry. now apply nth_error_nth.
Qed.

End SuffixArrayFacts.

(** ** The last-to-first mapping *)

Section LastToFirst.

Lemma map_char_at (text : list ascii) :
  map (char_at text) (seq 0 (length text)) = text.
Proof.
  unfold char_at. induction text as [|c t IH]; [reflexivity|].
  cbn [length seq map nth]. f_equal. rewrite <- seq_shift, map_map. exact IH.
Qed.

(** In a sorted string the first occurrence of a character comes after
    exactly the smaller characters. *)
Lemma first_index_sorted (c : ascii) (F : list ascii) :
  StronglySorted (fun a b => Py.char_ltb b a = false) F ->
  In c F ->
  first_index c F = Some (countb (fun x => Py.char_ltb x c) F).
Proof.
  induction 1 as [|x F Hs IH Hall]; intros Hin; [destruct Hin|].
  cbn [first_index]. rewrite countb_cons. destruct (Py.char_eqb x c) eqn:E.
  - apply char_eqb_eq in E. subst x. rewrite char_ltb_irrefl.
    rewrite countb_false; [reflexivity|].
    rewrite Forall_forall in Hall. exact Hall.
  - apply char_eqb_neq in E. destruct Hin as [->|Hin]; [contradiction|].
    rewrite (IH Hin). cbn [option_map].
    rewrite Forall_forall in Hall. specialize (Hall c Hin).
    apply char_ltb_ge in Hall.
    assert (Hlt : Py.char_ltb x c = true).
    { apply char_ltb_lt. assert (Py.ord x <> Py.ord c) by (intros H; now apply ord_inj in H).
      lia. }
    now rewrite Hlt.
Qed.

Context (text : list ascii).
Let n := length text.
Let L := map (fun p => char_at text (pred_cyc n p)) (sa0 text).

(** The number of characters of the text smaller than [c], plus the number
    of [c] in the transformed text before the row of the suffix at [p], is
    the row of the suffix at [p - 1], when [c] is the character there and
    is not the last character of the text. *)
Lemma last_to_first (p : nat) :
  (p < n)%nat ->
  let c := char_at text p in
  char_at text (n - 1) <> c ->
  (countb (fun x => Py.char_ltb x c) text
   + countb (fun x => Py.char_eqb x c) (firstn (pos text (S p)) L))%nat
  = pos text p.
Proof.
  intros Hp c Hlast.
  assert (Hp1 : (S p < n)%nat).
  { destruct (Nat.eq_dec p (n - 1)) as [->|]; [|lia]. contradiction. }
  set (h := fun q => Py.char_eqb (char_at text q) c && suf_ltb text (S q) (S p)).
  assert (Hsplit : pos text p
                   = (countb (fun q => Py.char_ltb (char_at text q) c) (seq 0 n)
                      + countb h (seq 0 n))%nat).
  { unfold pos. fold n. apply countb_split.
    - intros q Hq. apply in_seq in Hq. unfold suf_ltb, h.
      rewrite (suf_cons text q) by (fold n; lia).
      rewrite (suf_cons text p) by (fold n; lia). fold c.
      now rewrite str_ltb_cons.
    - intros q _ Hlt. unfold h. apply char_ltb_lt in Hlt.
      destruct (Py.char_eqb (char_at text q) c) eqn:E; [|reflexivity].
      apply char_eqb_eq in E. rewrite E in Hlt. lia. }
  rewrite Hsplit. f_equal.
  - rewrite <- (map_char_at text) at 1. fold n. now rewrite countb_map.
  - unfold L. rewrite firstn_map, countb_map.
    destruct (countb_sorted_position (suf_ltb text) (sa0 text)
                (suf_ltb_irrefl text) (suf_ltb_asym text) (sa0_sorted text)
                (pos text (S p)) (S p) (nth_pos text (S p) Hp1)) as [_ Hfirst].
    rewrite Hfirst, (countb_perm _ _ _ (sa0_perm text)). fold n.
    assert (Hn : n = S (n - 1)) by lia.
    (* on the right, the last position counts for nothing *)
    assert (Hr : countb h (seq 0 n) = countb h (seq 0 (n - 1))).
    { rewrite Hn at 1. rewrite seq_S, countb_app, countb_cons. cbn [Nat.add].
      unfold h at 2. apply char_eqb_neq in Hlast. rewrite Hlast. cbn. lia. }
    rewrite Hr.
    (* on the left, position 0 counts for nothing *)
    rewrite Hn at 1. cbn [seq]. rewrite countb_cons. cbn [pred_cyc].
    apply char_eqb_neq in Hlast. rewrite Hlast. cbn [andb Nat.add].
    rewrite <- seq_shift, countb_map. apply countb_ext.
    intros q _. reflexivity.
Qed.

End LastToFirst.

(** ** The tables of the inverse transform *)

Section RankOrder.

Lemma firstn_S_snoc {A : Type} (l : list A) (j : nat) (x : A) :
  nth_error l j = Some x -> firstn (S j) l = firstn j l ++ [x].
Proof.
  revert j. induction l as [|y l IH]; intros [|j] H; try discriminate.
  - injection H as ->. reflexivity.
  - cbn [firstn app]. f_equal. now apply IH.
Qed.

Lemma first_index_snoc (c x : ascii) (l : list ascii) :
  first_index c (l ++ [x])
  = match first_index c l with
    | Some p => Some p
    | None => if Py.char_eqb x c then Some (length l) else None
    end.
Proof.
  induction l as [|y l IH]; cbn [app first_index length].
  - destruct (Py.char_eqb x c); reflexivity.
  - destruct (Py.char_eqb y c); [reflexivity|]. rewrite IH.
    destruct (first_index c l); [reflexivity|].
    destruct (Py.char_eqb x c); reflexivity.
Qed.

Lemma first_index_In (c : ascii) (l : list ascii) :
  In c l -> exists p, first_index c l = Some p.
Proof.
  induction l as [|y l IH]; intros Hin; [destruct Hin|]. cbn [first_index].
  destruct (Py.char_eqb y c) eqn:E; [eauto|].
  apply char_eqb_neq in E. destruct Hin as [->|Hin]; [contradiction|].
  destruct (IH Hin) as [p ->]. cbn. eauto.
Qed.

Context (F L : list ascii).
Hypothesis F_valid : Forall valid_char F.
Hypothesis L_valid : Forall valid_char L.
Hypothesis FL_length : length F = length L.

Lemma rank_order_loop_spec (m : nat) :
  forall j rank order_checker order,
    (j + m = length L)%nat ->
    tables_at F L j rank order_checker order ->
    exists rank' order_checker' order',
      BWT_Decoding.rank_order_loop m (Z.of_nat j) F L rank order_checker order
      = Ok (rank', order') /\
      tables_at F L (length L) rank' order_checker' order'.
Proof.
  unfold tables_at.
  induction m as [|m IH]; intros j rank oc order Hj Hinv.
  - exists rank, oc, order. assert (Hjl : j = length L) by lia. subst j.
    split; [reflexivity|assumption].
  - destruct Hinv as (Hlr & Hlo & Hlen & Hrank & Hoc & Hord).
    cbn [BWT_Decoding.rank_order_loop].
    destruct (nth_error F j) as [fc|] eqn:Hfc; [|apply nth_error_None in Hfc; lia].
    destruct (nth_error L j) as [bc|] eqn:Hbc; [|apply nth_error_None in Hbc; lia].
    assert (Hvf : valid_char fc).
    { rewrite Forall_forall in F_valid. apply F_valid. eapply nth_error_In; eassumption. }
    assert (Hvb : valid_char bc).
    { rewrite Forall_forall in L_valid. apply L_valid. eapply nth_error_In; eassumption. }
    rewrite (get_ok F (Z.of_nat j) fc) by (rewrite ?Nat2Z.id; first [lia|assumption]).
    cbn [bind]. rewrite (get_at_index _ _ _ Hvf (Hrank fc Hvf)). cbn [bind].
    set (rank1 := match first_index fc (firstn j F) with
                  | Some _ => rank
                  | None => Py.update rank (index_of fc) (Some (Z.of_nat j))
                  end).
    assert (Hr1 : match option_map Z.of_nat (first_index fc (firstn j F)) with
                  | Some _ => Ok rank
                  | None => Py.set rank (Py.ord fc - 36) (Some (Z.of_nat j))
                  end = Ok rank1).
    { unfold rank1. destruct (first_index fc (firstn j F)); cbn [option_map];
        [reflexivity|]. now apply set_at_index. }
    rewrite Hr1. cbn [bind].
    rewrite (get_ok L (Z.of_nat j) bc) by (rewrite ?Nat2Z.id; first [lia|assumption]).
    cbn [bind]. rewrite (get_at_index _ _ _ Hvb (Hoc bc Hvb)). cbn [bind].
    rewrite set_at_index by assumption. cbn [bind].
    pose proof (index_of_lt bc Hvb) as Hib.
    rewrite (get_at_index _ bc (Z.of_nat (countb (fun x => Py.char_eqb x bc) (firstn j L)) + 1));
      [|assumption|apply nth_error_update_eq; lia].
    cbn [bind]. rewrite set_ok by (unfold Py.len; lia). cbn [bind].
    rewrite Nat2Z.id.
    replace (Z.of_nat j + 1) with (Z.of_nat (S j)) by lia.
    apply IH; [lia|].
    assert (Hflen : length (firstn j F) = j) by (apply firstn_length_le; lia).
    split; [|split; [|split; [|split; [|split]]]].
    + unfold rank1. destruct (first_index fc (firstn j F)); [assumption|].
      now rewrite length_update.
    + now rewrite length_update.
    + now rewrite length_update.
    + intros c Hc. rewrite (firstn_S_snoc _ _ _ Hfc), first_index_snoc, Hflen.
      unfold rank1. destruct (Py.char_eqb fc c) eqn:E.
      * apply char_eqb_eq in E. subst c.
        destruct (first_index fc (firstn j F)) eqn:Hfi.
        -- rewrite Hrank, Hfi by assumption. reflexivity.
        -- rewrite nth_error_update_eq by (pose proof (index_of_lt fc Hvf); lia).
           reflexivity.
      * apply char_eqb_neq in E.
        assert (Hsame : nth_error rank1 (index_of c) = nth_error rank (index_of c)).
        { unfold rank1. destruct (first_index fc (firstn j F)); [reflexivity|].
          apply nth_error_update_neq. intros He.
          apply index_of_inj in He; [contradiction|assumption|assumption]. }
        fold rank1. rewrite Hsame, Hrank by assumption.
        destruct (first_index c (firstn j F)); reflexivity.
    + intros c Hc. rewrite (firstn_S_snoc _ _ _ Hbc), countb_app, countb_cons.
      cbn [countb filter length]. destruct (Py.char_eqb bc c) eqn:E.
      * apply char_eqb_eq in E. subst c.
        rewrite nth_error_update_eq by lia. f_equal. lia.
      * apply char_eqb_neq in E. rewrite nth_error_update_neq.
        -- rewrite Hoc by assumption. f_equal. lia.
        -- intros He. apply index_of_inj in He; [contradiction|assumption|assumption].
    + intros k x Hk Hx. destruct (Nat.eq_dec k j) as [->|Hne].
      * rewrite Hbc in Hx. injection Hx as <-.
        rewrite nth_error_update_eq by lia. f_equal.
        rewrite (firstn_S_snoc _ _ _ Hbc), countb_app, countb_cons, char_eqb_refl.
        cbn [countb filter length]. lia.
      * rewrite nth_error_update_neq by lia. apply Hord; [lia|assumption].
Qed.

(** [rank_order()] on the transformed text [L] with sorted form [F]. *)
Lemma tables_initial :
  tables_at F L 0 (repeat None 91) (repeat 0 91) (repeat 0 (length L)).
Proof.
  unfold tables_at.
  split; [apply repeat_length|]. split; [apply repeat_length|].
  split; [apply repeat_length|]. split; [|split].
  - intros c Hc. cbn [firstn first_index option_map].
    apply nth_error_repeat. now apply index_of_lt.
  - intros c Hc. cbn [firstn countb filter length].
    apply nth_error_repeat. now apply index_of_lt.
  - intros k x Hk. lia.
Qed.

End RankOrder.

(** ** The inverse transform *)

Lemma skipn_nth_cons {A : Type} (l : list A) :
  forall i x, nth_error l i = Some x -> skipn i l = x :: skipn (S i) l.
Proof.
  induction l as [|y l IH]; intros [|i] x H; try discriminate.
  - injection H as ->. reflexivity.
  - cbn [skipn]. now apply IH.
Qed.

Section Inverse.

Context (text : list ascii).
Hypothesis text_valid : Forall (fun c => valid_char c /\ c <> "$"%char) text.

Let T := text ++ ["$"%char].
Let N := length text.
Let n := length T.
Let L := map (fun p => char_at T (pred_cyc n p)) (sa0 T).
Let F := Py.sort Py.char_ltb L.

Lemma n_eq : n = S N.
Proof. unfold n, T, N. rewrite length_app. cbn [length]. lia. Qed.

Lemma char_at_text (i : nat) : (i < N)%nat -> nth_error text i = Some (char_at T i).
Proof.
  intros Hi. unfold char_at, T. rewrite app_nth1 by assumption.
  apply nth_error_nth'. assumption.
Qed.

Lemma char_at_last : char_at T N = "$"%char.
Proof. unfold char_at, T, N. rewrite app_nth2, Nat.sub_diag by lia. reflexivity. Qed.

Lemma char_at_not_sentinel (i : nat) :
  (i < N)%nat -> valid_char (char_at T i) /\ char_at T i <> "$"%char.
Proof.
  intros Hi. rewrite Forall_forall in text_valid. apply text_valid.
  eapply nth_error_In. now apply char_at_text.
Qed.

Lemma T_valid : Forall valid_char T.
Proof.
  unfold T. apply Forall_app. split.
  - eapply Forall_impl; [|exact text_valid]. now intros c [Hc _].
  - constructor; [apply sentinel_valid|constructor].
Qed.

Lemma L_perm : Permutation L T.
Proof.
  unfold L. eapply Permutation_trans; [apply Permutation_map, sa0_perm|].
  fold n. pose proof (map_char_at T) as HT. fold n in HT.
  rewrite n_eq in HT. rewrite seq_S, map_app in HT. cbn [map Nat.add] in HT.
  assert (H1 : map (fun p => char_at T (pred_cyc n p)) (seq 0 n)
               = char_at T N :: map (char_at T) (seq 0 N)).
  { replace (seq 0 n) with (0%nat :: map S (seq 0 N))
      by (rewrite n_eq; cbn [seq]; now rewrite seq_shift).
    cbn [map pred_cyc]. rewrite map_map. cbn [pred_cyc].
    f_equal. f_equal. rewrite n_eq. lia. }
  rewrite H1. eapply Permutation_trans; [apply Permutation_cons_append|].
  rewrite HT. reflexivity.
Qed.

Lemma L_length : length L = n.
Proof. unfold L. rewrite length_map. apply sa0_length. Qed.

Lemma L_valid : Forall valid_char L.
Proof. eapply Permutation_Forall; [symmetry; apply L_perm|apply T_valid]. Qed.

Lemma F_perm : Permutation F L.
Proof. apply sort_perm. Qed.

Lemma F_valid : Forall valid_char F.
Proof. eapply Permutation_Forall; [symmetry; apply F_perm|apply L_valid]. Qed.

Lemma L_nth (p : nat) :
  (p < n)%nat -> nth_error L (pos T p) = Some (char_at T (pred_cyc n p)).
Proof.
  intros Hp. unfold L. rewrite nth_error_map, (nth_pos T p Hp). reflexivity.
Qed.

(** The row of the suffix "$" is row 0. *)
Lemma pos_last : pos T N = 0%nat.
Proof.
  unfold pos. apply countb_false. intros q Hq. apply in_seq in Hq. fold n in Hq.
  rewrite n_eq in Hq. unfold suf_ltb.
  rewrite (suf_cons T N) by (fold n; rewrite n_eq; lia). rewrite char_at_last.
  destruct (Nat.eq_dec q N) as [->|Hne].
  - rewrite (suf_cons T N) by (fold n; rewrite n_eq; lia). rewrite char_at_last.
    apply str_ltb_irrefl.
  - rewrite (suf_cons T q) by (fold n; rewrite n_eq; lia).
    rewrite str_ltb_cons. destruct (char_at_not_sentinel q ltac:(lia)) as [Hv Hs].
    apply char_eqb_neq in Hs. rewrite Hs. cbn [andb]. rewrite orb_false_r.
    apply char_ltb_ge. unfold valid_char in Hv. change (Py.ord "$") with 36. lia.
Qed.

(** [rank_order()] succeeds and gives the tables of the whole string. *)
Lemma rank_order_spec :
  exists rank order_checker order,
    BWT_Decoding.rank_order L = Ok (rank, order) /\
    tables_at F L (length L) rank order_checker order.
Proof.
  assert (HFL : length F = length L) by apply (Permutation_length F_perm).
  unfold BWT_Decoding.rank_order. fold F. rewrite HFL.
  apply (rank_order_loop_spec F L F_valid L_valid HFL (length L) 0);
    [reflexivity|apply tables_initial; exact HFL].
Qed.

(** The formula, on the row of the suffix at [S i], gives the row of the
    suffix at [i]. *)
Lemma formula_spec (rank : list (option Z)) (order_checker order : list Z) (i : nat) :
  tables_at F L (length L) rank order_checker order ->
  (i < N)%nat ->
  BWT_Decoding.formula L rank order (Z.of_nat (pos T (S i)))
  = Ok (Z.of_nat (pos T i)).
Proof.
  intros (Hlr & Hlo & Hlen & Hrank & _ & Hord) Hi.
  assert (HSi : (S i < n)%nat) by (rewrite n_eq; lia).
  pose proof (L_nth (S i) HSi) as Hc. cbn [pred_cyc] in Hc.
  set (c := char_at T i) in *. set (k := pos T (S i)) in *.
  destruct (char_at_not_sentinel i Hi) as [Hv Hs]. fold c in Hv, Hs.
  assert (Hk : (k < length L)%nat) by (apply nth_error_Some; congruence).
  unfold BWT_Decoding.formula.
  rewrite (get_ok L (Z.of_nat k) c) by (rewrite ?Nat2Z.id; first [lia|assumption]).
  cbn [bind].
  assert (HinF : In c F).
  { apply (Permutation_in _ (Permutation_sym F_perm)). eapply nth_error_In; eassumption. }
  pose proof (first_index_sorted c F
                (sort_sorted Py.char_ltb char_ltb_asym char_ltb_negtrans L) HinF) as Hfi.
  specialize (Hrank c Hv).
  rewrite firstn_all2 in Hrank by (rewrite (Permutation_length F_perm); lia).
  rewrite Hfi in Hrank. cbn [option_map] in Hrank.
  rewrite (get_at_index _ _ _ Hv Hrank). cbn [bind].
  rewrite (get_ok order (Z.of_nat k) _ (Nat2Z.is_nonneg k)
             ltac:(rewrite Nat2Z.id; exact (Hord k c Hk Hc))).
  cbn [bind]. f_equal.
  rewrite (firstn_S_snoc _ _ _ Hc), countb_app, countb_cons, char_eqb_refl.
  cbn [countb filter length].
  rewrite (countb_perm _ _ _ F_perm), (countb_perm _ _ _ L_perm).
  pose proof (last_to_first T i ltac:(fold n; lia)) as Hlf. cbv zeta in Hlf.
  fold n in Hlf. rewrite n_eq in Hlf. replace (S N - 1)%nat with N in Hlf by lia.
  rewrite char_at_last in Hlf. fold c in Hlf. rewrite <- n_eq in Hlf. fold L in Hlf.
  fold k in Hlf. specialize (Hlf (fun H => Hs (eq_sym H))). lia.
Qed.

Lemma update_none_prefix (i : nat) (x : option ascii) (rest : list (option ascii)) :
  Py.update (repeat None (S i) ++ rest) i x = repeat None i ++ x :: rest.
Proof.
  induction i as [|i IH]; [reflexivity|].
  change (repeat None (S (S i)) ++ rest) with (None :: (repeat None (S i) ++ rest)).
  cbn [Py.update]. rewrite IH. reflexivity.
Qed.

Lemma decode_loop_spec (rank : list (option Z)) (order_checker order : list Z) :
  tables_at F L (length L) rank order_checker order ->
  forall m,
    (m <= N)%nat ->
    BWT_Decoding.decode_loop m L rank order
      (repeat None m ++ map Some (skipn m text)) (Z.of_nat (pos T m))
    = Ok (map Some text).
Proof.
  intros Htab. induction m as [|i IH]; intros Hm; [reflexivity|].
  cbn [BWT_Decoding.decode_loop].
  assert (HSi : (S i < n)%nat) by (rewrite n_eq; lia).
  pose proof (L_nth (S i) HSi) as Hc. cbn [pred_cyc] in Hc.
  destruct (char_at_not_sentinel i ltac:(lia)) as [Hv Hs].
  rewrite (get_ok L _ _ (Nat2Z.is_nonneg _) ltac:(rewrite Nat2Z.id; exact Hc)).
  cbn [bind]. apply char_eqb_neq in Hs. rewrite Hs.
  rewrite set_ok.
  2:{ unfold Py.len. rewrite length_app, repeat_length, length_map, length_skipn.
      fold N. lia. }
  cbn [bind]. rewrite (formula_spec _ _ _ i Htab ltac:(lia)). cbn [bind].
  rewrite Nat2Z.id, update_none_prefix.
  replace (Some (char_at T i) :: map Some (skipn (S i) text))
    with (map Some (skipn i text)); [apply IH; lia|].
  rewrite (skipn_nth_cons text i _ (char_at_text i ltac:(lia))). reflexivity.
Qed.

Lemma join_some (s : list ascii) : BWT_Decoding.join (map Some s) = Ok s.
Proof.
  induction s as [|c s IH]; [reflexivity|]. cbn [map BWT_Decoding.join].
  now rewrite IH.
Qed.

(** The inverse transform gives the text back. *)
Lemma bwt_inverse :
  BWT_Encoding.bwt T = Ok L /\ BWT_Decoding.decode L = Ok text.
Proof.
  split.
  - unfold L, n. apply bwt_sa0. unfold T. destruct text; discriminate.
  - unfold BWT_Decoding.decode.
    destruct rank_order_spec as (rank & oc & order & Hro & Htab).
    rewrite Hro. cbn [bind].
    replace (Z.to_nat (Py.len L - 1)) with N
      by (unfold Py.len; rewrite L_length, n_eq; lia).
    rewrite repeat_length.
    pose proof (decode_loop_spec rank oc order Htab N (le_n N)) as Hd.
    rewrite pos_last in Hd. unfold N in Hd at 3. rewrite skipn_all in Hd.
    cbn [map] in Hd. rewrite app_nil_r in Hd. change (Z.of_nat 0) with 0 in Hd.
    rewrite Hd. cbn [bind]. apply join_some.
Qed.

End Inverse.

(** C6: for every text over the admitted alphabet that does not contain
    '$', the inverse transform applied to the forward transform of the text
    with '$' appended returns the text. *)
Theorem bwt_bijection (text : list ascii) :
  Forall (fun c => valid_char c /\ c <> "$"%char) text ->
  exists bwt_string,
    BWT_Encoding.bwt (text ++ ["$"%char]) = Ok bwt_string /\
    BWT_Decoding.decode bwt_string = Ok text.
Proof.
  intros Hvalid. destruct (bwt_inverse text Hvalid) as [H1 H2]. eauto.
Qed.

Lemma bwt_bijection_witness :
  exists bwt_string,
    BWT_Encoding.bwt (text_of "banana" ++ ["$"%char]) = Ok bwt_string /\
    BWT_Decoding.decode bwt_string = Ok (text_of "banana").
Proof.
  apply (bwt_bijection (text_of "banana")).
  apply (proj2 (valid_textb_ok (text_of "banana") eq_refl)).
Defined.

(** ** The round trip *)

(** C1: for every input text of at least one character over the admitted
    alphabet, without the sentinel '$', the compressor writes a file and the
    decompressor, applied to the bytes of that file, recovers exactly the
    text. *)
Theorem round_trip (text : list ascii) :
  valid_text text ->
  exists file,
    Compress.compress text = Ok file /\
    Decompress.decompress file = Ok text.
Proof.
  intros Hvt.
  destruct (decompress_to_bwt text Hvt)
    as (file & bs & k & n & u & e & uc & bwt & Hc & _ & _ & _ & Hh & Hb & _ & Hd).
  destruct (bwt_inverse text (proj2 Hvt)) as [Hb' Hinv].
  rewrite Hb in Hb'. injection Hb' as Heq. rewrite <- Heq in Hinv.
  exists file. split; [assumption|].
  unfold Decompress.decompress, Decompress.run. rewrite Hh. cbn [bind].
  rewrite Hd. cbn [bind]. exact Hinv.
Qed.

Lemma round_trip_witness :
  exists file,
    Compress.compress (text_of "mississippi") = Ok file /\
    Decompress.decompress file = Ok (text_of "mississippi").
Proof.
  apply (round_trip (text_of "mississippi")).
  apply valid_textb_ok. reflexivity.
Defined.

Example round_trip_a :
  Compress.compress (text_of "a") = Ok [73; 37; 135; 208] /\
  Decompress.decompress [73; 37; 135; 208] = Ok (text_of "a").
Proof. split; reflexivity. Qed.

(** ** Erroneous streams *)

Section Erroneous.



End Erroneous.




(** ** Determinism *)

Section Determinism.

Import Heapq HeapqContract.

Lemma entry_ltb_false (x y : entry) :
  entry_ltb y x = false <->
  fst x < fst y \/ (fst x = fst y /\ Py.str_ltb (snd y) (snd x) = false).
Proof.
  unfold entry_ltb. rewrite orb_false_iff, andb_false_iff, Z.ltb_ge, Z.eqb_neq.
  split.
  - intros [H1 [H2|H2]]; [left; lia|].
    destruct (Z.eq_dec (fst x) (fst y)); [right; now split|left; lia].
  - intros [H|[H1 H2]]; [split; [lia|left; lia]|split; [lia|now right]].
Qed.

Lemma entry_ltb_asym (x y : entry) : entry_ltb x y = true -> entry_ltb y x = false.
Proof.
  unfold entry_ltb at 1. rewrite orb_true_iff, andb_true_iff, Z.ltb_lt, Z.eqb_eq.
  intros H. apply entry_ltb_false. destruct H as [H|[H1 H2]]; [now left|].
  right. split; [assumption|]. now apply str_ltb_asym.
Qed.

Lemma entry_ltb_negtrans (x y z : entry) :
  entry_ltb y x = false -> entry_ltb z y = false -> entry_ltb z x = false.
Proof.
  rewrite !entry_ltb_false. intros [H1|[E1 S1]] [H2|[E2 S2]].
  - left. lia.
  - left. lia.
  - left. lia.
  - right. split; [lia|]. eapply str_ltb_negtrans; eassumption.
Qed.

(** The order on heap entries is total: two entries neither of which is
    smaller are the same entry. *)
Lemma entry_ltb_total (x y : entry) :
  entry_ltb x y = false -> entry_ltb y x = false -> x = y.
Proof.
  rewrite !entry_ltb_false. intros [H1|[E1 S1]] [H2|[E2 S2]]; try lia.
  destruct x as [w s], y as [w' s']. cbn [fst snd] in *. subst w'.
  f_equal. now apply str_ltb_total.
Qed.

Let le (x y : entry) : Prop := entry_ltb y x = false.

(** The smallest item of a heap is the head of its sorted list. *)
Lemma popped_sorted (h : list entry) (x : entry) (h' : list entry)
      (y : entry) (hs : list entry) :
  popped h x h' -> Permutation h (y :: hs) -> StronglySorted le (y :: hs) ->
  x = y /\ Permutation h' hs.
Proof.
  intros [Hp Hmin] Hperm Hs. inversion Hs as [|? ? _ Hall]; subst.
  rewrite Forall_forall in Hmin, Hall.
  assert (Hxy : x = y).
  { assert (Hx : In x (y :: hs)).
    { apply (Permutation_in _ Hperm), (Permutation_in _ (Permutation_sym Hp)). now left. }
    assert (Hy : In y (x :: h')).
    { apply (Permutation_in _ Hp), (Permutation_in _ (Permutation_sym Hperm)). now left. }
    destruct Hx as [Hx|Hx]; [now symmetry|]. destruct Hy as [Hy|Hy]; [assumption|].
    apply entry_ltb_total; [apply (Hall x Hx)|apply (Hmin y Hy)]. }
  split; [assumption|]. subst y. eapply Permutation_cons_inv.
  eapply Permutation_trans; [symmetry; exact Hp|exact Hperm].
Qed.

Lemma sorted_head_min (y : entry) (hs : list entry) :
  StronglySorted le (y :: hs) -> popped (y :: hs) y hs.
Proof.
  intros Hs. inversion Hs; subst. split; [reflexivity|assumption].
Qed.

(** Any run of the loop gives what the model computes on the sorted
    heap. *)
Lemma huffman_run_model (character : list cell) (heap : list entry)
      (r : list cell * list entry) :
  huffman_run character heap r ->
  forall hs fuel,
    Permutation heap hs -> StronglySorted le hs -> (length hs <= S fuel)%nat ->
    HuffManEncoding.loop fuel character hs = Ok r.
Proof.
  induction 1 as [character unique Hlen
                 |character unique l u1 rt u2 c1 c2 u3 r Hlen Hp1 Hp2 Ha1 Ha2 Hpush _ IH];
    intros hs fuel Hperm Hs Hfuel.
  - assert (Hhs : unique = hs).
    { destruct unique as [|x [|y u]]; cbn [length] in Hlen; try lia.
      - now apply Permutation_nil in Hperm.
      - now apply Permutation_length_1_inv in Hperm. }
    subst hs. destruct fuel; cbn [HuffManEncoding.loop];
      destruct (Z.ltb_spec 1 (Py.len unique)); unfold Py.len in *; try lia; reflexivity.
  - pose proof (Permutation_length Hperm) as Hl.
    destruct hs as [|x [|y hs]]; cbn [length] in Hl; try lia.
    destruct (popped_sorted _ _ _ _ _ Hp1 Hperm Hs) as [-> Hperm1].
    inversion Hs as [|? ? Hs1 _]; subst.
    destruct (popped_sorted _ _ _ _ _ Hp2 Hperm1 Hs1) as [-> Hperm2].
    inversion Hs1 as [|? ? Hs2 _]; subst.
    destruct fuel as [|fuel]; [cbn [length] in Hfuel; lia|].
    cbn [HuffManEncoding.loop].
    destruct (Z.ltb_spec 1 (Py.len (x :: y :: hs)));
      [|unfold Py.len in *; cbn [length] in *; lia].
    cbn [heappop bind]. rewrite Ha1. cbn [bind]. rewrite Ha2. cbn [bind].
    apply IH.
    + unfold pushed in Hpush. unfold heappush.
      eapply Permutation_trans; [symmetry; exact Hpush|].
      eapply Permutation_trans; [|symmetry; apply insert_perm].
      now constructor.
    + apply (insert_sorted entry_ltb entry_ltb_asym entry_ltb_negtrans). assumption.
    + unfold heappush. rewrite insert_length. cbn [length] in Hfuel. lia.
Qed.

(** What the model computes is a run. *)
Lemma model_huffman_run (fuel : nat) :
  forall character hs r,
    StronglySorted le hs ->
    HuffManEncoding.loop fuel character hs = Ok r ->
    huffman_run character hs r.
Proof.
  induction fuel as [|fuel IH]; intros character hs r Hs Hloop;
    cbn [HuffManEncoding.loop] in Hloop;
    destruct (Z.ltb_spec 1 (Py.len hs)) as [Hlt|Hge]; try discriminate;
    try (injection Hloop as <-; constructor; unfold Py.len in Hge; lia).
  destruct hs as [|x [|y hs]]; try (unfold Py.len in Hlt; cbn [length] in Hlt; lia).
  cbn [heappop bind] in Hloop.
  destruct (HuffManEncoding.append_all character (snd x) [false]) as [c1| |] eqn:Ha1;
    try discriminate. cbn [bind] in Hloop.
  destruct (HuffManEncoding.append_all c1 (snd y) [true]) as [c2| |] eqn:Ha2;
    try discriminate. cbn [bind] in Hloop.
  inversion Hs as [|? ? Hs1 _]; subst. inversion Hs1 as [|? ? Hs2 _]; subst.
  eapply (huffman_run_step character (x :: y :: hs) x (y :: hs) y hs c1 c2).
  - cbn [length]. lia.
  - now apply sorted_head_min.
  - now apply sorted_head_min.
  - exact Ha1.
  - exact Ha2.
  - unfold pushed. symmetry. apply insert_perm.
  - apply IH; [|exact Hloop].
    apply (insert_sorted entry_ltb entry_ltb_asym entry_ltb_negtrans). assumption.
Qed.

Lemma compress_run_model (text : list ascii) (file : list Z) :
  compress_run text file -> Compress.compress text = Ok file.
Proof.
  intros [characters unique e1 e2 heap r character symbols to_write bits
            Hc Hu He1 He2 Hh Hr Hrev Hsym Htab Hmsg Hw].
  unfold Compress.compress, Compress.bitstream, Compress.header.
  rewrite Hc. cbn [bind]. rewrite Hu. cbn [bind]. rewrite He1. cbn [bind].
  rewrite He2. cbn [bind].
  assert (Hinit : HuffManEncoding.init characters unique = Ok (character, snd r)).
  { unfold HuffManEncoding.init, HuffManEncoding.huffman_encoding.
    rewrite (huffman_run_model _ _ _ Hr (heapify unique) (length unique)).
    - destruct r as [ch un]. cbn [bind fst snd] in *. now rewrite Hrev.
    - unfold heapified in Hh. unfold heapify.
      eapply Permutation_trans; [symmetry; exact Hh|symmetry; apply sort_perm].
    - apply (sort_sorted entry_ltb entry_ltb_asym entry_ltb_negtrans).
    - unfold heapify. rewrite sort_length. lia. }
  rewrite Hinit. cbn [bind fst snd]. rewrite Hsym. cbn [bind]. rewrite Htab.
  cbn [bind fst]. rewrite Hmsg. cbn [bind]. exact Hw.
Qed.

Lemma model_compress_run (text : list ascii) (file : list Z) :
  Compress.compress text = Ok file -> compress_run text file.
Proof.
  unfold Compress.compress, Compress.bitstream, Compress.header. intros H.
  destruct (Compress.count_loop _ _) as [characters| |] eqn:Hc; try discriminate.
  cbn [bind] in H.
  destruct (Compress.unique_loop _ _ _) as [unique| |] eqn:Hu; try discriminate.
  cbn [bind] in H.
  destruct (EliasEncoding.elias_encoding (Py.len (text ++ _))) as [e1| |] eqn:He1;
    try discriminate. cbn [bind] in H.
  destruct (EliasEncoding.elias_encoding (Py.len unique)) as [e2| |] eqn:He2;
    try discriminate. cbn [bind] in H.
  destruct (HuffManEncoding.init characters unique) as [[character un]| |] eqn:Hi;
    try discriminate. cbn [bind fst snd] in H.
  destruct (HuffManEncoding.get_unique_characters un) as [symbols| |] eqn:Hsym;
    try discriminate. cbn [bind] in H.
  destruct (Compress.table_loop character symbols _) as [to_write| |] eqn:Htab;
    try discriminate. cbn [bind fst] in H.
  destruct (Compress.message character _ to_write) as [bits| |] eqn:Hmsg;
    try discriminate. cbn [bind] in H.
  unfold HuffManEncoding.init, HuffManEncoding.huffman_encoding in Hi.
  destruct (HuffManEncoding.loop _ _ _) as [[ch un']| |] eqn:Hloop; try discriminate.
  cbn [bind] in Hi.
  destruct (HuffManEncoding.reverse_all ch un') as [ch'| |] eqn:Hrev; try discriminate.
  cbn [bind] in Hi. injection Hi as -> ->.
  apply (compress_run_intro text file characters unique e1 e2 (heapify unique)
           (ch, un) character symbols to_write bits); try assumption.
  - unfold heapified, heapify. symmetry. apply sort_perm.
  - eapply model_huffman_run; [|exact Hloop].
    apply (sort_sorted entry_ltb entry_ltb_asym entry_ltb_negtrans).
Qed.

End Determinism.

(** The compressor returns on every valid text. *)
Lemma round_trip_model (text : list ascii) :
  valid_text text -> exists file, Compress.compress text = Ok file.
Proof.
  intros Hvt. destruct (decompress_to_bwt text Hvt) as (file & ? & ? & ? & ? & ? & ? & ? & H & _).
  eauto.
Qed.

(** C10: compression is deterministic. For every valid input text there
    is a run of the compressor, and any two runs on that text, however
    [heapq] arranges the heap, write the same bytes: the order on
    [(weight, symbols)] tuples is total, so the item [heappop] returns is
    the same in every run, and every other step is a function of the
    text. *)
Theorem compression_deterministic (text : list ascii) :
  valid_text text ->
  exists file,
    compress_run text file /\
    forall file1 file2,
      compress_run text file1 -> compress_run text file2 -> file1 = file2.
Proof.
  intros Hvt. destruct (round_trip_model text Hvt) as [file Hfile].
  exists file. split; [now apply model_compress_run|].
  intros f1 f2 H1 H2. apply compress_run_model in H1, H2. congruence.
Qed.

Lemma compression_deterministic_witness :
  exists file,
    compress_run (text_of "banana") file /\
    forall file1 file2,
      compress_run (text_of "banana") file1 ->
      compress_run (text_of "banana") file2 -> file1 = file2.
Proof.
  apply (compression_deterministic (text_of "banana")).
  apply valid_textb_ok. reflexivity.
Defined.

(** * Further properties of the code *)

(** ** Texts outside the domain of the compressor *)

Section InputDomain.

Lemma set_length {A : Type} (l l' : list A) (i : Z) (x : A) :
  Py.set l i x = Ok l' -> length l' = length l.
Proof.
  unfold Py.set. destruct (_ || _); [discriminate|]. intros [= <-].
  apply length_update.
Qed.

Lemma get_wrap {A : Type} (l : list A) (c : ascii) :
  length l = 91%nat ->
  Py.get l (Py.ord (wrap_char c) - 36) = Py.get l (Py.ord c - 36).
Proof.
  intros Hl. unfold wrap_char. destruct (Z.ltb_spec (Py.ord c) 36) as [Hlt|Hge];
    [|reflexivity].
  pose proof (ord_range c). rewrite ord_chr by lia. unfold Py.get, Py.len.
  rewrite Hl. destruct (Z.ltb_spec (Py.ord c + 91 - 36) 0); [lia|].
  destruct (Z.ltb_spec (Py.ord c - 36) 0); [|lia].
  replace (Py.ord c - 36 + Z.of_nat 91) with (Py.ord c + 91 - 36) by lia.
  reflexivity.
Qed.

Lemma set_wrap {A : Type} (l : list A) (c : ascii) (x : A) :
  length l = 91%nat ->
  Py.set l (Py.ord (wrap_char c) - 36) x = Py.set l (Py.ord c - 36) x.
Proof.
  intros Hl. unfold wrap_char. destruct (Z.ltb_spec (Py.ord c) 36) as [Hlt|Hge];
    [|reflexivity].
  pose proof (ord_range c). rewrite ord_chr by lia. unfold Py.set, Py.len.
  rewrite Hl. destruct (Z.ltb_spec (Py.ord c + 91 - 36) 0); [lia|].
  destruct (Z.ltb_spec (Py.ord c - 36) 0); [|lia].
  replace (Py.ord c - 36 + Z.of_nat 91) with (Py.ord c + 91 - 36) by lia.
  reflexivity.
Qed.

Lemma count_loop_wrap :
  forall text characters,
    length characters = 91%nat ->
    Compress.count_loop characters (map wrap_char text)
    = Compress.count_loop characters text.
Proof.
  induction text as [|c text IH]; intros characters Hl; [reflexivity|].
  cbn [map Compress.count_loop]. rewrite get_wrap by assumption.
  destruct (Py.get characters (Py.ord c - 36)) as [[n|s]| |]; cbn [bind];
    try reflexivity.
  rewrite set_wrap by assumption.
  destruct (Py.set characters (Py.ord c - 36) (Count (n + 1))) as [l'| |] eqn:Hs;
    cbn [bind]; try reflexivity.
  apply IH. now rewrite (set_length _ _ _ _ Hs).
Qed.

Lemma count_loop_out_of_table :
  forall text characters c,
    length characters = 91%nat -> In c text -> 127 <= Py.ord c ->
    Compress.count_loop characters text = Raise.
Proof.
  induction text as [|h text IH]; intros characters c Hl Hin Hc; [destruct Hin|].
  cbn [Compress.count_loop].
  destruct (Py.get characters (Py.ord h - 36)) as [[n|s]| |] eqn:Hg; cbn [bind];
    try reflexivity.
  - destruct (Py.set characters (Py.ord h - 36) (Count (n + 1))) as [l'| |] eqn:Hs;
      cbn [bind]; try reflexivity.
    + destruct Hin as [->|Hin].
      * exfalso. unfold Py.get, Py.len in Hg. rewrite Hl in Hg.
        destruct (Z.ltb_spec (Py.ord c - 36) 0); [lia|].
        destruct (Z.ltb_spec (Py.ord c - 36) 0); [lia|].
        destruct (Z.leb_spec (Z.of_nat 91) (Py.ord c - 36)); [discriminate|lia].
      * apply (IH l' c); [now rewrite (set_length _ _ _ _ Hs)|assumption|assumption].
    + exfalso. unfold Py.set in Hs. destruct (_ || _); discriminate.
  - exfalso. unfold Py.get in Hg. destruct (_ || _); [discriminate|].
    destruct (nth_error _ _); discriminate.
Qed.

Lemma elias_encoding_ok (v : Z) :
  exists s, EliasEncoding.elias_encoding v = Ok s.
Proof.
  unfold EliasEncoding.elias_encoding.
  destruct (encoding_loop_total (Z.to_nat (Py.bit_length v)) v (Py.bit_length v)
              [Py.bin v]) as [r Hr].
  - intros Hv. pose proof (bit_length_ge_2 v Hv). lia.
  - rewrite Hr. cbn [bind]. eauto.
Qed.

End InputDomain.

(** X1: a text that holds nothing but '$' characters, the empty text
    included, makes the compressor raise: the sentinel is then the only
    symbol, no code is ever appended to its table entry, and [reverse_all]
    takes the [len] of the count left there. *)
Theorem compress_single_symbol_raises (text : list ascii) :
  Forall (fun c => c = "$"%char) text ->
  Compress.compress text = Raise.
Proof.
  intros Hall.
  assert (Hvalid : Forall valid_char (text ++ ["$"%char])).
  { apply Forall_app. split; [|constructor; [apply sentinel_valid|constructor]].
    eapply Forall_impl; [|exact Hall]. intros c ->. apply sentinel_valid. }
  destruct (header_tables _ Hvalid)
    as (zs & Hcount & Huniq & Hlen & Hsing & Hnd & Hval & Hin).
  set (unique := unique_from zs 0) in *.
  assert (Hsym : symbols_of unique = ["$"%char]).
  { assert (Hs : forall c, In c (symbols_of unique) -> c = "$"%char).
    { intros c Hc. apply Hin in Hc. apply in_app_or in Hc. destruct Hc as [Hc|[Hc|[]]].
      - rewrite Forall_forall in Hall. now apply Hall.
      - now symmetry. }
    assert (Hd : In "$"%char (symbols_of unique))
      by (apply Hin; apply in_or_app; right; now left).
    destruct (symbols_of unique) as [|a [|b l]]; [destruct Hd| |].
    - now rewrite (Hs a (or_introl eq_refl)).
    - exfalso. inversion Hnd as [|? ? Hna _]; subst. apply Hna.
      rewrite (Hs a (or_introl eq_refl)), (Hs b (or_intror (or_introl eq_refl))).
      now left. }
  assert (Hone : exists z, unique = [(z, ["$"%char])]).
  { pose proof (symbols_length unique Hsing) as Hl. rewrite Hsym in Hl.
    destruct unique as [|[z s] [|e u]]; try discriminate Hl.
    unfold symbols_of in Hsym. cbn [map concat snd] in Hsym.
    rewrite app_nil_r in Hsym. subst s. eauto. }
  destruct Hone as [z Hz].
  destruct (elias_encoding_ok (Py.len (text ++ ["$"%char]))) as [e1 He1].
  destruct (elias_encoding_ok (Py.len unique)) as [e2 He2].
  assert (Hinit : HuffManEncoding.init (map Count zs) unique = Raise).
  { rewrite Hz. unfold HuffManEncoding.init, HuffManEncoding.huffman_encoding.
    cbn [length Heapq.heapify Py.sort Py.insert HuffManEncoding.loop].
    change (1 <? Py.len [(z, ["$"%char])]) with false. cbv iota. cbn [bind].
    unfold HuffManEncoding.reverse_all, HuffManEncoding.get_unique_characters.
    change (Py.get [(z, ["$"%char])] 0) with (Ok (z, ["$"%char])).
    cbn [bind snd HuffManEncoding.reverse_loop].
    change (Py.ord "$" - 36) with 0.
    destruct zs as [|z0 zs']; [discriminate Hlen|].
    cbn [map]. unfold Py.get, Py.len. cbn [length]. rewrite length_map.
    cbn [Z.ltb Z.compare]. destruct (Z.leb_spec (Z.of_nat (S (length zs'))) 0); [lia|].
    cbn [orb Z.to_nat nth_error bind HuffManEncoding.reverse_string]. reflexivity. }
  unfold Compress.compress, Compress.bitstream, Compress.header.
  rewrite Hcount. cbn [bind]. rewrite Huniq. cbn [bind]. rewrite He1. cbn [bind].
  fold unique. rewrite He2. cbn [bind]. rewrite Hinit. reflexivity.
Qed.

Lemma compress_single_symbol_raises_witness :
  Compress.compress (text_of "$$$") = Raise.
Proof.
  apply (compress_single_symbol_raises (text_of "$$$")).
  repeat constructor.
Defined.

(** X2: a text with a character of code point 127 or more makes the
    compressor raise: the index [ord(char) - 36] is past the end of the
    91-entry table of counts. *)
Theorem compress_out_of_table_raises (text : list ascii) (c : ascii) :
  In c text -> 127 <= Py.ord c ->
  Compress.compress text = Raise.
Proof.
  intros Hin Hc. unfold Compress.compress, Compress.bitstream, Compress.header.
  rewrite (count_loop_out_of_table _ _ c); [reflexivity|apply repeat_length| |assumption].
  apply in_or_app. now left.
Qed.

Lemma compress_out_of_table_raises_witness :
  Compress.compress ["a"%char; Py.chr 200; "b"%char] = Raise.
Proof.
  apply (compress_out_of_table_raises _ (Py.chr 200)); [right; now left|].
  vm_compute. discriminate.
Defined.

(** X3: a character below '$' is not refused: its index [ord(char) - 36]
    is negative and counts from the end of the table, so it is counted as the
    character 91 code points above it. The header (counts, Huffman table and
    bits) of a text is that of the text with every such character
    replaced. *)
Theorem header_wraps_low_characters (text : list ascii) :
  Compress.header (map wrap_char text ++ ["$"%char])
  = Compress.header (text ++ ["$"%char]).
Proof.
  replace (map wrap_char text ++ ["$"%char]) with (map wrap_char (text ++ ["$"%char]))
    by (rewrite map_app; reflexivity).
  unfold Compress.header.
  rewrite count_loop_wrap by apply repeat_length.
  unfold Py.len. rewrite length_map. reflexivity.
Qed.

Example header_wraps_space :
  wrap_char " "%char = "{"%char /\
  Compress.header (text_of "a b$") = Compress.header (text_of "a{b$").
Proof. split; reflexivity. Qed.

(** ** The Elias code and the bytes of the file *)

(** X4: the Elias codes of the positive integers are prefix-free: when the
    code of [v] is a prefix of the code of [w] (in particular when the two
    codes are equal), [v = w]. *)
Theorem elias_codes_prefix_free (v w : Z) (cv cw : list bool) :
  1 <= v -> 1 <= w ->
  EliasEncoding.elias_encoding v = Ok cv ->
  EliasEncoding.elias_encoding w = Ok cw ->
  is_prefix cv cw -> v = w.
Proof.
  intros Hv Hw Ev Ew [r Hr].
  destruct (elias_round_trip v Hv) as (c1 & H1 & _ & D1).
  destruct (elias_round_trip w Hw) as (c2 & H2 & _ & D2).
  rewrite Ev in H1. injection H1 as <-. rewrite Ew in H2. injection H2 as <-.
  specialize (D1 [] r). specialize (D2 [] []).
  cbn [app] in D1, D2. rewrite app_nil_r in D2. rewrite <- Hr in D1.
  rewrite D1 in D2. now injection D2.
Qed.

Lemma elias_codes_prefix_free_witness :
  EliasEncoding.elias_encoding 5 = Ok (bits_of_string "000101") /\ 5 = 5.
Proof.
  split; [reflexivity|].
  apply (elias_codes_prefix_free 5 5 (bits_of_string "000101") (bits_of_string "000101"));
    [lia|lia|reflexivity|reflexivity|exists []; reflexivity].
Defined.

(** The hypothesis [1 <= v] is needed: the code of 0 is "0", a prefix of
    the code "010" of 2. *)
Example elias_zero_is_a_prefix :
  EliasEncoding.elias_encoding 0 = Ok [false] /\
  EliasEncoding.elias_encoding 2 = Ok [false; true; false].
Proof. split; reflexivity. Qed.

Lemma app_eq_length {A : Type} :
  forall (a b x y : list A),
    length a = length b -> a ++ x = b ++ y -> a = b /\ x = y.
Proof.
  induction a as [|h a IH]; intros [|k b] x y Hl Heq; try discriminate Hl.
  - now split.
  - cbn [app] in Heq. injection Heq as -> Heq. injection Hl as Hl.
    destruct (IH b x y Hl Heq) as [-> ->]. now split.
Qed.

Section Bytes.

Lemma int2_byte (byte : list bool) :
  length byte = 8%nat -> is_byte (Py.int2_digits byte).
Proof.
  intros Hb. pose proof (int2_digits_bound byte) as H. unfold Py.len in H.
  rewrite Hb in H. exact H.
Qed.

Lemma write_loop_range (fuel : nat) :
  forall to_write file rem file',
    Compress.write_loop fuel to_write file = Ok (rem, file') ->
    Forall is_byte file -> Forall is_byte file'.
Proof.
  induction fuel as [|fuel IH]; intros to_write file rem file';
    cbn [Compress.write_loop]; destruct (Z.leb_spec 8 (Py.len to_write)) as [H8|H8];
    unfold Py.len in H8; try discriminate.
  - intros [= _ <-] H. exact H.
  - set (byte := Py.slice to_write 0 8).
    assert (Hb : length byte = 8%nat).
    { unfold byte, Py.slice. cbn [Z.to_nat Z.sub skipn].
      rewrite firstn_length_le; [reflexivity|lia]. }
    destruct (read_byte_of byte Hb) as [Hint _]. rewrite Hint. cbn [bind].
    intros Hw Hf. eapply IH; [exact Hw|].
    apply Forall_app. split; [assumption|].
    constructor; [now apply int2_byte|constructor].
  - intros [= _ <-] H. exact H.
Qed.

Lemma write_range (to_write : list bool) (file : list Z) :
  Compress.write to_write = Ok file -> Forall is_byte file.
Proof.
  unfold Compress.write.
  destruct (Compress.write_loop (length to_write) to_write [])
    as [[rem file0]| |] eqn:Hw; cbn [bind]; try discriminate.
  pose proof (write_loop_range _ _ _ _ _ Hw (Forall_nil _)) as Hr.
  destruct (write_loop_spec (length to_write) to_write [] (le_n _))
    as (bytes & rem' & Hw' & _ & Hlt).
  rewrite Hw in Hw'. injection Hw' as -> ->. cbn [app] in Hr.
  destruct (Z.ltb_spec 0 (Py.len rem')) as [Hpos|Hz].
  - set (last := rem' ++ repeat false (Z.to_nat (8 - Py.len rem'))).
    assert (Hb : length last = 8%nat).
    { unfold last. rewrite length_app, repeat_length. unfold Py.len in *. lia. }
    destruct (read_byte_of last Hb) as [Hint _]. rewrite Hint. cbn [bind].
    intros [= <-]. apply Forall_app. split; [assumption|].
    constructor; [now apply int2_byte|constructor].
  - intros [= <-]. assumption.
Qed.

Lemma read_byte (b : Z) :
  is_byte b ->
  length (Py.zfill (Py.bin b) 8) = 8%nat /\
  Py.int2_digits (Py.zfill (Py.bin b) 8) = b.
Proof.
  intros Hb. destruct (zfill_bin b 8) as [Hl Hv]; [exact Hb|lia|].
  split; [|exact Hv]. unfold Py.len in Hl. lia.
Qed.

Lemma read_length (file : list Z) :
  Forall is_byte file -> length (Decompress.read file) = (8 * length file)%nat.
Proof.
  induction 1 as [|b file Hb _ IH]; [reflexivity|].
  change (Decompress.read (b :: file))
    with (Py.zfill (Py.bin b) 8 ++ Decompress.read file).
  rewrite length_app, IH, (proj1 (read_byte b Hb)). cbn [length]. lia.
Qed.

Lemma read_inj :
  forall f g,
    Forall is_byte f -> Forall is_byte g ->
    Decompress.read f = Decompress.read g -> f = g.
Proof.
  induction f as [|a f IH]; intros g Hf Hg Heq.
  - destruct g as [|b g]; [reflexivity|].
    apply (f_equal (@length _)) in Heq.
    rewrite (read_length (b :: g) Hg) in Heq. cbn [length] in Heq.
    change (length (Decompress.read [])) with 0%nat in Heq. lia.
  - destruct g as [|b g].
    + apply (f_equal (@length _)) in Heq.
      rewrite (read_length (a :: f) Hf) in Heq. cbn [length] in Heq.
      change (length (Decompress.read [])) with 0%nat in Heq. lia.
    + inversion Hf as [|? ? Ha Hf']; subst. inversion Hg as [|? ? Hb Hg']; subst.
      change (Py.zfill (Py.bin a) 8 ++ Decompress.read f
              = Py.zfill (Py.bin b) 8 ++ Decompress.read g) in Heq.
      destruct (read_byte a Ha) as [La Va]. destruct (read_byte b Hb) as [Lb Vb].
      apply app_eq_length in Heq; [|now rewrite La, Lb].
      destruct Heq as [E1 E2]. f_equal.
      * rewrite <- Va, <- Vb, E1. reflexivity.
      * now apply IH.
Qed.

End Bytes.

(** X5: [write()] never fails. It writes bytes (values 0..255), one for
    every eight bits of the bit string, the last one completed with zeros;
    read back with [format(byte, '08b')] the file is the bit string followed
    by those zeros, fewer than eight of them. *)
Theorem write_whole_bytes (to_write : list bool) :
  exists file k,
    Compress.write to_write = Ok file /\
    Forall is_byte file /\
    Decompress.read file = to_write ++ repeat false k /\
    (k < 8)%nat /\
    (8 * length file = length to_write + k)%nat.
Proof.
  destruct (write_read to_write) as (file & k & Hw & Hr & Hk).
  exists file, k. pose proof (write_range _ _ Hw) as Hb.
  repeat (split; [assumption|]).
  rewrite <- (read_length file Hb), Hr, length_app, repeat_length. reflexivity.
Qed.

(** X6: packing the bits read from a file of bytes gives the file back:
    [write] is the inverse of the reading of the file. *)
Theorem write_of_read (file : list Z) :
  Forall is_byte file ->
  Compress.write (Decompress.read file) = Ok file.
Proof.
  intros Hb. destruct (write_read (Decompress.read file)) as (file' & k & Hw & Hr & Hk).
  pose proof (write_range _ _ Hw) as Hb'.
  assert (Hl : (8 * length file' = 8 * length file + k)%nat).
  { rewrite <- (read_length file' Hb'), Hr, length_app, repeat_length.
    now rewrite (read_length file Hb). }
  assert (k = 0%nat) by lia. subst k. cbn [repeat] in Hr. rewrite app_nil_r in Hr.
  rewrite Hw. f_equal. now apply read_inj.
Qed.

Lemma write_of_read_witness :
  Compress.write (Decompress.read [73; 37; 135; 216]) = Ok [73; 37; 135; 216].
Proof.
  apply (write_of_read [73; 37; 135; 216]).
  repeat constructor; unfold is_byte; lia.
Defined.

(** ** The suffix array, the transform and its runs *)

Lemma StronglySorted_map_intro {A B : Type} (R : B -> B -> Prop) (f : A -> B)
      (l : list A) :
  StronglySorted (fun x y => R (f x) (f y)) l -> StronglySorted R (map f l).
Proof.
  induction 1 as [|x l _ IH Hall]; cbn [map]; constructor; [assumption|].
  rewrite Forall_forall in *. intros y Hy. apply in_map_iff in Hy.
  destruct Hy as (z & <- & Hz). now apply Hall.
Qed.

Lemma bwt_perm_nonempty (text : list ascii) :
  text <> [] ->
  Permutation (map (fun p => char_at text (pred_cyc (length text) p)) (sa0 text)) text.
Proof.
  intros Hne. eapply Permutation_trans; [apply Permutation_map, sa0_perm|].
  destruct (length text) as [|m] eqn:Hn; [now destruct text|].
  pose proof (map_char_at text) as HT. rewrite Hn in HT.
  rewrite seq_S, map_app in HT. cbn [map Nat.add] in HT.
  replace (seq 0 (S m)) with (0%nat :: map S (seq 0 m))
    by (cbn [seq]; now rewrite seq_shift).
  cbn [map pred_cyc]. rewrite map_map. cbn [pred_cyc].
  replace (S m - 1)%nat with m by lia.
  eapply Permutation_trans; [apply Permutation_cons_append|].
  match goal with
  | |- Permutation ?a _ =>
      change a with (map (char_at text) (seq 0 m) ++ [char_at text m])
  end.
  rewrite HT. reflexivity.
Qed.

Lemma runs_from_head :
  forall s c counter,
    exists k tl, Compress.runs_from (c :: s) counter = (c, k) :: tl.
Proof.
  induction s as [|d s IH]; intros c counter.
  - exists counter, []. reflexivity.
  - rewrite runs_from_cons2. destruct (Py.char_eqb c d) eqn:E.
    + apply char_eqb_eq in E. subst d. apply IH.
    + eauto.
Qed.

Lemma runs_from_adjacent :
  forall s counter i r1 r2,
    nth_error (Compress.runs_from s counter) i = Some r1 ->
    nth_error (Compress.runs_from s counter) (S i) = Some r2 ->
    fst r1 <> fst r2.
Proof.
  induction s as [|c s IH]; intros counter i r1 r2 H1 H2.
  - destruct i; discriminate H1.
  - destruct s as [|d s].
    + destruct i as [|i]; [discriminate H2|]. destruct i; discriminate H1.
    + rewrite runs_from_cons2 in H1, H2. destruct (Py.char_eqb c d) eqn:E.
      * eapply IH; eassumption.
      * destruct i as [|i].
        -- cbn [nth_error] in H1, H2. injection H1 as <-. cbn [fst].
           destruct (runs_from_head s d 1) as (k & tl & Hk). rewrite Hk in H2.
           cbn [nth_error] in H2. injection H2 as <-. cbn [fst].
           intros ->. rewrite char_eqb_refl in E. discriminate.
        -- cbn [nth_error] in H1, H2. eapply IH; eassumption.
Qed.

(** X7: the transform of every text is a rearrangement of the text (the
    empty text gives the empty string; the transform never raises). *)
Theorem bwt_is_permutation (text : list ascii) :
  exists bwt_string,
    BWT_Encoding.bwt text = Ok bwt_string /\ Permutation bwt_string text.
Proof.
  destruct text as [|c text]; [exists []; split; [reflexivity|constructor]|].
  eexists. split; [apply bwt_sa0; discriminate|].
  apply bwt_perm_nonempty. discriminate.
Qed.

(** X8: the suffix array lists every position [1..len(text)] once, in the
    strictly increasing order of the suffixes that start there. *)
Theorem suffix_array_sorted (text : list ascii) :
  Permutation (SuffixArray.naive_suffix_array text)
              (map (fun p => Z.of_nat p + 1) (seq 0 (length text))) /\
  StronglySorted
    (fun y z => Py.str_ltb (Py.slice_from text (y - 1)) (Py.slice_from text (z - 1))
                = true)
    (SuffixArray.naive_suffix_array text).
Proof.
  rewrite suffix_array_sa0. split; [apply Permutation_map, sa0_perm|].
  apply StronglySorted_map_intro.
  eapply StronglySorted_strengthen; [|apply sa0_NoDup|apply sa0_sorted].
  intros p q _ _ _ H. unfold suf_ltb, suf in H. unfold Py.slice_from.
  replace (Z.to_nat (Z.of_nat p + 1 - 1)) with p by lia.
  replace (Z.to_nat (Z.of_nat q + 1 - 1)) with q by lia.
  exact H.
Qed.

(** X9: in the transform of [text + '$'], for a text of characters above
    '$', the sentinel occurs once and the first character is the last
    character of the text, the sentinel itself when the text is empty: the
    inverse transform starts from it, at index 0. *)
Theorem bwt_sentinel (text : list ascii) :
  Forall (fun c => valid_char c /\ c <> "$"%char) text ->
  exists bwt_string,
    BWT_Encoding.bwt (text ++ ["$"%char]) = Ok bwt_string /\
    nth_error bwt_string 0 = Some (last text "$"%char) /\
    count_occ ascii_dec bwt_string "$"%char = 1%nat.
Proof.
  intros Hv. set (T := text ++ ["$"%char]).
  assert (Hne : T <> []) by (unfold T; now destruct text).
  eexists. split; [apply (bwt_sa0 T Hne)|]. split.
  - pose proof (L_nth text (length text)) as H.
    rewrite (pos_last text Hv) in H. fold T in H. rewrite H.
    + f_equal. unfold T. rewrite length_app. cbn [length].
      destruct text as [|c text] using rev_ind; [reflexivity|].
      rewrite last_last, length_app. cbn [length].
      replace (length text + 1)%nat with (S (length text)) by lia. cbn [pred_cyc].
      unfold char_at. rewrite app_nth1 by (rewrite length_app; cbn [length]; lia).
      rewrite app_nth2 by lia. now rewrite Nat.sub_diag.
    + unfold T. rewrite length_app. cbn [length]. lia.
  - pose proof (bwt_perm_nonempty T Hne) as HP.
    rewrite (Permutation_count_occ ascii_dec) in HP. rewrite HP.
    unfold T. rewrite count_occ_app. cbn [count_occ].
    destruct (ascii_dec "$" "$") as [_|n]; [|now destruct n].
    rewrite (proj1 (count_occ_not_In ascii_dec text "$"%char)); [reflexivity|].
    intros Hin. rewrite Forall_forall in Hv. now destruct (Hv _ Hin) as [_ Hc].
Qed.

Lemma bwt_sentinel_witness :
  exists bwt_string,
    BWT_Encoding.bwt (text_of "banana$") = Ok bwt_string /\
    nth_error bwt_string 0 = Some "a"%char /\
    count_occ ascii_dec bwt_string "$"%char = 1%nat.
Proof.
  apply (bwt_sentinel (text_of "banana")).
  repeat constructor; unfold valid_char; cbn; try lia; discriminate.
Defined.

(** X10: the run-length pass of [message()] cuts the transformed string
    into maximal runs: expanded, the runs give the string back; every count
    is at least 1; two adjacent runs have different symbols; and the bits
    [message()] appends are those of these runs, in order. *)
Theorem message_runs_maximal (text bwt_string : list ascii) :
  BWT_Encoding.bwt text = Ok bwt_string -> bwt_string <> [] ->
  let runs := Compress.runs bwt_string in
  expand runs = bwt_string /\
  Forall (fun r => 1 <= snd r) runs /\
  (forall i r1 r2, nth_error runs i = Some r1 -> nth_error runs (S i) = Some r2 ->
                   fst r1 <> fst r2) /\
  (forall character to_write,
      Compress.message character text to_write = emit_all character runs to_write).
Proof.
  intros Hb Hne. cbv zeta. split; [apply runs_expand|]. split.
  - unfold Compress.runs. apply runs_from_positive. lia.
  - split.
    + unfold Compress.runs. intros i r1 r2. apply runs_from_adjacent.
    + intros character to_write. now apply message_emits_runs.
Qed.

Lemma message_runs_maximal_witness :
  Compress.runs (text_of "annb$aa") =
  [("a"%char, 1); ("n"%char, 2); ("b"%char, 1); ("$"%char, 1); ("a"%char, 2)] /\
  expand (Compress.runs (text_of "annb$aa")) = text_of "annb$aa".
Proof.
  split; [reflexivity|].
  apply (message_runs_maximal (text_of "banana$") (text_of "annb$aa"));
    [reflexivity|discriminate].
Defined.

(** ** The decoder's tree for any prefix-free table *)

Section PrefixTable.

Lemma subnode_no_node (path : list bool) : subnode NoNode path = NoNode.
Proof. destruct path; reflexivity. Qed.

Lemma payload_no_node (path : list bool) : payload_at NoNode path = None.
Proof. unfold payload_at. now rewrite subnode_no_node. Qed.

Lemma payload_cons (p : option ascii) (c0 c1 : node) (b : bool) (path : list bool) :
  payload_at (Node p c0 c1) (b :: path) = payload_at (if b then c1 else c0) path.
Proof. reflexivity. Qed.

Lemma add_path_node (n : node) (code : list bool) (c : ascii) :
  exists p c0 c1, HuffmanDecoding.add_path n code c = Node p c0 c1.
Proof. destruct n, code as [|[] code]; cbn; eauto. Qed.

Lemma payload_add_path_same :
  forall code n c, payload_at (HuffmanDecoding.add_path n code c) code = Some c.
Proof.
  induction code as [|b code IH]; intros n c.
  - destruct n; reflexivity.
  - destruct n as [|p c0 c1], b;
      cbn [HuffmanDecoding.add_path HuffmanDecoding.ensure HuffmanDecoding.fresh];
      rewrite payload_cons; apply IH.
Qed.

Lemma payload_add_path_other :
  forall code n c path,
    path <> code ->
    payload_at (HuffmanDecoding.add_path n code c) path = payload_at n path.
Proof.
  induction code as [|a code IH]; intros n c path Hne.
  - destruct path as [|b path]; [contradiction|].
    destruct n as [|p c0 c1];
      cbn [HuffmanDecoding.add_path HuffmanDecoding.ensure HuffmanDecoding.fresh];
      rewrite payload_cons; [|reflexivity].
    destruct b; now rewrite !payload_no_node.
  - destruct path as [|b path].
    + destruct n as [|p c0 c1], a; reflexivity.
    + destruct n as [|p c0 c1], a, b;
        cbn [HuffmanDecoding.add_path HuffmanDecoding.ensure HuffmanDecoding.fresh];
        rewrite ?payload_cons, ?payload_no_node; try reflexivity;
        try (rewrite IH by congruence; now rewrite ?payload_no_node).
Qed.

Lemma add_paths_snoc (n : node) (table : list (ascii * list bool))
      (e : ascii * list bool) :
  add_paths n (table ++ [e]) = HuffmanDecoding.add_path (add_paths n table) (snd e) (fst e).
Proof. unfold add_paths. now rewrite fold_left_app. Qed.

(** The payload at the end of a path is the symbol of the entries with
    that path, when they agree on it. *)
Lemma payload_add_paths (n : node) (path : list bool) (c : ascii) :
  forall table,
    (forall e, In e table -> snd e = path -> fst e = c) ->
    (exists e, In e table /\ snd e = path) ->
    payload_at (add_paths n table) path = Some c.
Proof.
  induction table as [|e table IH] using rev_ind; intros Hc (x & Hx & Hp).
  - destruct Hx.
  - rewrite add_paths_snoc.
    destruct (list_eq_dec Bool.bool_dec (snd e) path) as [He|He].
    + rewrite He, <- (Hc e); [apply payload_add_path_same| |assumption].
      apply in_or_app. right. now left.
    + rewrite payload_add_path_other by congruence. apply IH.
      * intros y Hy. apply Hc. apply in_or_app. now left.
      * exists x. split; [|assumption]. apply in_app_or in Hx.
        destruct Hx as [Hx|[<-|[]]]; [assumption|contradiction].
Qed.

Lemma payload_add_paths_none (n : node) (path : list bool) :
  forall table,
    (forall e, In e table -> snd e <> path) ->
    payload_at (add_paths n table) path = payload_at n path.
Proof.
  induction table as [|e table IH] using rev_ind; intros Hc; [reflexivity|].
  rewrite add_paths_snoc, payload_add_path_other.
  - apply IH. intros y Hy. apply Hc. apply in_or_app. now left.
  - intros H. apply (Hc e); [apply in_or_app; right; now left|now symmetry].
Qed.

(** The walk stops at the first node with a payload. *)
Lemma walk_payload (start_index : Z) (c : ascii) :
  forall code n k rest,
    code <> [] ->
    payload_at n code = Some c ->
    (forall q r, q <> [] -> r <> [] -> code = q ++ r -> payload_at n q = None) ->
    HuffmanDecoding.walk n (code ++ rest) k start_index
    = Ok (Some (c, k + Py.len code + start_index)).
Proof.
  induction code as [|b code IH]; intros n k rest Hne Hp Hq; [contradiction|].
  destruct n as [|p c0 c1]; [now rewrite payload_no_node in Hp|].
  rewrite payload_cons in Hp. cbn [app HuffmanDecoding.walk].
  destruct (if b then c1 else c0) as [|p' d0 d1] eqn:Hch;
    [now rewrite payload_no_node in Hp|].
  destruct code as [|b' code].
  - unfold payload_at in Hp. cbn [subnode] in Hp. subst p'. reflexivity.
  - assert (Hnone : p' = None).
    { specialize (Hq [b] (b' :: code)). rewrite payload_cons, Hch in Hq.
      apply Hq; [discriminate|discriminate|reflexivity]. }
    subst p'.
    rewrite (IH (Node None d0 d1) (k + 1) rest); [|discriminate|assumption|].
    + do 3 f_equal. unfold Py.len. cbn [length]. lia.
    + intros q r Hq1 Hr1 E. specialize (Hq (b :: q) r).
      rewrite payload_cons, Hch in Hq. apply Hq; [discriminate|assumption|].
      cbn [app]. now f_equal.
Qed.

Lemma codes_depth (t : ctree) :
  forall c p, In (c, p) (codes t) -> (length p + 1 <= length (leaves t))%nat.
Proof.
  induction t as [a|l IHl r IHr]; intros c p Hin; cbn [codes leaves] in *.
  - destruct Hin as [[= _ <-]|[]]. cbn [length]. lia.
  - assert (Hl : (1 <= length (leaves l))%nat)
      by (rewrite <- codes_leaves; destruct (codes l) eqn:E;
          [now apply codes_nonempty in E|cbn [map length]; lia]).
    assert (Hr : (1 <= length (leaves r))%nat)
      by (rewrite <- codes_leaves; destruct (codes r) eqn:E;
          [now apply codes_nonempty in E|cbn [map length]; lia]).
    rewrite length_app. apply in_app_or in Hin. rewrite !in_map_iff in Hin.
    destruct Hin as [([c' q] & [= <- <-] & Hq)|([c' q] & [= <- <-] & Hq)];
      cbn [fst snd length].
    + specialize (IHl _ _ Hq). lia.
    + specialize (IHr _ _ Hq). lia.
Qed.

End PrefixTable.

(** X11: the tree the decoder grows from a table of non-empty,
    prefix-free codes, whatever the order of its entries, decodes every code
    of the table to its symbol, wherever the code stands in the bit string,
    and ends just behind the code. *)
Theorem huffman_tree_decodes (unique_chars : list (ascii * list bool)) :
  (forall e, In e unique_chars -> snd e <> []) ->
  (forall e1 e2, In e1 unique_chars -> In e2 unique_chars ->
                 is_prefix (snd e1) (snd e2) -> e1 = e2) ->
  forall c code pre rest,
    In (c, code) unique_chars ->
    HuffmanDecoding.decode (HuffmanDecoding.generate_huffman_tree unique_chars)
                           (pre ++ code ++ rest) (Py.len pre)
    = Ok (Some (c, Py.len pre + Py.len code)).
Proof.
  intros Hne Hpf c code pre rest Hin.
  unfold HuffmanDecoding.decode. rewrite slice_from_app.
  change (HuffmanDecoding.generate_huffman_tree unique_chars)
    with (add_paths HuffmanDecoding.fresh unique_chars).
  rewrite (walk_payload (Py.len pre) c code).
  - do 3 f_equal. lia.
  - exact (Hne _ Hin).
  - apply payload_add_paths.
    + intros e He Hs. assert (E : e = (c, code)).
      { apply Hpf; [assumption|assumption|]. exists []. cbn [snd].
        now rewrite Hs, app_nil_r. }
      now rewrite E.
    + exists (c, code). now split.
  - intros q r Hq Hr E. rewrite payload_add_paths_none.
    + destruct q as [|b q]; [contradiction|].
      unfold HuffmanDecoding.fresh. rewrite payload_cons.
      destruct b; apply payload_no_node.
    + intros e He Hs. assert (E' : e = (c, code)).
      { apply Hpf; [assumption|assumption|]. exists r. cbn [snd]. now rewrite Hs. }
      rewrite E' in Hs. cbn [snd] in Hs. rewrite E in Hs.
      rewrite <- (app_nil_r q) in Hs at 2. apply app_inv_head in Hs. contradiction.
Qed.

Lemma huffman_tree_decodes_witness :
  HuffmanDecoding.decode
    (HuffmanDecoding.generate_huffman_tree
       [("a"%char, [true; true]); ("b"%char, [false]); ("$"%char, [true; false])])
    ([true; false; true] ++ [true; false] ++ [false; false]) 3
  = Ok (Some ("$"%char, 3 + 2)).
Proof.
  apply (huffman_tree_decodes
           [("a"%char, [true; true]); ("b"%char, [false]); ("$"%char, [true; false])]).
  - intros e [<-|[<-|[<-|[]]]]; discriminate.
  - intros e1 e2 H1 H2 [r Hr].
    destruct H1 as [<-|[<-|[<-|[]]]]; destruct H2 as [<-|[<-|[<-|[]]]];
      cbn [snd app] in Hr; try reflexivity; discriminate Hr.
  - right. right. now left.
Defined.

(** X12: for every valid text the code of a symbol has between 1 and
    [u - 1] bits, [u] being the number of distinct characters of the text
    with its sentinel, which are the symbols [get_unique_characters]
    lists, each once. *)
Theorem huffman_code_lengths (text : list ascii) :
  valid_text text ->
  exists huffman_encoding to_write symbols,
    Compress.header (text ++ ["$"%char]) = Ok (huffman_encoding, to_write) /\
    HuffManEncoding.get_unique_characters (snd huffman_encoding) = Ok symbols /\
    NoDup symbols /\
    (forall c, In c symbols <-> In c (text ++ ["$"%char])) /\
    (forall c, In c (text ++ ["$"%char]) ->
               exists code,
                 HuffManEncoding.code_of (fst huffman_encoding) (Py.ord c - 36) = Ok code
                 /\ 1 <= Py.len code <= Py.len symbols - 1).
Proof.
  intros Hvt. destruct (header_spec text Hvt)
    as (character & w & l & r & Hhdr & Hlen & Hnd & Hin & Hall).
  cbv zeta in *. eexists. eexists. exists (leaves (Br l r)).
  split; [exact Hhdr|]. cbn [fst snd]. split; [reflexivity|].
  split; [assumption|]. split; [assumption|].
  intros c Hc. apply Hin in Hc.
  destruct (code_of_leaf _ _ _ Hall Hc) as (p & Hp & Hne & Hq).
  exists p. split; [assumption|]. pose proof (codes_depth _ _ _ Hp) as Hd.
  unfold Py.len. destruct p; [contradiction|]. cbn [length] in *. lia.
Qed.

Lemma huffman_code_lengths_witness :
  exists huffman_encoding to_write symbols,
    Compress.header (text_of "mississippi" ++ ["$"%char])
    = Ok (huffman_encoding, to_write) /\
    HuffManEncoding.get_unique_characters (snd huffman_encoding) = Ok symbols /\
    NoDup symbols /\
    (forall c, In c symbols <-> In c (text_of "mississippi" ++ ["$"%char])) /\
    (forall c, In c (text_of "mississippi" ++ ["$"%char]) ->
               exists code,
                 HuffManEncoding.code_of (fst huffman_encoding) (Py.ord c - 36) = Ok code
                 /\ 1 <= Py.len code <= Py.len symbols - 1).
Proof.
  apply (huffman_code_lengths (text_of "mississippi")).
  apply valid_textb_ok. reflexivity.
Defined.

(** ** Termination *)

Section Halting.

Lemma halts_bind {A B : Type} (m : result A) (k : A -> result B) :
  halts m -> (forall x, m = Ok x -> halts (k x)) -> halts (bind m k).
Proof.
  unfold halts. destruct m as [x| |]; cbn [bind]; intros Hm Hk.
  - now apply Hk.
  - discriminate.
  - contradiction.
Qed.

Lemma halts_ok {A : Type} (r : result A) : (exists x, r = Ok x) -> halts r.
Proof. intros [x ->]. discriminate. Qed.

Lemma get_halts {A : Type} (l : list A) (i : Z) : halts (Py.get l i).
Proof.
  unfold halts, Py.get. destruct (_ || _); [discriminate|].
  destruct (nth_error _ _); discriminate.
Qed.

Lemma set_halts {A : Type} (l : list A) (i : Z) (x : A) : halts (Py.set l i x).
Proof. unfold halts, Py.set. destruct (_ || _); discriminate. Qed.

Lemma int2_halts (s : list bool) : halts (Py.int2 s).
Proof. destruct s; discriminate. Qed.

Lemma elias_encoding_halts (v : Z) : halts (EliasEncoding.elias_encoding v).
Proof. apply halts_ok, elias_encoding_ok. Qed.

(** *** The compressor *)

Lemma append_halts (character : list cell) (index : Z) (value : list bool) :
  halts (HuffManEncoding.append character index value).
Proof.
  unfold HuffManEncoding.append. apply halts_bind; [apply get_halts|].
  intros [n|s] _; apply set_halts.
Qed.

Lemma append_all_halts (value : list bool) :
  forall symbols character,
    halts (HuffManEncoding.append_all character symbols value).
Proof.
  induction symbols as [|c symbols IH]; intros character;
    cbn [HuffManEncoding.append_all]; [discriminate|].
  apply halts_bind; [apply append_halts|]. intros x _. apply IH.
Qed.

(** Every round of the Huffman loop takes two entries and puts one back:
    as many rounds as entries are enough. *)
Lemma huffman_loop_halts (fuel : nat) :
  forall character unique,
    (length unique <= S fuel)%nat ->
    halts (HuffManEncoding.loop fuel character unique).
Proof.
  induction fuel as [|fuel IH]; intros character unique Hl;
    cbn [HuffManEncoding.loop];
    destruct (Z.ltb_spec 1 (Py.len unique)) as [H1|H1]; unfold Py.len in H1;
    try discriminate; [lia|].
  destruct unique as [|x [|y t]]; cbn [length] in *; try lia.
  cbn [Heapq.heappop bind].
  apply halts_bind; [apply append_all_halts|]. intros c1 _.
  apply halts_bind; [apply append_all_halts|]. intros c2 _.
  apply IH. unfold Heapq.heappush. rewrite insert_length. lia.
Qed.

Lemma reverse_loop_halts :
  forall symbols character, halts (HuffManEncoding.reverse_loop character symbols).
Proof.
  induction symbols as [|c symbols IH]; intros character;
    cbn [HuffManEncoding.reverse_loop]; [discriminate|].
  apply halts_bind; [apply get_halts|]. intros x _.
  apply halts_bind; [destruct x; discriminate|]. intros r _.
  apply halts_bind; [apply set_halts|]. intros ch _. apply IH.
Qed.

Lemma init_halts (characters : list cell) (unique : list Heapq.entry) :
  halts (HuffManEncoding.init characters unique).
Proof.
  unfold HuffManEncoding.init, HuffManEncoding.huffman_encoding.
  apply halts_bind.
  - apply huffman_loop_halts. unfold Heapq.heapify. rewrite sort_length. lia.
  - intros [character heap] _. apply halts_bind; [|discriminate].
    unfold HuffManEncoding.reverse_all, HuffManEncoding.get_unique_characters.
    apply halts_bind.
    + apply halts_bind; [apply get_halts|discriminate].
    + intros symbols _. apply reverse_loop_halts.
Qed.

Lemma count_loop_halts :
  forall text characters, halts (Compress.count_loop characters text).
Proof.
  induction text as [|c text IH]; intros characters;
    cbn [Compress.count_loop]; [discriminate|].
  apply halts_bind; [apply get_halts|]. intros [n|s] _; [|discriminate].
  apply halts_bind; [apply set_halts|]. intros ch _. apply IH.
Qed.

Lemma unique_loop_halts :
  forall characters i unique, halts (Compress.unique_loop characters i unique).
Proof.
  induction characters as [|[n|s] characters IH]; intros i unique;
    cbn [Compress.unique_loop]; try discriminate. apply IH.
Qed.

Lemma code_of_halts (character : list cell) (index : Z) :
  halts (HuffManEncoding.code_of character index).
Proof.
  unfold HuffManEncoding.code_of. apply halts_bind; [apply get_halts|].
  intros [n|s] _; discriminate.
Qed.

Lemma table_loop_halts (character : list cell) :
  forall symbols to_write, halts (Compress.table_loop character symbols to_write).
Proof.
  induction symbols as [|c symbols IH]; intros to_write;
    cbn [Compress.table_loop]; [discriminate|].
  apply halts_bind; [apply code_of_halts|]. intros code _.
  apply halts_bind; [apply elias_encoding_halts|]. intros e _. apply IH.
Qed.

Lemma header_halts (text : list ascii) : halts (Compress.header text).
Proof.
  unfold Compress.header.
  apply halts_bind; [apply count_loop_halts|]. intros characters _.
  apply halts_bind; [apply unique_loop_halts|]. intros unique _.
  apply halts_bind; [apply elias_encoding_halts|]. intros e1 _.
  apply halts_bind; [apply elias_encoding_halts|]. intros e2 _.
  apply halts_bind; [apply init_halts|]. intros he _.
  apply halts_bind.
  - unfold HuffManEncoding.get_unique_characters.
    apply halts_bind; [apply get_halts|discriminate].
  - intros symbols _. apply halts_bind; [apply table_loop_halts|discriminate].
Qed.

Lemma bwt_loop_halts (text : list ascii) :
  forall suffix_array bwt_string,
    halts (BWT_Encoding.bwt_loop text suffix_array bwt_string).
Proof.
  induction suffix_array as [|y sa IH]; intros bwt_string;
    cbn [BWT_Encoding.bwt_loop]; [discriminate|].
  apply halts_bind; [apply get_halts|]. intros c _. apply IH.
Qed.

Lemma emit_halts (character : list cell) (c : ascii) (counter : Z)
      (to_write : list bool) :
  halts (Compress.emit character c counter to_write).
Proof.
  unfold Compress.emit. apply halts_bind; [apply code_of_halts|]. intros code _.
  apply halts_bind; [apply elias_encoding_halts|discriminate].
Qed.

Lemma message_loop_halts (character : list cell) :
  forall bwt_string counter to_write,
    halts (Compress.message_loop character bwt_string counter to_write).
Proof.
  induction bwt_string as [|c s IH]; intros counter to_write; [discriminate|].
  destruct s as [|d s]; [discriminate|]. rewrite message_loop_cons2.
  destruct (Py.char_eqb c d); [apply IH|].
  apply halts_bind; [apply emit_halts|]. intros tw _. apply IH.
Qed.

Lemma message_halts (character : list cell) (text : list ascii)
      (to_write : list bool) :
  halts (Compress.message character text to_write).
Proof.
  unfold Compress.message. apply halts_bind; [apply bwt_loop_halts|].
  intros s _. apply halts_bind; [apply message_loop_halts|].
  intros [counter tw] _. apply halts_bind; [apply get_halts|].
  intros last _. apply emit_halts.
Qed.

(** *** The decompressor *)

Lemma decoding_loop_nonneg (fuel : nat) :
  forall bits i e v d x e',
    0 <= d ->
    EliasDecoding.loop fuel bits i e v d = Ok (x, e') -> 0 <= x.
Proof.
  induction fuel as [|fuel IH]; intros bits i e v d x e' Hd H;
    cbn [EliasDecoding.loop] in H;
    destruct (i <? Py.len bits); try discriminate;
    try (injection H as <- _; assumption).
  destruct (nth_error bits (Z.to_nat i)) as [[|]|]; try discriminate.
  - injection H as <- _.
    pose proof (int2_digits_bound (true :: Py.slice bits (i + 1) e)). lia.
  - eapply IH; eassumption.
Qed.

(** The Elias decoder returns on every input, with a value that is not
    negative and an end pointer behind its start. *)
Lemma elias_decode_progress (bits : list bool) (s : Z) :
  0 <= s ->
  exists v e, EliasDecoding.decode bits s = Ok (v, e) /\ 0 <= v /\ s < e.
Proof.
  intros Hs. destruct (elias_decode_total bits s Hs) as [[v e] H].
  exists v, e. split; [assumption|]. split.
  - unfold EliasDecoding.decode in H. eapply decoding_loop_nonneg; [|exact H]. lia.
  - eapply elias_decode_end. exact H.
Qed.

Lemma header_table_loop_end :
  forall n bits e uc e' uc',
    0 <= e ->
    Decompress.table_loop n bits e uc = Ok (e', uc') -> 0 <= e'.
Proof.
  induction n as [|n IH]; intros bits e uc e' uc' He H;
    cbn [Decompress.table_loop] in H.
  - injection H as <- _. assumption.
  - destruct (Py.int2 _) as [cp| |]; cbn [bind] in H; try discriminate.
    destruct (elias_decode_progress bits (e + 7)) as (v & e1 & Hd & Hv & He1); [lia|].
    rewrite Hd in H. cbn [bind] in H. eapply IH; [|exact H]. lia.
Qed.

Lemma header_table_loop_halts :
  forall n bits e uc, 0 <= e -> halts (Decompress.table_loop n bits e uc).
Proof.
  induction n as [|n IH]; intros bits e uc He; cbn [Decompress.table_loop];
    [discriminate|].
  apply halts_bind; [apply int2_halts|]. intros cp _.
  destruct (elias_decode_progress bits (e + 7)) as (v & e1 & Hd & Hv & He1); [lia|].
  rewrite Hd. cbn [bind]. apply IH. lia.
Qed.

Lemma walk_halts (start_index : Z) :
  forall bits n k, halts (HuffmanDecoding.walk n bits k start_index).
Proof.
  induction bits as [|b bits IH]; intros n k; cbn [HuffmanDecoding.walk];
    [discriminate|].
  destruct n as [|p c0 c1]; [discriminate|].
  destruct (if b then c1 else c0) as [|[c|] d0 d1]; try discriminate. apply IH.
Qed.

(** Every round of the payload loop moves the pointer forward: as many
    rounds as bits are enough. *)
Lemma data_loop_halts (fuel : nat) :
  forall tree bits end_index acc,
    0 <= end_index -> Py.len bits - end_index <= Z.of_nat fuel ->
    halts (Decompress.data_loop fuel tree bits end_index acc).
Proof.
  induction fuel as [|fuel IH]; intros tree bits end_index acc H0 Hf;
    cbn [Decompress.data_loop];
    destruct (Z.ltb_spec end_index (Py.len bits)) as [Hlt|Hge];
    try discriminate; [lia|].
  apply halts_bind; [apply walk_halts|]. intros [[c e1]|] Hw; [|discriminate].
  apply huffman_decode_end in Hw.
  destruct (elias_decode_progress bits e1) as (v & e2 & Hd & Hv & He2); [lia|].
  rewrite Hd. cbn [bind]. apply IH; lia.
Qed.

Lemma rank_order_loop_halts :
  forall n char first_column bwt_text rank order_checker order,
    halts (BWT_Decoding.rank_order_loop n char first_column bwt_text
                                        rank order_checker order).
Proof.
  induction n as [|n IH]; intros; cbn [BWT_Decoding.rank_order_loop];
    [discriminate|].
  apply halts_bind; [apply get_halts|]. intros fc _.
  apply halts_bind; [apply get_halts|]. intros r _.
  apply halts_bind; [destruct r; [discriminate|apply set_halts]|]. intros rk _.
  apply halts_bind; [apply get_halts|]. intros bc _.
  apply halts_bind; [apply get_halts|]. intros oc _.
  apply halts_bind; [apply set_halts|]. intros ocs _.
  apply halts_bind; [apply get_halts|]. intros oc' _.
  apply halts_bind; [apply set_halts|]. intros ord' _. apply IH.
Qed.

Lemma formula_halts (bwt_text : list ascii) (rank : list (option Z))
      (order : list Z) (counter : Z) :
  halts (BWT_Decoding.formula bwt_text rank order counter).
Proof.
  unfold BWT_Decoding.formula.
  apply halts_bind; [apply get_halts|]. intros c _.
  apply halts_bind; [apply get_halts|]. intros r _.
  apply halts_bind; [apply get_halts|]. intros o _. destruct r; discriminate.
Qed.

Lemma decode_loop_halts :
  forall n bwt_text rank order answer counter,
    halts (BWT_Decoding.decode_loop n bwt_text rank order answer counter).
Proof.
  induction n as [|n IH]; intros; cbn [BWT_Decoding.decode_loop]; [discriminate|].
  apply halts_bind; [apply get_halts|]. intros c _.
  destruct (Py.char_eqb c "$"); [discriminate|].
  apply halts_bind; [apply set_halts|]. intros a _.
  apply halts_bind; [apply formula_halts|]. intros k _. apply IH.
Qed.

Lemma join_halts (answer : list (option ascii)) : halts (BWT_Decoding.join answer).
Proof.
  induction answer as [|[c|] answer IH]; cbn [BWT_Decoding.join]; try discriminate.
  apply halts_bind; [assumption|discriminate].
Qed.

Lemma bwt_decode_halts (bwt_text : list ascii) :
  halts (BWT_Decoding.decode bwt_text).
Proof.
  unfold BWT_Decoding.decode, BWT_Decoding.rank_order.
  apply halts_bind; [apply rank_order_loop_halts|]. intros [rank order] _.
  apply halts_bind; [apply decode_loop_halts|]. intros a _. apply join_halts.
Qed.


End Halting.

(** X13: the compressor halts on every text: each of its loops ends, and
    it either writes the file or raises. *)
Theorem zip_halts_on_every_text (text : list ascii) :
  Compress.compress text = Raise \/ exists file, Compress.compress text = Ok file.
Proof.
  assert (H : halts (Compress.compress text)).
  { unfold Compress.compress, Compress.bitstream.
    apply halts_bind.
    - apply halts_bind; [apply header_halts|]. intros [he tw] _. apply message_halts.
    - intros tw _. apply halts_ok.
      destruct (write_read tw) as (file & k & Hw & _). eauto. }
  destruct (Compress.compress text) as [file| |]; [eauto|now left|now destruct H].
Qed.

(** X14: the decompressor halts on every file, whatever its bytes: the
    Elias loop, the payload loop and the inverse transform all end, and it
    either returns the text or raises. *)
Theorem unzip_halts_on_every_file (file : list Z) :
  Decompress.decompress file = Raise \/
  exists text, Decompress.decompress file = Ok text.
Proof.
  assert (H : halts (Decompress.decompress file)).
  { unfold Decompress.decompress, Decompress.run, Decompress.decode_header.
    set (bits := Decompress.read file).
    destruct (elias_decode_progress bits 0) as (n & e1 & H1 & _ & He1); [lia|].
    rewrite H1. cbn [bind].
    destruct (elias_decode_progress bits e1) as (u & e2 & H2 & _ & He2); [lia|].
    rewrite H2. cbn [bind].
    apply halts_bind.
    - apply halts_bind; [apply header_table_loop_halts; lia|].
      intros [e3 uc] _. discriminate.
    - intros [[[tl nu] e3] uc] Hh.
      destruct (Decompress.table_loop (Z.to_nat u) bits e2 []) as [[e3' uc']| |] eqn:Ht;
        cbn [bind] in Hh; try discriminate.
      injection Hh as _ _ <- <-.
      apply header_table_loop_end in Ht; [|lia].
      apply halts_bind.
      + apply data_loop_halts; [assumption|]. unfold Py.len. lia.
      + intros s _. apply bwt_decode_halts. }
  destruct (Decompress.decompress file) as [text| |]; [eauto|now left|now destruct H].
Qed.



(** ** The counts, the length field and the sentinel in the decoder *)

Section Counts.

Lemma nth_of_nth_error {A : Type} (l l' : list A) (m : nat) (d : A) :
  nth_error l m = nth_error l' m -> nth m l d = nth m l' d.
Proof.
  intros H. rewrite <- !nth_default_eq. unfold nth_default. now rewrite H.
Qed.

Lemma total_update :
  forall zs n z x,
    nth_error zs n = Some z -> total (Py.update zs n x) = total zs - z + x.
Proof.
  unfold total. induction zs as [|h zs IH]; intros [|n] z x H; try discriminate;
    cbn [nth_error Py.update fold_right] in *.
  - injection H as ->. lia.
  - rewrite (IH n z x H). lia.
Qed.

Lemma count_loop_exact :
  forall text zs,
    length zs = 91%nat ->
    Forall valid_char text ->
    exists zs',
      Compress.count_loop (map Count zs) text = Ok (map Count zs') /\
      length zs' = 91%nat /\
      (forall c, valid_char c ->
                 nth (index_of c) zs' 0
                 = nth (index_of c) zs 0 + Z.of_nat (count_occ ascii_dec text c)) /\
      total zs' = total zs + Py.len text.
Proof.
  induction text as [|ch text IH]; intros zs Hlen Hvalid.
  - exists zs. split; [reflexivity|]. split; [assumption|]. split.
    + intros c _. cbn [count_occ]. lia.
    + change (Py.len []) with 0. lia.
  - inversion Hvalid as [|? ? Hch Hrest]; subst.
    pose proof (index_of_lt ch Hch) as Hlt.
    destruct (nth_error zs (index_of ch)) as [z|] eqn:Hz;
      [|apply nth_error_None in Hz; lia].
    cbn [Compress.count_loop].
    rewrite (get_at_index (map Count zs) ch (Count z)); [|assumption|].
    2:{ rewrite nth_error_map, Hz. reflexivity. }
    cbn [bind]. rewrite set_at_index by (rewrite ?length_map; assumption).
    cbn [bind]. rewrite update_map_Count.
    destruct (IH (Py.update zs (index_of ch) (z + 1))) as (zs' & H1 & H2 & H3 & H4);
      [now rewrite length_update|assumption|].
    exists zs'. split; [assumption|]. split; [assumption|]. split.
    + intros c Hc. rewrite (H3 c Hc). cbn [count_occ].
      destruct (ascii_dec ch c) as [->|Hne].
      * assert (Hu : nth_error (Py.update zs (index_of c) (z + 1)) (index_of c)
                     = Some (z + 1)) by (apply nth_error_update_eq; lia).
        rewrite (nth_error_nth _ _ 0 Hu), (nth_error_nth _ _ 0 Hz). lia.
      * rewrite (nth_of_nth_error (Py.update zs (index_of ch) (z + 1)) zs); [lia|].
        apply nth_error_update_neq. intros He. apply Hne.
        now apply index_of_inj.
    + rewrite H4, (total_update _ _ _ _ Hz). unfold Py.len. cbn [length]. lia.
Qed.

End Counts.

(** X16: the table of counts that [header()] fills holds, for every
    character of the table, the number of its occurrences in the text; the
    counts add up to the length of the text, and the entries handed to the
    Huffman construction are the positive counts with their characters, in
    the order of the code points. *)
Theorem header_counts_occurrences (text : list ascii) :
  Forall valid_char text ->
  exists zs,
    Compress.count_loop (repeat (Count 0) 91) text = Ok (map Count zs) /\
    length zs = 91%nat /\
    (forall c, valid_char c ->
               nth (Z.to_nat (Py.ord c - 36)) zs 0
               = Z.of_nat (count_occ ascii_dec text c)) /\
    total zs = Py.len text /\
    Compress.unique_loop (map Count zs) 0 [] = Ok (unique_from zs 0).
Proof.
  intros Hv. destruct (count_loop_exact text (repeat 0 91) (repeat_length _ _) Hv)
    as (zs & H1 & H2 & H3 & H4).
  exists zs. split; [exact H1|]. split; [assumption|]. split; [|split].
  - intros c Hc. fold (index_of c). rewrite (H3 c Hc).
    rewrite nth_repeat. lia.
  - rewrite H4. reflexivity.
  - apply (unique_loop_spec zs 0 []).
Qed.

Lemma header_counts_occurrences_witness :
  exists zs,
    Compress.count_loop (repeat (Count 0) 91) (text_of "banana$") = Ok (map Count zs) /\
    length zs = 91%nat /\
    (forall c, valid_char c ->
               nth (Z.to_nat (Py.ord c - 36)) zs 0
               = Z.of_nat (count_occ ascii_dec (text_of "banana$") c)) /\
    total zs = Py.len (text_of "banana$") /\
    Compress.unique_loop (map Count zs) 0 [] = Ok (unique_from zs 0).
Proof.
  apply (header_counts_occurrences (text_of "banana$")).
  repeat constructor; unfold valid_char; cbn; lia.
Defined.

(** X17: the decompressor never uses the text length of the header. The
    bit string of a compressed text starts with the Elias code of the length;
    with the code of any other positive number in its place, and any padding
    of zeros, the decompressor still returns the text. *)
Theorem text_length_unused (text : list ascii) :
  valid_text text ->
  exists length_code tail,
    EliasEncoding.elias_encoding (Py.len (text ++ ["$"%char])) = Ok length_code /\
    Compress.bitstream text = Ok (length_code ++ tail) /\
    forall m m_code k,
      1 <= m -> EliasEncoding.elias_encoding m = Ok m_code ->
      Decompress.run (m_code ++ tail ++ repeat false k) = Ok text.
Proof.
  intros Hvt. destruct (bitstream_spec text Hvt)
    as (character & w & l & r & bwt_string & Hhdr & Hbwt & Hblen & Hbits & Hnd
        & Hin & Hcodes & Hruns).
  cbv zeta in *. set (t := Br l r) in *. set (text' := text ++ ["$"%char]) in *.
  set (payload := concat (map (run_bits (code_in character)) (Compress.runs bwt_string)))
    in *.
  set (table := elias_bits (Py.len (codes t)) ++ concat (map table_entry (codes t))).
  assert (Hn : 1 <= Py.len text').
  { unfold text'. rewrite len_app. pose proof (len_nonneg text).
    change (Py.len ["$"%char]) with 1. lia. }
  exists (elias_bits (Py.len text')), (table ++ payload).
  split; [now apply elias_bits_ok|]. split.
  { rewrite Hbits. unfold header_bits, table. now rewrite <- !app_assoc. }
  intros m m_code k Hm Hcode.
  assert (Em : m_code = elias_bits m).
  { rewrite (elias_bits_ok m Hm) in Hcode. now injection Hcode. }
  subst m_code. set (hdr := header_bits m t).
  assert (Ebits : elias_bits m ++ (table ++ payload) ++ repeat false k
                  = hdr ++ payload ++ repeat false k).
  { unfold hdr, header_bits, table. now rewrite <- !app_assoc. }
  rewrite Ebits.
  pose proof (decode_header_spec m (codes t) (payload ++ repeat false k) Hm
                (codes_nonempty t) Hcodes) as Hdh.
  cbv zeta in Hdh. fold (header_bits m t) in Hdh. fold hdr in Hdh.
  unfold Decompress.run. rewrite Hdh. cbn [bind].
  rewrite generate_huffman_tree_codes. unfold Decompress.decode_data.
  fold (data_run (node_of t) (hdr ++ payload ++ repeat false k) (Py.len hdr) []).
  unfold payload, t. rewrite data_run_runs by assumption.
  fold payload. fold t.
  replace (hdr ++ payload ++ repeat false k) with ((hdr ++ payload) ++ repeat false k)
    by now rewrite <- app_assoc.
  rewrite <- len_app. unfold t. rewrite data_run_padding.
  cbn [app bind]. rewrite runs_expand.
  destruct (bwt_inverse text (proj2 Hvt)) as [Hb' Hinv].
  fold text' in Hb'. rewrite Hbwt in Hb'. injection Hb' as ->. exact Hinv.
Qed.

Lemma text_length_unused_witness :
  exists length_code tail,
    EliasEncoding.elias_encoding (Py.len (text_of "banana" ++ ["$"%char]))
    = Ok length_code /\
    Compress.bitstream (text_of "banana") = Ok (length_code ++ tail) /\
    forall m m_code k,
      1 <= m -> EliasEncoding.elias_encoding m = Ok m_code ->
      Decompress.run (m_code ++ tail ++ repeat false k) = Ok (text_of "banana").
Proof.
  apply (text_length_unused (text_of "banana")).
  apply valid_textb_ok. reflexivity.
Defined.

(** X18: the inverse transform stops at the first '$' it meets, and it
    starts at index 0: a transformed string of two or more characters that
    starts with '$' leaves every place of the answer empty, and joining the
    answer raises. *)
Theorem bwt_decode_sentinel_first (rest : list ascii) :
  rest <> [] ->
  BWT_Decoding.decode ("$"%char :: rest) = Raise.
Proof.
  intros Hne. pose proof (bwt_decode_halts ("$"%char :: rest)) as Hh.
  unfold BWT_Decoding.decode in *.
  destruct (BWT_Decoding.rank_order ("$"%char :: rest)) as [[rank order]| |];
    cbn [bind] in *; [|reflexivity|now destruct Hh].
  replace (Z.to_nat (Py.len ("$"%char :: rest) - 1)) with (length rest)
    by (unfold Py.len; cbn [length]; lia).
  rewrite repeat_length. destruct rest as [|c rest]; [contradiction|].
  cbn [length repeat BWT_Decoding.decode_loop].
  change (Py.get ("$"%char :: c :: rest) 0) with (Ok "$"%char).
  cbn [bind]. reflexivity.
Qed.

Lemma bwt_decode_sentinel_first_witness :
  BWT_Decoding.decode (text_of "$ab") = Raise.
Proof.
  apply (bwt_decode_sentinel_first (text_of "ab")). discriminate.
Defined.
